(** * Idea2Repo backend: response extraction, completion client and
      generation orchestrator (src/backend/main.py)

    A shallow embedding of the three components of the backend and of the
    request validation in front of them, followed by the properties that
    the specification states about them.

    Modelling conventions.
    - A Python [str] is a list of Unicode code points ([N]); [len] is
      [length], [s[:n]] is [firstn n s], [s[n:]] is [skipn n s].
    - A Python [bytes] is a [list Byte.byte].
    - The values produced by [json.loads] are the inductive type [JSON];
      a [dict] is an association list in insertion order with unique keys.
    - Exceptions are values of type [exn]; code that can raise returns an
      [outcome].  A generator is a function from the behaviour of the
      provider to the trace of what it does: what it yields and which
      network calls it makes, in order.
    - Logging calls have no effect on control flow (structlog is
      configured); only the evaluation of their arguments is kept.
    - Interpreter resource limits (recursion depth, the decimal digit
      limit of [int]) are outside the model: [json.loads] either returns a
      value or raises [JSONDecodeError], as documented. *)

From Stdlib Require Import DecimalN DecimalZ DecimalPos DecimalFacts.
From Stdlib.Strings Require Import String Ascii Byte.
From Stdlib Require Import List NArith ZArith Bool Lia.
Import ListNotations.

Set Implicit Arguments.
Set Warnings "-register-all".

(* ================================================================= *)
(** * Part I: the embedding *)
(* ================================================================= *)

(** ** Python strings *)

Definition char := N.
Definition str := list char.

(** An ASCII literal as a Python string. *)
Definition lit (s : string) : str :=
  map (fun a => N_of_ascii a) (list_ascii_of_string s).

(** The same, with every apostrophe standing for a double quote. *)
Definition qlit (s : string) : str :=
  map (fun c => if (c =? 39)%N then 34%N else c) (lit s).

Definition char_eqb (a b : char) : bool := (a =? b)%N.

Fixpoint str_eqb (a b : str) : bool :=
  match a, b with
  | [], [] => true
  | x :: a', y :: b' => char_eqb x y && str_eqb a' b'
  | _, _ => false
  end.

(** [str.isspace] for one code point. *)
Definition isspace (c : char) : bool :=
  ((9 <=? c) && (c <=? 13) || (28 <=? c) && (c <=? 32)
   || (c =? 133) || (c =? 160) || (c =? 5760)
   || (8192 <=? c) && (c <=? 8202)
   || (c =? 8232) || (c =? 8233) || (c =? 8239) || (c =? 8287)
   || (c =? 12288))%N.

Fixpoint lstrip (s : str) : str :=
  match s with
  | [] => []
  | c :: r => if isspace c then lstrip r else s
  end.

Definition rstrip (s : str) : str := rev (lstrip (rev s)).

(** [s.strip()] *)
Definition strip (s : str) : str := rstrip (lstrip s).

(** [s.startswith(p)] *)
Fixpoint startswith (p s : str) : bool :=
  match p, s with
  | [], _ => true
  | x :: p', y :: s' => char_eqb x y && startswith p' s'
  | _ :: _, [] => false
  end.

(** [s.replace(old, new)] for a non-empty [old]: occurrences are found
    from the left and do not overlap.  [skip] counts the characters of a
    match that are still to be dropped. *)
Fixpoint replace_from (old new : str) (skip : nat) (s : str) : str :=
  match s with
  | [] => []
  | c :: r =>
      match skip with
      | S k => replace_from old new k r
      | O =>
          if startswith old s
          then new ++ replace_from old new (length old - 1) r
          else c :: replace_from old new 0 r
      end
  end.

Definition replace (old new s : str) : str := replace_from old new 0 s.

(** [sub in s] for strings *)
Fixpoint contains (sub s : str) : bool :=
  startswith sub s ||
  match s with
  | [] => false
  | _ :: r => contains sub r
  end.

(** ** The regular expression [\{.*\}] with DOTALL

    [re.search] returns the leftmost match and [.*] is greedy, so the
    match runs from the first opening brace to the last closing brace
    after it. *)

Definition LBRACE : char := 123%N.
Definition RBRACE : char := 125%N.

Fixpoint from_first_open (s : str) : option str :=
  match s with
  | [] => None
  | c :: r => if char_eqb c LBRACE then Some r else from_first_open r
  end.

Fixpoint upto_last_close (s : str) : option str :=
  match s with
  | [] => None
  | c :: r =>
      match upto_last_close r with
      | Some m => Some (c :: m)
      | None => if char_eqb c RBRACE then Some [c] else None
      end
  end.

Definition search_braces (text : str) : option str :=
  match from_first_open text with
  | Some r =>
      match upto_last_close r with
      | Some m => Some (LBRACE :: m)
      | None => None
      end
  | None => None
  end.

(** ** UTF-8 decoding of [bytes] *)

Definition is_cont (b : N) : bool := ((128 <=? b) && (b <=? 191))%N.

Definition in_range (lo hi b : N) : bool := ((lo <=? b) && (b <=? hi))%N.

Definition low6 (b : N) : N := (b - 128)%N.

(** [utf8_units bs] decodes the sequence of byte values [bs]; [None] is
    [UnicodeDecodeError]. *)
Fixpoint utf8_units (bs : list N) : option str :=
  match bs with
  | [] => Some []
  | b0 :: r0 =>
      if (b0 <? 128)%N then option_map (cons b0) (utf8_units r0)
      else if in_range 194 223 b0 then
        match r0 with
        | b1 :: r1 =>
            if is_cont b1
            then option_map (cons ((b0 - 192) * 64 + low6 b1)%N) (utf8_units r1)
            else None
        | [] => None
        end
      else if in_range 224 239 b0 then
        match r0 with
        | b1 :: b2 :: r2 =>
            if (if (b0 =? 224)%N then in_range 160 191 b1
                else if (b0 =? 237)%N then in_range 128 159 b1
                else is_cont b1) && is_cont b2
            then option_map
                   (cons ((b0 - 224) * 4096 + low6 b1 * 64 + low6 b2)%N)
                   (utf8_units r2)
            else None
        | _ => None
        end
      else if in_range 240 244 b0 then
        match r0 with
        | b1 :: b2 :: b3 :: r3 =>
            if (if (b0 =? 240)%N then in_range 144 191 b1
                else if (b0 =? 244)%N then in_range 128 143 b1
                else is_cont b1) && is_cont b2 && is_cont b3
            then option_map
                   (cons ((b0 - 240) * 262144 + low6 b1 * 4096
                          + low6 b2 * 64 + low6 b3)%N)
                   (utf8_units r3)
            else None
        | _ => None
        end
      else None
  end.

Definition bytes := list Byte.byte.

(** [line.decode('utf-8')] *)
Definition decode_utf8 (line : bytes) : option str :=
  utf8_units (map Byte.to_N line).

(** An ASCII literal as [bytes]. *)
Definition blit (s : string) : bytes := list_byte_of_string s.

Definition bqlit (s : string) : bytes :=
  map (fun b => if Byte.eqb b x27 then x22 else b) (blit s).

(** ** JSON values: what [json.loads] returns

    [JFloat] keeps the literal the float was read from; floating-point
    arithmetic itself is not modelled.  The literals [NaN], [Infinity]
    and [-Infinity], which Python accepts, are floats too. *)

Inductive JSON : Type :=
| JNull
| JBool (b : bool)
| JInt (n : Z)
| JFloat (literal : str)
| JStr (s : str)
| JList (items : list JSON)
| JDict (items : list (str * JSON)).

(** [d[key] = v] on a dict: an existing key keeps its position. *)
Fixpoint dict_set (d : list (str * JSON)) (key : str) (v : JSON)
  : list (str * JSON) :=
  match d with
  | [] => [(key, v)]
  | (k, w) :: r =>
      if str_eqb k key then (k, v) :: r else (k, w) :: dict_set r key v
  end.

Fixpoint dict_get (d : list (str * JSON)) (key : str) : option JSON :=
  match d with
  | [] => None
  | (k, w) :: r => if str_eqb k key then Some w else dict_get r key
  end.

(** ** json.loads *)

Definition DQUOTE : char := 34%N.
Definition BACKSLASH : char := 92%N.
Definition COMMA : char := 44%N.
Definition COLON : char := 58%N.
Definition LBRACKET : char := 91%N.
Definition RBRACKET : char := 93%N.
Definition MINUS : char := 45%N.
Definition SPACE : char := 32%N.

(** The whitespace of the JSON grammar: space, tab, line feed, return. *)
Definition json_ws (c : char) : bool :=
  ((c =? 32) || (c =? 9) || (c =? 10) || (c =? 13))%N.

Fixpoint skip_ws (s : str) : str :=
  match s with
  | [] => []
  | c :: r => if json_ws c then skip_ws r else s
  end.

Definition is_digit (c : char) : bool := ((48 <=? c) && (c <=? 57))%N.

Definition hex_value (c : char) : option N :=
  if is_digit c then Some (c - 48)%N
  else if ((97 <=? c) && (c <=? 102))%N then Some (c - 87)%N
  else if ((65 <=? c) && (c <=? 70))%N then Some (c - 55)%N
  else None.

Definition hex4 (a b c d : char) : option N :=
  match hex_value a, hex_value b, hex_value c, hex_value d with
  | Some x, Some y, Some z, Some w => Some (x * 4096 + y * 256 + z * 16 + w)%N
  | _, _, _, _ => None
  end.

Definition is_high_surrogate (u : N) : bool := ((55296 <=? u) && (u <=? 56319))%N.
Definition is_low_surrogate (u : N) : bool := ((56320 <=? u) && (u <=? 57343))%N.

Definition join_surrogates (hi lo : N) : N :=
  (65536 + ((hi - 55296) * 1024 + (lo - 56320)))%N.

(** The one-character escapes of a JSON string. *)
Definition unescape (e : char) : option char :=
  if (e =? 34)%N then Some 34%N
  else if (e =? 92)%N then Some 92%N
  else if (e =? 47)%N then Some 47%N
  else if (e =? 98)%N then Some 8%N
  else if (e =? 102)%N then Some 12%N
  else if (e =? 110)%N then Some 10%N
  else if (e =? 114)%N then Some 13%N
  else if (e =? 116)%N then Some 9%N
  else None.

Definition push (c : char) (r : option (str * str)) : option (str * str) :=
  match r with
  | Some (v, rest) => Some (c :: v, rest)
  | None => None
  end.

(** [scanstring] in strict mode, from the character after the opening
    quote: the decoded string and what follows the closing quote. *)
Fixpoint scanstring (s : str) : option (str * str) :=
  match s with
  | [] => None
  | c :: r =>
      if char_eqb c DQUOTE then Some ([], r)
      else if char_eqb c BACKSLASH then
        match r with
        | [] => None
        | e :: r1 =>
            if (e =? 117)%N then
              match r1 with
              | h1 :: h2 :: h3 :: h4 :: r2 =>
                  match hex4 h1 h2 h3 h4 with
                  | None => None
                  | Some uni =>
                      if is_high_surrogate uni then
                        match r2 with
                        | b :: u :: g1 :: g2 :: g3 :: g4 :: r3 =>
                            if char_eqb b BACKSLASH && (u =? 117)%N then
                              match hex4 g1 g2 g3 g4 with
                              | None => None
                              | Some uni2 =>
                                  if is_low_surrogate uni2
                                  then push (join_surrogates uni uni2)
                                            (scanstring r3)
                                  else push uni (scanstring r2)
                              end
                            else push uni (scanstring r2)
                        | _ => push uni (scanstring r2)
                        end
                      else push uni (scanstring r2)
                  end
              | _ => None
              end
            else
              match unescape e with
              | Some ch => push ch (scanstring r1)
              | None => None
              end
        end
      else if (c <? 32)%N then None
      else push c (scanstring r)
  end.

(** *** Numbers *)

Fixpoint span_digits (s : str) : str * str :=
  match s with
  | [] => ([], [])
  | c :: r =>
      if is_digit c
      then let (d, t) := span_digits r in (c :: d, t)
      else ([], s)
  end.

Definition digit_of_char (c : char) (u : Decimal.uint) : Decimal.uint :=
  if (c =? 48)%N then Decimal.D0 u
  else if (c =? 49)%N then Decimal.D1 u
  else if (c =? 50)%N then Decimal.D2 u
  else if (c =? 51)%N then Decimal.D3 u
  else if (c =? 52)%N then Decimal.D4 u
  else if (c =? 53)%N then Decimal.D5 u
  else if (c =? 54)%N then Decimal.D6 u
  else if (c =? 55)%N then Decimal.D7 u
  else if (c =? 56)%N then Decimal.D8 u
  else Decimal.D9 u.

Fixpoint uint_of_digits (s : str) : Decimal.uint :=
  match s with
  | [] => Decimal.Nil
  | c :: r => digit_of_char c (uint_of_digits r)
  end.

Fixpoint digits_of_uint (u : Decimal.uint) : str :=
  match u with
  | Decimal.Nil => []
  | Decimal.D0 u => 48%N :: digits_of_uint u
  | Decimal.D1 u => 49%N :: digits_of_uint u
  | Decimal.D2 u => 50%N :: digits_of_uint u
  | Decimal.D3 u => 51%N :: digits_of_uint u
  | Decimal.D4 u => 52%N :: digits_of_uint u
  | Decimal.D5 u => 53%N :: digits_of_uint u
  | Decimal.D6 u => 54%N :: digits_of_uint u
  | Decimal.D7 u => 55%N :: digits_of_uint u
  | Decimal.D8 u => 56%N :: digits_of_uint u
  | Decimal.D9 u => 57%N :: digits_of_uint u
  end.

(** [int(text)] for an optional minus sign and decimal digits. *)
Definition int_of_digits (negative : bool) (digits : str) : Z :=
  Z.of_int (if negative then Decimal.Neg (uint_of_digits digits)
            else Decimal.Pos (uint_of_digits digits)).

(** [str(n)] for an [int]. *)
Definition str_of_int (n : Z) : str :=
  match Z.to_int n with
  | Decimal.Pos u => digits_of_uint u
  | Decimal.Neg u => MINUS :: digits_of_uint u
  end.

(** The integer part [0|[1-9][0-9]*]. *)
Definition match_int_part (s : str) : option (str * str) :=
  match s with
  | [] => None
  | c :: r =>
      if (c =? 48)%N then Some ([c], r)
      else if is_digit c then let (d, t) := span_digits r in Some (c :: d, t)
      else None
  end.

(** The optional fraction [\.[0-9]+]. *)
Definition match_frac (s : str) : str * str :=
  match s with
  | dot :: d :: r =>
      if (dot =? 46)%N && is_digit d
      then let (ds, t) := span_digits r in (dot :: d :: ds, t)
      else ([], s)
  | _ => ([], s)
  end.

(** The optional exponent [[eE][-+]?[0-9]+]. *)
Definition match_exp (s : str) : str * str :=
  match s with
  | e :: r =>
      if ((e =? 101) || (e =? 69))%N then
        match r with
        | sg :: d :: r' =>
            if ((sg =? 43) || (sg =? 45))%N then
              if is_digit d
              then let (ds, t) := span_digits r' in (e :: sg :: d :: ds, t)
              else ([], s)
            else if is_digit sg
            then let (ds, t) := span_digits (d :: r') in (e :: sg :: ds, t)
            else ([], s)
        | [d] =>
            if is_digit d then ([e; d], []) else ([], s)
        | [] => ([], s)
        end
      else ([], s)
  | [] => ([], s)
  end.

(** A number at the head of [s]: an [int] when it has neither fraction
    nor exponent, a [float] otherwise. *)
Definition match_number (s : str) : option (JSON * str) :=
  let (negative, s1) :=
    match s with
    | c :: r => if char_eqb c MINUS then (true, r) else (false, s)
    | [] => (false, s)
    end in
  match match_int_part s1 with
  | None => None
  | Some (ip, s2) =>
      let (fp, s3) := match_frac s2 in
      let (ep, s4) := match_exp s3 in
      match fp, ep with
      | [], [] => Some (JInt (int_of_digits negative ip), s4)
      | _, _ =>
          Some (JFloat ((if negative then [MINUS] else []) ++ ip ++ fp ++ ep),
                s4)
      end
  end.

(** *** Values *)

(** The result of scanning a value: the value and the rest of the text,
    a syntax error, or recursion budget used up.  [json_loads] gives a
    budget that is never used up ([scan_budget], below). *)
Inductive scan (A : Type) : Type :=
| Scanned (a : A) (rest : str)
| Invalid
| Exhausted.
Arguments Invalid {A}.
Arguments Exhausted {A}.

Definition NULL : str := Eval cbv in lit "null".
Definition TRUE : str := Eval cbv in lit "true".
Definition FALSE : str := Eval cbv in lit "false".
Definition NAN : str := Eval cbv in lit "NaN".
Definition INFINITY : str := Eval cbv in lit "Infinity".
Definition NEG_INFINITY : str := Eval cbv in lit "-Infinity".

Definition scan_number (s : str) : scan JSON :=
  match match_number s with
  | Some (v, r) => Scanned v r
  | None => Invalid
  end.

(** [scan_once] with the object and array loops of the decoder. *)
Fixpoint scan_once (fuel : nat) (s : str) {struct fuel} : scan JSON :=
  match fuel with
  | O => Exhausted
  | S fuel' =>
      match s with
      | [] => Invalid
      | c :: rest =>
          if char_eqb c DQUOTE then
            match scanstring rest with
            | Some (v, r) => Scanned (JStr v) r
            | None => Invalid
            end
          else if char_eqb c LBRACE then
            match skip_ws rest with
            | [] => Invalid
            | c' :: r' =>
                if char_eqb c' RBRACE then Scanned (JDict []) r'
                else scan_object fuel' (c' :: r') []
            end
          else if char_eqb c LBRACKET then
            match skip_ws rest with
            | [] => Invalid
            | c' :: r' =>
                if char_eqb c' RBRACKET then Scanned (JList []) r'
                else scan_array fuel' (c' :: r') []
            end
          else if startswith NULL s then Scanned JNull (skipn 4 s)
          else if startswith TRUE s then Scanned (JBool true) (skipn 4 s)
          else if startswith FALSE s then Scanned (JBool false) (skipn 5 s)
          else if startswith NAN s then Scanned (JFloat NAN) (skipn 3 s)
          else if startswith INFINITY s
          then Scanned (JFloat INFINITY) (skipn 8 s)
          else if startswith NEG_INFINITY s
          then Scanned (JFloat NEG_INFINITY) (skipn 9 s)
          else scan_number s
      end
  end

with scan_object (fuel : nat) (s : str) (acc : list (str * JSON))
       {struct fuel} : scan JSON :=
  match fuel with
  | O => Exhausted
  | S fuel' =>
      match s with
      | [] => Invalid
      | c :: rest =>
          if char_eqb c DQUOTE then
            match scanstring rest with
            | None => Invalid
            | Some (key, r) =>
                match skip_ws r with
                | [] => Invalid
                | c2 :: r2 =>
                    if char_eqb c2 COLON then
                      match scan_once fuel' (skip_ws r2) with
                      | Scanned v r3 =>
                          let acc' := dict_set acc key v in
                          match skip_ws r3 with
                          | [] => Invalid
                          | c4 :: r4 =>
                              if char_eqb c4 RBRACE
                              then Scanned (JDict acc') r4
                              else if char_eqb c4 COMMA
                              then scan_object fuel' (skip_ws r4) acc'
                              else Invalid
                          end
                      | Invalid => Invalid
                      | Exhausted => Exhausted
                      end
                    else Invalid
                end
            end
          else Invalid
      end
  end

with scan_array (fuel : nat) (s : str) (acc : list JSON)
       {struct fuel} : scan JSON :=
  match fuel with
  | O => Exhausted
  | S fuel' =>
      match scan_once fuel' s with
      | Scanned v r =>
          match skip_ws r with
          | [] => Invalid
          | c :: r' =>
              if char_eqb c RBRACKET then Scanned (JList (acc ++ [v])) r'
              else if char_eqb c COMMA
              then scan_array fuel' (skip_ws r') (acc ++ [v])
              else Invalid
          end
      | Invalid => Invalid
      | Exhausted => Exhausted
      end
  end.

(** ** Exceptions *)

Inductive exn_class : Type :=
| ConnectTimeout           (* requests.exceptions *)
| ReadTimeout
| ConnectionError
| HTTPError
| ChunkedEncodingError
| RequestsJSONDecodeError
| JSONDecodeError          (* json *)
| UnicodeDecodeError       (* builtins *)
| TypeError
| AttributeError
| KeyError
| IndexError.

(** An exception: its class and the text [str(e)] would give. *)
Record exn : Type := Exn { exn_cls : exn_class; exn_text : str }.

(** [isinstance(e, requests.exceptions.Timeout)] *)
Definition is_Timeout (e : exn) : bool :=
  match exn_cls e with
  | ConnectTimeout | ReadTimeout => true
  | _ => false
  end.

(** [isinstance(e, requests.exceptions.RequestException)] *)
Definition is_RequestException (e : exn) : bool :=
  match exn_cls e with
  | ConnectTimeout | ReadTimeout | ConnectionError | HTTPError
  | ChunkedEncodingError | RequestsJSONDecodeError => true
  | _ => false
  end.

(** [isinstance(e, json.JSONDecodeError)] *)
Definition is_JSONDecodeError (e : exn) : bool :=
  match exn_cls e with
  | JSONDecodeError | RequestsJSONDecodeError => true
  | _ => false
  end.

Inductive outcome (A : Type) : Type :=
| Return (a : A)
| Raise (e : exn).
Arguments Raise {A}.

(** An exception raised by the interpreter or by the [json] module; its
    message is not modelled. *)
Definition raise {A : Type} (c : exn_class) : outcome A := Raise (Exn c []).

(** [json.loads(s)] *)
Definition json_loads (s : str) : outcome JSON :=
  let s' := skip_ws s in
  match scan_once (S (2 * length s')) s' with
  | Scanned v rest =>
      match skip_ws rest with
      | [] => Return v
      | _ :: _ => raise JSONDecodeError
      end
  | Invalid | Exhausted => raise JSONDecodeError
  end.

(** ** Operations of the interpreter on JSON values *)

Definition bind {A B : Type} (m : outcome A) (k : A -> outcome B)
  : outcome B :=
  match m with
  | Return a => k a
  | Raise e => Raise e
  end.

Declare Scope py_scope.
Delimit Scope py_scope with py.
Notation "x <- m ;; k" := (bind m (fun x => k))
  (at level 61, m at next level, right associativity) : py_scope.
Open Scope py_scope.

Definition is_some {A : Type} (o : option A) : bool :=
  match o with Some _ => true | None => false end.

(** [key in v] *)
Definition py_contains (key : str) (v : JSON) : outcome bool :=
  match v with
  | JDict d => Return (is_some (dict_get d key))
  | JList l =>
      Return (existsb (fun x => match x with
                                | JStr s => str_eqb s key
                                | _ => false
                                end) l)
  | JStr s => Return (contains key s)
  | _ => raise TypeError
  end.

(** [len(v)] *)
Definition py_len (v : JSON) : outcome nat :=
  match v with
  | JStr s => Return (length s)
  | JList l => Return (length l)
  | JDict d => Return (length d)
  | _ => raise TypeError
  end.

(** [v[key]] for a string key *)
Definition py_getitem (v : JSON) (key : str) : outcome JSON :=
  match v with
  | JDict d =>
      match dict_get d key with
      | Some w => Return w
      | None => raise KeyError
      end
  | _ => raise TypeError
  end.

(** [v[0]] *)
Definition py_getitem0 (v : JSON) : outcome JSON :=
  match v with
  | JList (x :: _) => Return x
  | JList [] => raise IndexError
  | JStr (c :: _) => Return (JStr [c])
  | JStr [] => raise IndexError
  | JDict _ => raise KeyError
  | _ => raise TypeError
  end.

(** [v.get(key, default)] *)
Definition py_get (v : JSON) (key : str) (default : JSON) : outcome JSON :=
  match v with
  | JDict d =>
      match dict_get d key with
      | Some w => Return w
      | None => Return default
      end
  | _ => raise AttributeError
  end.

(** [acc += v] for a string [acc] *)
Definition py_iadd (acc : str) (v : JSON) : outcome str :=
  match v with
  | JStr s => Return (acc ++ s)
  | _ => raise TypeError
  end.

(** [all(key in v for key in keys)] *)
Fixpoint all_in (keys : list str) (v : JSON) : outcome bool :=
  match keys with
  | [] => Return true
  | k :: r =>
      present <- py_contains k v ;;
      if present then all_in r v else Return false
  end.

(** What the model leaves to the interpreter: whether the float read
    from a literal is non-zero, how [json.dumps] prints it, and [repr]
    of a value that is not a string, [None], a bool or an int. *)
Record runtime : Type := Runtime {
  float_nonzero : str -> bool;
  float_dumps : str -> str;
  py_repr : JSON -> str
}.

(** ** json.dumps *)

Definition hex_char (d : N) : char :=
  if (d <? 10)%N then (48 + d)%N else (87 + d)%N.

(** [\uXXXX] with lower-case digits *)
Definition u_escape (x : N) : str :=
  [BACKSLASH; 117%N; hex_char (x / 4096); hex_char ((x / 256) mod 16);
   hex_char ((x / 16) mod 16); hex_char (x mod 16)]%N.

Definition escape_char (ensure_ascii : bool) (c : char) : str :=
  if (c =? 34)%N then [BACKSLASH; 34%N]
  else if (c =? 92)%N then [BACKSLASH; 92%N]
  else if (c =? 10)%N then [BACKSLASH; 110%N]
  else if (c =? 13)%N then [BACKSLASH; 114%N]
  else if (c =? 9)%N then [BACKSLASH; 116%N]
  else if (c =? 8)%N then [BACKSLASH; 98%N]
  else if (c =? 12)%N then [BACKSLASH; 102%N]
  else if (c <? 32)%N then u_escape c
  else if negb ensure_ascii then [c]
  else if (c <=? 126)%N then [c]
  else if (c <? 65536)%N then u_escape c
  else u_escape (55296 + (c - 65536) / 1024)
       ++ u_escape (56320 + (c - 65536) mod 1024).

Definition encode_string (ensure_ascii : bool) (s : str) : str :=
  DQUOTE :: flat_map (escape_char ensure_ascii) s ++ [DQUOTE].

Definition ITEM_SEP : str := [COMMA; SPACE].
Definition KEY_SEP : str := [COLON; SPACE].

Section Join.

Variable A : Type.
Variable f : A -> str.

(** [', '.join(f(x) for x in l)] *)
Fixpoint join_map (l : list A) : str :=
  match l with
  | [] => []
  | x :: r =>
      f x ++ match r with
             | [] => []
             | _ :: _ => ITEM_SEP ++ join_map r
             end
  end.

End Join.

Section Dumps.

Variable rt : runtime.
Variable ensure_ascii : bool.

(** [json.dumps(v, ensure_ascii=...)] with the default separators. *)
Fixpoint json_dumps (v : JSON) : str :=
  match v with
  | JNull => NULL
  | JBool true => TRUE
  | JBool false => FALSE
  | JInt n => str_of_int n
  | JFloat l => float_dumps rt l
  | JStr s => encode_string ensure_ascii s
  | JList l => LBRACKET :: join_map json_dumps l ++ [RBRACKET]
  | JDict d =>
      LBRACE ::
      join_map (fun kv => encode_string ensure_ascii (fst kv) ++ KEY_SEP
                          ++ json_dumps (snd kv)) d
      ++ [RBRACE]
  end.

End Dumps.

Definition STR_NONE : str := Eval cbv in lit "None".
Definition STR_TRUE : str := Eval cbv in lit "True".
Definition STR_FALSE : str := Eval cbv in lit "False".

Section Values.

Variable rt : runtime.

(** [bool(v)] *)
Definition py_truthy (v : JSON) : bool :=
  match v with
  | JNull => false
  | JBool b => b
  | JInt n => negb (n =? 0)%Z
  | JFloat l => float_nonzero rt l
  | JStr s => negb (length s =? 0)
  | JList l => negb (length l =? 0)
  | JDict d => negb (length d =? 0)
  end.

(** [str(v)] *)
Definition py_str (v : JSON) : str :=
  match v with
  | JStr s => s
  | JNull => STR_NONE
  | JBool true => STR_TRUE
  | JBool false => STR_FALSE
  | JInt n => str_of_int n
  | _ => py_repr rt v
  end.

End Values.

(** ** Response extractor: [extract_json_from_response] *)

Definition FENCE_JSON : str := Eval cbv in lit "```json".
Definition FENCE : str := Eval cbv in lit "```".
Definition NEWLINE : char := 10%N.
Definition TAB : char := 9%N.
Definition ESC_NEWLINE : str := Eval cbv in lit "\n".
Definition ESC_TAB : str := Eval cbv in lit "\t".

(** Remove markdown code blocks if present. *)
Definition strip_fences (text : str) : str :=
  if startswith FENCE_JSON text
  then replace FENCE [] (replace FENCE_JSON [] text)
  else if startswith FENCE text
  then replace FENCE [] text
  else text.

(** [try: return json.loads(s)] with [except json.JSONDecodeError:]
    continuing as [otherwise]. *)
Definition try_loads (s : str) (otherwise : outcome JSON) : outcome JSON :=
  match json_loads s with
  | Return v => Return v
  | Raise e => if is_JSONDecodeError e then otherwise else Raise e
  end.

(** Try to fix common JSON issues. *)
Definition repair (json_str : str) : str :=
  replace [TAB] ESC_TAB (replace [NEWLINE] ESC_NEWLINE json_str).

Definition extract_json_from_response (text : str) : outcome JSON :=
  let text := strip_fences (strip text) in
  (* Try direct parsing, and None when that fails too *)
  let direct := try_loads text (Return JNull) in
  match search_braces text with
  | Some m =>
      let json_str := strip m in
      try_loads json_str (try_loads (repair json_str) direct)
  | None => direct
  end.

(** ** Generators and network calls

    A computation that yields chunks and calls the provider is the trace
    of what it did together with how it ended. *)

Inductive action : Type :=
| Yield (chunk : str)
| Post (stream : bool).   (* requests.post(url, ..., stream=...) *)

Definition gen (A : Type) : Type := (list action * outcome A)%type.

Definition gret {A : Type} (a : A) : gen A := ([], Return a).

Definition gbind {A B : Type} (m : gen A) (k : A -> gen B) : gen B :=
  match m with
  | (t, Return a) => let (t', r) := k a in (t ++ t', r)
  | (t, Raise e) => (t, Raise e)
  end.

Notation "x <~ m ;; k" := (gbind m (fun x => k))
  (at level 61, m at next level, right associativity) : py_scope.

Definition yield (chunk : str) : gen unit := ([Yield chunk], Return tt).
Definition post (stream : bool) : gen unit := ([Post stream], Return tt).
Definition lift {A : Type} (o : outcome A) : gen A := ([], o).

(** [try: m] with [except: h] (any exception). *)
Definition except {A : Type} (m : gen A) (h : exn -> gen A) : gen A :=
  match m with
  | (t, Raise e) => let (t', r) := h e in (t ++ t', r)
  | (t, Return a) => (t, Return a)
  end.

(** What the provider does when it is called: [requests.post] raises,
    or there is a response with a status code and a body. *)
Inductive reply (B : Type) : Type :=
| Fails (e : exn)
| Responds (status : N) (body : B).
Arguments Fails {B}.

(** The body of a streamed response as [iter_lines] hands it over: the
    lines, after which the iteration ends or raises. *)
Record stream_body : Type := StreamBody {
  sent_lines : list bytes;
  broken_by : option exn
}.

(** The provider during one request: the text of the buffered response,
    and the streamed one. *)
Record provider : Type := Provider {
  complete_reply : reply str;
  stream_reply : reply stream_body
}.

(** [response.raise_for_status()] *)
Definition raise_for_status (status : N) : outcome unit :=
  if ((400 <=? status) && (status <? 600))%N then raise HTTPError
  else Return tt.

(** [response.json()] *)
Definition response_json (body : str) : outcome JSON :=
  match json_loads body with
  | Return v => Return v
  | Raise _ => raise RequestsJSONDecodeError
  end.

(** ** Completion client *)

Definition query_groq_complete (p : provider) : gen JSON :=
  _ <~ post false ;;
  lift (match complete_reply p with
        | Fails e => Raise e
        | Responds status body =>
            _ <- raise_for_status status ;;
            response_json body
        end).

Definition DATA_PREFIX : str := Eval cbv in lit "data: ".
Definition DATA_DONE : str := Eval cbv in lit "data: [DONE]".
Definition K_CHOICES : str := Eval cbv in lit "choices".
Definition K_DELTA : str := Eval cbv in lit "delta".
Definition K_CONTENT : str := Eval cbv in lit "content".
Definition K_MESSAGE : str := Eval cbv in lit "message".

(** The body of the [try] in the loop of [query_groq_stream]: the new
    value of [full_content]. *)
Definition add_delta (full_content : str) (payload : str) : outcome str :=
  data <- json_loads payload ;;
  has_choices <- py_contains K_CHOICES data ;;
  if has_choices then
    choices <- py_getitem data K_CHOICES ;;
    n <- py_len choices ;;
    if 0 <? n then
      choices <- py_getitem data K_CHOICES ;;
      first <- py_getitem0 choices ;;
      delta <- py_get first K_DELTA (JDict []) ;;
      has_content <- py_contains K_CONTENT delta ;;
      if has_content then
        content <- py_getitem delta K_CONTENT ;;
        py_iadd full_content content
      else Return full_content
    else Return full_content
  else Return full_content.

(** The loop over [response.iter_lines()]. *)
Fixpoint collect (ls : list bytes) (broken : option exn) (full_content : str)
  : outcome str :=
  match ls with
  | [] =>
      match broken with
      | Some e => Raise e
      | None => Return full_content
      end
  | line :: rest =>
      match line with
      | [] => collect rest broken full_content
      | _ :: _ =>
          match decode_utf8 line with
          | None => raise UnicodeDecodeError
          | Some line =>
              if startswith DATA_PREFIX line then
                if str_eqb (strip line) DATA_DONE then Return full_content
                else
                  match add_delta full_content (skipn 6 line) with
                  | Return full_content' => collect rest broken full_content'
                  | Raise e =>
                      if is_JSONDecodeError e
                      then collect rest broken full_content
                      else Raise e
                  end
              else collect rest broken full_content
          end
      end
  end.

Definition query_groq_stream (p : provider) : gen str :=
  _ <~ post true ;;
  lift (match stream_reply p with
        | Fails e => Raise e
        | Responds status body =>
            _ <- raise_for_status status ;;
            collect (sent_lines body) (broken_by body) []
        end).

(** ** Generation orchestrator: [event_stream] *)

Definition K_REPOSITORY_NAME : str := Eval cbv in lit "repository_name".
Definition K_DESCRIPTION : str := Eval cbv in lit "description".
Definition K_README_CONTENT : str := Eval cbv in lit "readme_content".
Definition K_RAW_RESPONSE : str := Eval cbv in lit "raw_response".
Definition K_NOTE : str := Eval cbv in lit "note".

Definition REQUIRED_KEYS : list str :=
  [K_REPOSITORY_NAME; K_DESCRIPTION; K_README_CONTENT].

Definition ROBOT : char := 129302%N.     (* U+1F916 *)
Definition MEMO : char := 128221%N.      (* U+1F4DD *)
Definition ROCKET : char := 128640%N.    (* U+1F680 *)

Definition STATUS_HEAD : str :=
  Eval cbv in qlit "data: {'status': 'generating', 'message': '".

Definition STATUS_GENERATING : str :=
  Eval cbv in
    STATUS_HEAD ++ ROBOT :: qlit " Generating repository...'}"
    ++ [NEWLINE; NEWLINE].

Definition STATUS_PROCESSING : str :=
  Eval cbv in
    STATUS_HEAD ++ MEMO :: qlit " Processing response...'}"
    ++ [NEWLINE; NEWLINE].

Definition DONE_HEAD : str :=
  Eval cbv in lit "event: done" ++ NEWLINE :: lit "data: ".

Definition ERROR_HEAD : str :=
  Eval cbv in lit "event: error" ++ NEWLINE :: lit "data: ".

Definition done_event (data : str) : str :=
  DONE_HEAD ++ data ++ [NEWLINE; NEWLINE].

Definition error_event (error code : str) : str :=
  ERROR_HEAD ++ qlit "{'error': '" ++ error ++ qlit "', 'code': '" ++ code
  ++ qlit "'}" ++ [NEWLINE; NEWLINE].

Definition ERROR_TIMEOUT : str :=
  Eval cbv in
    error_event (lit "Request timeout - please try again") (lit "TIMEOUT").

Definition ERROR_API : str :=
  Eval cbv in
    error_event (lit "AI service temporarily unavailable") (lit "API_ERROR").

Definition ERROR_INTERNAL : str :=
  Eval cbv in error_event (lit "Internal server error") (lit "INTERNAL_ERROR").

Definition FALLBACK_NAME : str := Eval cbv in lit "ai-generated-project".
Definition FALLBACK_DESCRIPTION : str :=
  Eval cbv in lit "AI-generated project based on user requirements".
Definition FALLBACK_NOTE : str :=
  Eval cbv in lit "Fallback response due to JSON parsing issues".

Definition README_HEAD : str :=
  Eval cbv in
    lit "# AI Generated Project " ++ ROCKET ::
    lit "\n\nThis project was generated based on: ".

Definition README_TAIL : str :=
  Eval cbv in
    lit "\n\n## Features\n\n- AI-powered functionality\n- Modern tech stack\n- Easy to customize\n\n## Getting Started\n\n```bash\ngit clone <repo-url>\ncd project\nnpm install\nnpm start\n```\n\n## License\n\nMIT License".

(** Create a fallback response. *)
Definition fallback_response (user_prompt full_response : str) : JSON :=
  JDict
    [(K_REPOSITORY_NAME, JStr FALLBACK_NAME);
     (K_DESCRIPTION, JStr FALLBACK_DESCRIPTION);
     (K_README_CONTENT, JStr (README_HEAD ++ user_prompt ++ README_TAIL));
     (K_RAW_RESPONSE, JStr (firstn 500 full_response));
     (K_NOTE, JStr FALLBACK_NOTE)].

(** The receiver of [.strip()] in the extractor has to be a [str]. *)
Definition as_text (v : JSON) : outcome str :=
  match v with
  | JStr s => Return s
  | _ => raise AttributeError
  end.

Section Orchestrator.

Variable rt : runtime.

(** Validate and clean the data. *)
Definition clean_data (parsed_json : JSON) : outcome JSON :=
  name <- py_get parsed_json K_REPOSITORY_NAME (JStr []) ;;
  description <- py_get parsed_json K_DESCRIPTION (JStr []) ;;
  readme <- py_get parsed_json K_README_CONTENT (JStr []) ;;
  Return
    (JDict
       [(K_REPOSITORY_NAME, JStr (firstn 50 (strip (py_str rt name))));
        (K_DESCRIPTION, JStr (firstn 200 (strip (py_str rt description))));
        (K_README_CONTENT, JStr (strip (py_str rt readme)))]).

(** [parsed_json and all(key in parsed_json for key in [...])] *)
Definition has_required_keys (parsed_json : JSON) : outcome bool :=
  if py_truthy rt parsed_json then all_in REQUIRED_KEYS parsed_json
  else Return false.

(** The inner [try]: the buffered call and the path into its envelope. *)
Definition buffered_attempt (p : provider) : gen JSON :=
  response <~ query_groq_complete p ;;
  lift (choices <- py_getitem response K_CHOICES ;;
        first <- py_getitem0 choices ;;
        message <- py_getitem first K_MESSAGE ;;
        py_getitem message K_CONTENT).

(** Its bare [except]: fall back to streaming. *)
Definition streaming_fallback (p : provider) : gen JSON :=
  _ <~ yield STATUS_PROCESSING ;;
  full_response <~ query_groq_stream p ;;
  gret (JStr full_response).

Definition complete_or_stream (p : provider) : gen JSON :=
  except (buffered_attempt p) (fun _ => streaming_fallback p).

(** Everything after the completion call: extract, validate, answer. *)
Definition respond (user_prompt : str) (full_response : JSON) : gen unit :=
  _ <~ lift (py_len full_response) ;;          (* response_length=... *)
  text <~ lift (as_text full_response) ;;
  parsed_json <~ lift (extract_json_from_response text) ;;
  valid <~ lift (has_required_keys parsed_json) ;;
  if valid then
    _ <~ lift (py_get parsed_json K_REPOSITORY_NAME JNull) ;;  (* repo_name=... *)
    clean <~ lift (clean_data parsed_json) ;;
    yield (done_event (json_dumps rt false clean))
  else
    yield (done_event (json_dumps rt true (fallback_response user_prompt text))).

(** The three [except] clauses of the outer [try], in order. *)
Definition on_exception (e : exn) : gen unit :=
  if is_Timeout e then yield ERROR_TIMEOUT
  else if is_RequestException e then yield ERROR_API
  else yield ERROR_INTERNAL.

(** The body of the outer [try]. *)
Definition event_stream_body (p : provider) (user_prompt : str) : gen unit :=
  _ <~ yield STATUS_GENERATING ;;
  full_response <~ complete_or_stream p ;;
  respond user_prompt full_response.

Definition event_stream_run (p : provider) (user_prompt : str) : gen unit :=
  except (event_stream_body p user_prompt) on_exception.

(** The end of the generator once [full_response] is known: the body
    after the completion call, under the outer handlers. *)
Definition answer (user_prompt : str) (full_response : JSON) : list action :=
  fst (except (respond user_prompt full_response) on_exception).

(** What the generator does when it is run to its end. *)
Definition event_stream (p : provider) (user_prompt : str) : list action :=
  fst (event_stream_run p user_prompt).

(** ** Request validation and the endpoint *)

(** [RepoRequest]: [Field(..., min_length=5, max_length=500)]. *)
Definition RepoRequest (prompt : str) : bool :=
  (5 <=? length prompt) && (length prompt <=? 500).

Inductive http_response : Type :=
| ValidationError            (* 422, before the handler is called *)
| StreamingResponse (trace : list action).

Definition generate_repo (p : provider) (prompt : str) : http_response :=
  if RepoRequest prompt
  then StreamingResponse (event_stream p (strip prompt))
  else ValidationError.

End Orchestrator.

(** The error event that the handlers choose for an exception. *)
Definition error_for (e : exn) : str :=
  if is_Timeout e then ERROR_TIMEOUT
  else if is_RequestException e then ERROR_API
  else ERROR_INTERNAL.

(** The events of a trace, in order. *)
Fixpoint yielded (t : list action) : list str :=
  match t with
  | [] => []
  | Yield chunk :: r => chunk :: yielded r
  | Post _ :: r => yielded r
  end.

Definition is_status (chunk : str) : bool := startswith STATUS_HEAD chunk.
Definition is_done (chunk : str) : bool := startswith DONE_HEAD chunk.
Definition is_error (chunk : str) : bool := startswith ERROR_HEAD chunk.
Definition is_terminal (chunk : str) : bool := is_done chunk || is_error chunk.

(** ** The check in the frontend before a request is sent
    (src/frontend/frontend.py, [main]) *)

Definition frontend_accepts (prompt : str) : bool :=
  negb (length (strip prompt) =? 0)
  && negb (length (strip prompt) <? 5)
  && negb (500 <? length (strip prompt)).

(** ** The strategies of the extractor, one after the other

    The texts that the extractor hands to the parser, in the order in
    which it tries them, and the first one that parses. *)



(** ** Vocabulary for serialization and parsing *)

(** What may follow a number without being read as a part of it. *)
Definition ends_number (rest : str) : Prop :=
  match rest with
  | [] => True
  | c :: _ => is_digit c = false /\ c <> 46%N /\ c <> 101%N /\ c <> 69%N
  end.

(** What follows a value inside a serialization, or its end. *)
Definition follows (rest : str) : Prop :=
  match rest with
  | [] => True
  | c :: _ => c = COMMA \/ c = RBRACKET \/ c = RBRACE
  end.

(** A high surrogate before a low one: the two escapes that
    [json.dumps] writes for them are read back as one character. *)
Definition pairs_up (c d : char) : bool :=
  is_high_surrogate c && is_low_surrogate d.

Fixpoint ascii_safe (s : str) : bool :=
  match s with
  | [] => true
  | c :: r =>
      (c <? 1114112)%N
      && negb (match r with
               | d :: _ => pairs_up c d
               | [] => false
               end)
      && ascii_safe r
  end.

(** The strings that are read back from their encoding. *)
Definition text_ok (ensure_ascii : bool) (s : str) : bool :=
  negb ensure_ascii || ascii_safe s.

Fixpoint keys_unique (ks : list str) : bool :=
  match ks with
  | [] => true
  | k :: r => negb (existsb (str_eqb k) r) && keys_unique r
  end.

(** The values that [json.dumps] and [json.loads] take to each other in
    the model: no float, dicts with distinct keys and, with
    [ensure_ascii], strings of code points in which no high surrogate
    stands before a low one. *)
Fixpoint canonical (ensure_ascii : bool) (v : JSON) : bool :=
  match v with
  | JNull | JBool _ | JInt _ => true
  | JFloat _ => false
  | JStr s => text_ok ensure_ascii s
  | JList l => forallb (canonical ensure_ascii) l
  | JDict d =>
      keys_unique (map fst d)
      && forallb (fun kv => text_ok ensure_ascii (fst kv)
                            && canonical ensure_ascii (snd kv)) d
  end.

(** Dicts with distinct keys, at every level. *)
Fixpoint well_keyed (v : JSON) : bool :=
  match v with
  | JList l => forallb well_keyed l
  | JDict d => keys_unique (map fst d)
               && forallb (fun kv => well_keyed (snd kv)) d
  | _ => true
  end.

Fixpoint float_free (v : JSON) : bool :=
  match v with
  | JFloat _ => false
  | JList l => forallb float_free l
  | JDict d => forallb (fun kv => float_free (snd kv)) d
  | _ => true
  end.

(** What may follow the escape of a lone high surrogate: not the escape
    of a low surrogate. *)
Definition safe_after_high (tail : str) : Prop :=
  forall g1 g2 g3 g4 r3,
    tail = BACKSLASH :: 117%N :: g1 :: g2 :: g3 :: g4 :: r3 ->
    exists uni2, hex4 g1 g2 g3 g4 = Some uni2
                 /\ is_low_surrogate uni2 = false.

Definition BACKTICK : char := 96%N.


Section ReadBack.

Variable rt : runtime.
Variable ea : bool.

(** The serialization of [v] is scanned back to [v], whatever follows. *)
Definition reads_back (v : JSON) : Prop :=
  forall rest, follows rest ->
  exists n, forall fuel, n <= fuel ->
    scan_once fuel (json_dumps rt ea v ++ rest) = Scanned v rest.

(** One member of a serialized dict. *)
Definition member (kv : str * JSON) : str :=
  encode_string ea (fst kv) ++ KEY_SEP ++ json_dumps rt ea (snd kv).

End ReadBack.

(** ** Vocabulary for the streamed lines *)

(** A line that carries nothing: it is empty, or it is not a data line,
    or its payload is not JSON. *)
Definition quiet (line : bytes) : Prop :=
  line = []
  \/ exists text, decode_utf8 line = Some text
     /\ (startswith DATA_PREFIX text = false
         \/ (str_eqb (strip text) DATA_DONE = false
             /\ exists e, json_loads (skipn 6 text) = Raise e)).

(** The terminator line. *)
Definition terminator (line : bytes) : Prop :=
  exists text, decode_utf8 line = Some text
    /\ startswith DATA_PREFIX text = true
    /\ str_eqb (strip text) DATA_DONE = true.

(** A line that carries the content delta [c]. *)
Definition carries (line : bytes) (c : str) : Prop :=
  exists text d choices f g,
    decode_utf8 line = Some text
    /\ startswith DATA_PREFIX text = true
    /\ str_eqb (strip text) DATA_DONE = false
    /\ json_loads (skipn 6 text) = Return (JDict d)
    /\ dict_get d K_CHOICES = Some (JList (JDict f :: choices))
    /\ dict_get f K_DELTA = Some (JDict g)
    /\ dict_get g K_CONTENT = Some (JStr c).



(** ** Sample behaviours of the provider and of the interpreter *)

(** The buffered response whose content is [text]. *)
Definition completion_of (rt : runtime) (text : str) : reply str :=
  Responds 200
    (json_dumps rt true
       (JDict [(K_CHOICES,
                JList [JDict [(K_MESSAGE, JDict [(K_CONTENT, JStr text)])]])])).

(** A runtime for inputs on which the three functions are not called. *)
Definition plain_runtime : runtime :=
  Runtime (fun _ => true) (fun l => l) (fun _ => []).

Definition read_timeout : exn := Exn ReadTimeout (lit "Read timed out.").
Definition connection_error : exn :=
  Exn ConnectionError (lit "Connection refused").

(** The provider does not answer in time, in either mode. *)
Definition provider_unreachable : provider :=
  Provider (Fails read_timeout) (Fails read_timeout).

(** The streamed response of "Hello" in two fragments and a terminator. *)
Definition hello_stream : stream_body :=
  StreamBody
    [bqlit "data: {'choices':[{'delta':{'content':'Hel'}}]}";
     [];
     bqlit "data: {'choices':[{'delta':{'content':'lo'}}]}";
     bqlit "data: [DONE]"]
    None.

(** The response of scenario C: an object between fences. *)
Definition fenced_foo : str :=
  FENCE_JSON ++ NEWLINE ::
  qlit "{'repository_name':'foo','description':'d','readme_content':'# R'}"
  ++ NEWLINE :: FENCE.

(** ** More vocabulary: the calls of a run, lines before the terminator *)

(** The calls to the provider in a trace, in order: [false] for the
    buffered call, [true] for the streaming one. *)
Fixpoint posts (t : list action) : list bool :=
  match t with
  | [] => []
  | Post stream :: r => stream :: posts r
  | Yield _ :: r => posts r
  end.

(** A data line whose payload is an object without content: it has no
    [choices], or an empty list of them, or its first choice has no
    [delta] or a [delta] without [content]. *)
Definition contentless (line : bytes) : Prop :=
  exists text d,
    decode_utf8 line = Some text
    /\ startswith DATA_PREFIX text = true
    /\ str_eqb (strip text) DATA_DONE = false
    /\ json_loads (skipn 6 text) = Return (JDict d)
    /\ (dict_get d K_CHOICES = None
        \/ dict_get d K_CHOICES = Some (JList [])
        \/ exists f choices,
             dict_get d K_CHOICES = Some (JList (JDict f :: choices))
             /\ (dict_get f K_DELTA = None
                 \/ exists g, dict_get f K_DELTA = Some (JDict g)
                              /\ dict_get g K_CONTENT = None)).

(** Lines without a terminator among them, and the concatenation of the
    deltas that they carry. *)
Inductive carried : list bytes -> str -> Prop :=
| carried_nil : carried [] []
| carried_quiet line rest s :
    quiet line -> carried rest s -> carried (line :: rest) s
| carried_contentless line rest s :
    contentless line -> carried rest s -> carried (line :: rest) s
| carried_delta line c rest s :
    carries line c -> carried rest s -> carried (line :: rest) (c ++ s).

(** ** Configuration at start-up (module level of main.py) *)

(** [os.getenv] after [load_dotenv()]. *)
Definition environ : Type := str -> option str.

Record settings : Type := Settings {
  GROQ_API_KEY : option str;
  API_KEY : option str;
  ENVIRONMENT : str;
  ALLOWED_ORIGINS : list str
}.

(** [not x] for a value of [os.getenv]. *)
Definition unset (x : option str) : bool :=
  match x with
  | None => true
  | Some [] => true
  | Some (_ :: _) => false
  end.

(** [s.split(sep)] for a separator of one character. *)
Fixpoint split_on (sep : char) (s : str) : list str :=
  match s with
  | [] => [[]]
  | c :: r =>
      if char_eqb c sep then [] :: split_on sep r
      else match split_on sep r with
           | piece :: pieces => (c :: piece) :: pieces
           | [] => [[c]]
           end
  end.

Definition N_GROQ_API_KEY : str := Eval cbv in lit "GROQ_API_KEY".
Definition N_API_KEY : str := Eval cbv in lit "API_KEY".
Definition N_ENVIRONMENT : str := Eval cbv in lit "ENVIRONMENT".
Definition N_ALLOWED_ORIGINS : str := Eval cbv in lit "ALLOWED_ORIGINS".
Definition DEVELOPMENT : str := Eval cbv in lit "development".
Definition PRODUCTION : str := Eval cbv in lit "production".
Definition DEFAULT_ORIGIN : str := Eval cbv in lit "http://localhost:3000".

Definition getenv_default (getenv : environ) (name default : str) : str :=
  match getenv name with
  | Some v => v
  | None => default
  end.

(** The module either raises [ValueError] while it is imported, with the
    message given, or the application starts with these settings. *)
Inductive startup : Type :=
| Refused (message : str)
| Started (cfg : settings).

Definition load_settings (getenv : environ) : startup :=
  let groq_api_key := getenv N_GROQ_API_KEY in
  let api_key := getenv N_API_KEY in
  let environment := getenv_default getenv N_ENVIRONMENT DEVELOPMENT in
  let allowed_origins :=
    split_on COMMA (getenv_default getenv N_ALLOWED_ORIGINS DEFAULT_ORIGIN) in
  if unset groq_api_key
  then Refused (lit "GROQ_API_KEY environment variable is required")
  else if unset api_key && str_eqb environment PRODUCTION
  then Refused (lit "API_KEY environment variable is required for production")
  else Started (Settings groq_api_key api_key environment allowed_origins).

(** ** API key middleware: [validate_api_key] *)

Record request : Type := Request {
  req_method : str;
  req_path : str;
  req_api_key : option str     (* request.headers.get("X-API-Key") *)
}.

Definition ROOT_PATH : str := Eval cbv in lit "/".
Definition OPTIONS : str := Eval cbv in lit "OPTIONS".

(** What the middleware answers: the 401 response, or what [call_next]
    returns. *)
Inductive answered (A : Type) : Type :=
| Unauthorized
| Passed (response : A).
Arguments Unauthorized {A}.

Definition validate_api_key {A : Type} (cfg : settings) (req : request)
  (call_next : request -> A) : answered A :=
  (* Skip auth for root endpoint, OPTIONS requests, and in development *)
  if str_eqb (req_path req) ROOT_PATH
     || str_eqb (req_method req) OPTIONS
     || str_eqb (ENVIRONMENT cfg) DEVELOPMENT
  then Passed (call_next req)
  else
    (* Check API key for all other endpoints *)
    let api_key := req_api_key req in
    if unset api_key
       || negb (match api_key, API_KEY cfg with
                | Some k, Some expected => str_eqb k expected
                | None, None => true
                | _, _ => false
                end)
    then Unauthorized
    else Passed (call_next req).

(** ** Health check: [health_check] *)

Definition HEALTHY : str := Eval cbv in lit "healthy".
Definition UNHEALTHY_HEAD : str := Eval cbv in lit "unhealthy (".
Definition K_STATUS : str := Eval cbv in lit "status".
Definition K_ENVIRONMENT : str := Eval cbv in lit "environment".
Definition K_GROQ_API : str := Eval cbv in lit "groq_api".
Definition K_GROQ_KEY_SET : str := Eval cbv in lit "groq_key_set".
Definition RPAREN : char := 41%N.

(** The status of the provider after the probe: [requests.post] raised,
    or answered with a status code. *)
Definition groq_status (probe : reply unit) : str :=
  match probe with
  | Responds status _ =>
      if (status =? 200)%N then HEALTHY
      else UNHEALTHY_HEAD ++ str_of_int (Z.of_N status) ++ [RPAREN]
  | Fails e => UNHEALTHY_HEAD ++ firstn 50 (exn_text e) ++ [RPAREN]
  end.

Definition health_check (cfg : settings) (probe : reply unit) : JSON :=
  JDict
    [(K_STATUS, JStr HEALTHY);
     (K_ENVIRONMENT, JStr (ENVIRONMENT cfg));
     (K_GROQ_API, JStr (groq_status probe));
     (K_GROQ_KEY_SET, JBool (negb (unset (GROQ_API_KEY cfg))))].

(** ** More vocabulary: where the text comes from, characters, requests *)

(** The text that the orchestrator works on is the content of the
    buffered response or, after a failure of the buffered attempt, what
    the streaming client returns. *)
Definition obtains (p : provider) (text : str) : Prop :=
  snd (buffered_attempt p) = Return (JStr text)
  \/ (exists e, snd (buffered_attempt p) = Raise e)
     /\ snd (query_groq_stream p) = Return text.

(** Printable ASCII. *)
Definition printable (c : char) : Prop := (32 <= c <= 126)%N.

(** The fallback artifact and the cleaned one are objects whose values
    are strings. *)
Definition fallback_fields (user_prompt text : str) : list (str * str) :=
  [(K_REPOSITORY_NAME, FALLBACK_NAME);
   (K_DESCRIPTION, FALLBACK_DESCRIPTION);
   (K_README_CONTENT, README_HEAD ++ user_prompt ++ README_TAIL);
   (K_RAW_RESPONSE, firstn 500 text);
   (K_NOTE, FALLBACK_NOTE)].

(** A request that the middleware does not exempt. *)
Definition protected (req : request) : Prop :=
  req_path req <> ROOT_PATH /\ req_method req <> OPTIONS.

(** [sep.join(pieces)] *)
Fixpoint join_with (sep : char) (pieces : list str) : str :=
  match pieces with
  | [] => []
  | [piece] => piece
  | piece :: rest => piece ++ sep :: join_with sep rest
  end.

(** ** More sample inputs *)

(** The buffered response whose content is the value [content]. *)
Definition completion_with (rt : runtime) (content : JSON) : reply str :=
  Responds 200
    (json_dumps rt true
       (JDict [(K_CHOICES,
                JList [JDict [(K_MESSAGE, JDict [(K_CONTENT, content)])]])])).

Definition delta_hel : bytes :=
  bqlit "data: {'choices':[{'delta':{'content':'Hel'}}]}".
Definition delta_lo : bytes :=
  bqlit "data: {'choices':[{'delta':{'content':'lo'}}]}".

(** The first chunk of a stream names the role and has no content. *)
Definition delta_role : bytes :=
  bqlit "data: {'choices':[{'delta':{'role':'assistant'}}]}".

(** "Hello" in two fragments, after the chunk with the role, with an
    empty line between them and without a terminator. *)
Definition hello_lines : list bytes := [delta_role; delta_hel; []; delta_lo].

(** A variable is set in a production deployment, or not. *)
Definition production_environ : environ :=
  fun name =>
    if str_eqb name N_GROQ_API_KEY then Some (lit "gsk_sample")
    else if str_eqb name N_API_KEY then Some (lit "s3cret")
    else if str_eqb name N_ENVIRONMENT then Some PRODUCTION
    else None.

(** A deployment named [staging], without an API key. *)
Definition staging_environ : environ :=
  fun name =>
    if str_eqb name N_GROQ_API_KEY then Some (lit "gsk_sample")
    else if str_eqb name N_ENVIRONMENT then Some (lit "staging")
    else if str_eqb name N_ALLOWED_ORIGINS
    then Some (lit "https://a.example, https://b.example")
    else None.

Definition health_request (key : option str) : request :=
  Request (lit "GET") (lit "/health/") key.

(** ** UTF-8 encoding of [str]: [chunk.encode("utf-8")]

    The server sends each chunk of the generator encoded in UTF-8; a
    surrogate cannot be encoded. *)

Definition is_surrogate (c : char) : bool := ((55296 <=? c) && (c <=? 57343))%N.

Definition utf8_encode_char (c : char) : option (list N) :=
  if (c <? 128)%N then Some [c]
  else if (c <? 2048)%N then Some [192 + c / 64; 128 + c mod 64]%N
  else if (c <? 65536)%N then
    if is_surrogate c then None      (* UnicodeEncodeError *)
    else Some [224 + c / 4096; 128 + (c / 64) mod 64; 128 + c mod 64]%N
  else if (c <? 1114112)%N then
    Some [240 + c / 262144; 128 + (c / 4096) mod 64;
          128 + (c / 64) mod 64; 128 + c mod 64]%N
  else None.

Fixpoint utf8_encode_units (s : str) : option (list N) :=
  match s with
  | [] => Some []
  | c :: r =>
      match utf8_encode_char c, utf8_encode_units r with
      | Some u, Some us => Some (u ++ us)
      | _, _ => None
      end
  end.

Definition byte_of (n : N) : byte :=
  match Byte.of_N n with
  | Some b => b
  | None => x00
  end.

Definition encode_utf8 (s : str) : option bytes :=
  option_map (map byte_of) (utf8_encode_units s).

(** ** Lines of a body: [bytes.splitlines], as [iter_lines] of requests
    hands the lines of a response over *)

Definition is_lf (b : byte) : bool := (Byte.to_N b =? 10)%N.
Definition is_cr (b : byte) : bool := (Byte.to_N b =? 13)%N.

Fixpoint splitlines (bs : bytes) : list bytes :=
  match bs with
  | [] => []
  | b :: r =>
      if is_lf b then [] :: splitlines r
      else if is_cr b then
        [] :: match r with
              | b' :: r' => if is_lf b' then splitlines r' else splitlines r
              | [] => splitlines r
              end
      else
        match splitlines r with
        | line :: lines => (b :: line) :: lines
        | [] => [[b]]
        end
  end.

(** A line without a line break in it. *)
Definition unbroken (line : bytes) : bool :=
  forallb (fun b => negb (is_lf b || is_cr b)) line.

(** ** The frontend: [stream_response] (src/frontend/frontend.py) *)

(** What the frontend shows: [st.info(message)], and
    [st.error(f"{head}{str(e)}")] for an exception [e]. *)
Inductive ui : Type :=
| Info (message : str)
| Error (head : str) (e : exn).

Definition CROSS : char := 10060%N.      (* U+274C *)
Definition CONNECTION_ERROR_HEAD : str :=
  Eval cbv in CROSS :: lit " Connection error: ".
Definition UNEXPECTED_ERROR_HEAD : str :=
  Eval cbv in CROSS :: lit " Unexpected error: ".

(** The body of the inner [try] for the payload of one data line: what
    is shown, and [Some data] when the function returns [data]. *)
Definition on_payload (rt : runtime) (payload : str)
  : list ui * outcome (option JSON) :=
  match json_loads payload with
  | Raise e => ([], Raise e)
  | Return data =>
      match py_contains K_STATUS data with
      | Raise e => ([], Raise e)
      | Return true =>
          match py_getitem data K_MESSAGE with
          | Raise e => ([], Raise e)
          | Return message =>
              ([Info (ROBOT :: SPACE :: py_str rt message)], Return None)
          end
      | Return false =>
          match py_contains K_REPOSITORY_NAME data with
          | Raise e => ([], Raise e)
          | Return true => ([], Return (Some data))
          | Return false => ([], Return None)
          end
      end
  end.

(** The loop over [response.iter_lines()]. *)
Fixpoint read_events (rt : runtime) (lines : list bytes) (broken : option exn)
  : list ui * outcome (option JSON) :=
  match lines with
  | [] =>
      match broken with
      | Some e => ([], Raise e)
      | None => ([], Return None)
      end
  | line :: rest =>
      match line with
      | [] => read_events rt rest broken
      | _ :: _ =>
          match decode_utf8 line with
          | None => ([], raise UnicodeDecodeError)
          | Some line_str =>
              if startswith DATA_PREFIX line_str then
                match on_payload rt (skipn 6 line_str) with
                | (shown, Return (Some data)) => (shown, Return (Some data))
                | (shown, Return None) =>
                    let (more, r) := read_events rt rest broken in
                    (shown ++ more, r)
                | (shown, Raise e) =>
                    if is_JSONDecodeError e then
                      let (more, r) := read_events rt rest broken in
                      (shown ++ more, r)
                    else (shown, Raise e)
                end
              else read_events rt rest broken
          end
      end
  end.

(** [stream_response(prompt)], for what [requests.post] gives for the
    prompt: what is shown, and the result. *)
Definition stream_response (rt : runtime) (backend : str -> reply stream_body)
  (prompt : str) : list ui * option JSON :=
  let (shown, r) :=
    match backend prompt with
    | Fails e => ([], Raise e)
    | Responds status body =>
        match raise_for_status status with
        | Raise e => ([], Raise e)
        | Return _ => read_events rt (sent_lines body) (broken_by body)
        end
    end in
  match r with
  | Return result => (shown, result)
  | Raise e =>
      if is_RequestException e
      then (shown ++ [Error CONNECTION_ERROR_HEAD e], None)
      else (shown ++ [Error UNEXPECTED_ERROR_HEAD e], None)
  end.

(** ** The frontend in front of the backend *)

Definition POST : str := Eval cbv in lit "POST".
Definition GENERATE_PATH : str := Eval cbv in lit "/generate_repo/".

(** The request of the frontend: no [X-API-Key] header. *)
Definition frontend_request : request := Request POST GENERATE_PATH None.

(** The backend answers a request of the frontend that the rate limiter
    lets through. *)
Definition serve (cfg : settings) (rt : runtime) (p : provider) (prompt : str)
  : answered http_response :=
  validate_api_key cfg frontend_request (fun _ => generate_repo rt p prompt).

Definition status_code (a : answered http_response) : N :=
  match a with
  | Unauthorized => 401
  | Passed ValidationError => 422
  | Passed (StreamingResponse _) => 200
  end.

(** What [requests.post] gives the frontend for an answer of the
    backend: its status code and, for an event stream that can be encoded
    and arrives whole, the lines of its body. *)
Definition received (a : answered http_response) (w : reply stream_body)
  : Prop :=
  match a with
  | Passed (StreamingResponse trace) =>
      exists body,
        encode_utf8 (concat (yielded trace)) = Some body
        /\ w = Responds 200 (StreamBody (splitlines body) None)
  | _ => exists body, w = Responds (status_code a) body
  end.

Definition INFO_GENERATING : ui :=
  Info (ROBOT :: SPACE :: ROBOT :: lit " Generating repository...").
Definition INFO_PROCESSING : ui :=
  Info (ROBOT :: SPACE :: MEMO :: lit " Processing response...").

(** The data lines of the two status events. *)
Definition GENERATING_LINE : str :=
  Eval cbv in STATUS_HEAD ++ ROBOT :: qlit " Generating repository...'}".
Definition PROCESSING_LINE : str :=
  Eval cbv in STATUS_HEAD ++ MEMO :: qlit " Processing response...'}".
Definition DONE_LINE : str := Eval cbv in lit "event: done".

(** A data line on which the frontend shows [info] and goes on. *)
Definition status_line (line : str) (info : ui) : Prop :=
  Forall (fun c => (32 <= c)%N) line
  /\ startswith DATA_PREFIX line = true
  /\ forall rt, on_payload rt (skipn 6 line) = ([info], Return None).

Definition ERROR_LINE : str := Eval cbv in lit "event: error".

(** The payload of an error event. *)
Definition error_payload (error code : str) : str :=
  qlit "{'error': '" ++ error ++ qlit "', 'code': '" ++ code ++ qlit "'}".

(** The status events that a run has yielded, and what the frontend
    shows for them. *)
Definition relayed (statuses : list str) (infos : list ui) : Prop :=
  (statuses = [STATUS_GENERATING] /\ infos = [INFO_GENERATING])
  \/ (statuses = [STATUS_GENERATING; STATUS_PROCESSING]
      /\ infos = [INFO_GENERATING; INFO_PROCESSING]).

(** A backend whose answers arrive whole. *)
Definition relay (a : answered http_response) : reply stream_body :=
  match a with
  | Passed (StreamingResponse trace) =>
      match encode_utf8 (concat (yielded trace)) with
      | Some body => Responds 200 (StreamBody (splitlines body) None)
      | None => Fails (Exn ChunkedEncodingError [])
      end
  | _ => Responds (status_code a) (StreamBody [] None)
  end.

Definition development : settings :=
  Settings (Some (lit "gsk_sample")) None DEVELOPMENT [DEFAULT_ORIGIN].

(* ================================================================= *)
(** * Part II: properties *)
(* ================================================================= *)

(** ** Strings *)

Lemma char_eqb_eq (a b : char) : char_eqb a b = true <-> a = b.
Proof. unfold char_eqb. apply N.eqb_eq. Qed.

Lemma char_eqb_refl (a : char) : char_eqb a a = true.
Proof. apply char_eqb_eq. reflexivity. Qed.

Lemma str_eqb_eq (a b : str) : str_eqb a b = true <-> a = b.
Proof.
  revert b. induction a as [|x a IH]; intros [|y b]; simpl;
    try (split; [discriminate | discriminate]); try tauto.
  rewrite andb_true_iff, char_eqb_eq, IH.
  split; [intros [-> ->]; reflexivity | intros H; inversion H; auto].
Qed.

Lemma str_eqb_refl (a : str) : str_eqb a a = true.
Proof. apply str_eqb_eq. reflexivity. Qed.

Lemma startswith_app (p s : str) : startswith p (p ++ s) = true.
Proof.
  induction p as [|x p IH]; simpl; [reflexivity|].
  now rewrite char_eqb_refl, IH.
Qed.

Lemma startswith_iff (p s : str) :
  startswith p s = true <-> exists r, s = p ++ r.
Proof.
  revert s. induction p as [|x p IH]; intros s; simpl.
  - split; [intros _; now exists s | reflexivity].
  - destruct s as [|y s].
    + split; [discriminate | intros [r H]; discriminate].
    + rewrite andb_true_iff, char_eqb_eq, IH. split.
      * intros [-> [r ->]]. now exists r.
      * intros [r H]. inversion H. split; [reflexivity | now exists r].
Qed.

(** ** json.loads raises nothing but [JSONDecodeError] *)

Lemma json_loads_cases (s : str) :
  (exists v, json_loads s = Return v) \/ json_loads s = raise JSONDecodeError.
Proof.
  unfold json_loads.
  destruct (scan_once _ _) as [v rest| |]; auto.
  destruct (skip_ws rest); eauto.
Qed.

Lemma try_loads_Return (s : str) (o : outcome JSON) (v : JSON) :
  json_loads s = Return v -> try_loads s o = Return v.
Proof. unfold try_loads. now intros ->. Qed.





(** ** C2: the extractor never raises *)



(** ** C4: request validation *)

Lemma generate_repo_accepts_iff (rt : runtime) (p : provider) (prompt : str) :
  generate_repo rt p prompt <> ValidationError
  <-> 5 <= length prompt <= 500.
Proof.
  unfold generate_repo, RepoRequest.
  destruct (5 <=? length prompt) eqn:H5;
    destruct (length prompt <=? 500) eqn:H500; simpl;
    rewrite ?Nat.leb_le, ?Nat.leb_gt in *;
    (split; [intros H; try lia; now contradiction H | intros H; try lia; discriminate]).
Qed.

Lemma generate_repo_rejected (rt : runtime) (p : provider) (prompt : str) :
  ~ (5 <= length prompt <= 500) -> generate_repo rt p prompt = ValidationError.
Proof.
  intros H. destruct (generate_repo rt p prompt) eqn:E; [reflexivity|].
  exfalso. apply H. apply (generate_repo_accepts_iff rt p). congruence.
Qed.

(** C4. The length bounds are checked on the prompt as it was sent, and
    the prompt is trimmed afterwards: a prompt of five spaces is accepted
    and the orchestrator runs on the empty string, although the trimmed
    prompt has length 0 (the frontend refuses this prompt). *)
Theorem generate_repo_blank_prompt (rt : runtime) (p : provider) :
  generate_repo rt p (lit "     ") = StreamingResponse (event_stream rt p [])
  /\ length (strip (lit "     ")) = 0
  /\ frontend_accepts (lit "     ") = false.
Proof. repeat split. Qed.

(** In the other direction, 500 characters between two spaces are
    refused although the trimmed prompt has length 500. *)
Lemma generate_repo_padded_prompt (rt : runtime) (p : provider) :
  let prompt := SPACE :: repeat 97%N 500 ++ [SPACE] in
  generate_repo rt p prompt = ValidationError
  /\ length (strip prompt) = 500
  /\ frontend_accepts prompt = true.
Proof. vm_compute. repeat split. Qed.

(** ** The streaming client *)

Lemma decode_utf8_nonempty (line : bytes) (text : str) :
  decode_utf8 line = Some text -> line <> [] \/ text = [].
Proof.
  destruct line; [intros H; right; now inversion H | left; discriminate].
Qed.

Lemma startswith_data_nonempty (line : bytes) (text : str) :
  decode_utf8 line = Some text -> startswith DATA_PREFIX text = true ->
  exists b r, line = b :: r.
Proof.
  destruct line as [|b r]; [|eauto].
  intros H. inversion H. discriminate.
Qed.

Lemma collect_quiet (line : bytes) (rest : list bytes) (broken : option exn)
  (acc : str) :
  quiet line -> collect (line :: rest) broken acc = collect rest broken acc.
Proof.
  intros [->|[text [Hd H]]]; [reflexivity|].
  destruct line as [|b r]; [reflexivity|]. cbn [collect]. rewrite Hd.
  destruct H as [->|[Hdone [e He]]]; [reflexivity|].
  destruct (startswith DATA_PREFIX text); [|reflexivity].
  rewrite Hdone. unfold add_delta. rewrite He. simpl.
  destruct (json_loads_cases (skipn 6 text)) as [[v Hv]|Hr]; [congruence|].
  rewrite Hr in He. inversion He. reflexivity.
Qed.

Lemma collect_terminator (line : bytes) (rest : list bytes)
  (broken : option exn) (acc : str) :
  terminator line -> collect (line :: rest) broken acc = Return acc.
Proof.
  intros [text [Hd [Hp Hdone]]].
  destruct (startswith_data_nonempty _ Hd Hp) as [b [r ->]].
  cbn [collect]. rewrite Hd, Hp, Hdone. reflexivity.
Qed.

Lemma collect_carries (line : bytes) (c : str) (rest : list bytes)
  (broken : option exn) (acc : str) :
  carries line c ->
  collect (line :: rest) broken acc = collect rest broken (acc ++ c).
Proof.
  intros [text [d [choices [f [g [Hd [Hp [Hdone [Hl [Hc [Hf Hg]]]]]]]]]]].
  destruct (startswith_data_nonempty _ Hd Hp) as [b [r ->]].
  cbn [collect]. rewrite Hd, Hp, Hdone. unfold add_delta.
  rewrite Hl. simpl. rewrite Hc. simpl. rewrite Hf. simpl. rewrite Hg.
  reflexivity.
Qed.


(** ** The orchestrator: shape of a run *)

Lemma post_then_lift {A : Type} (stream : bool) (o : outcome A) :
  (_ <~ post stream ;; lift o) = ([Post stream], o).
Proof. reflexivity. Qed.

Lemma buffered_attempt_trace (p : provider) :
  fst (buffered_attempt p) = [Post false].
Proof.
  unfold buffered_attempt, query_groq_complete.
  rewrite post_then_lift. unfold gbind, lift.
  match goal with |- context [match ?o with Return _ => _ | Raise _ => _ end] =>
    destruct o end; reflexivity.
Qed.

Lemma query_groq_stream_trace (p : provider) :
  fst (query_groq_stream p) = [Post true].
Proof. unfold query_groq_stream. now rewrite post_then_lift. Qed.

Lemma gen_eta {A : Type} (m : gen A) : m = (fst m, snd m).
Proof. now destruct m. Qed.

Lemma on_exception_yields (e : exn) :
  on_exception e = ([Yield (error_for e)], Return tt).
Proof.
  unfold on_exception, error_for.
  destruct (is_Timeout e); [reflexivity|].
  destruct (is_RequestException e); reflexivity.
Qed.

Lemma error_for_is_error (e : exn) :
  is_error (error_for e) = true /\ is_done (error_for e) = false
  /\ is_status (error_for e) = false.
Proof.
  unfold error_for.
  destruct (is_Timeout e); [repeat split|].
  destruct (is_RequestException e); repeat split.
Qed.

Lemma done_event_is_done (data : str) :
  is_done (done_event data) = true /\ is_error (done_event data) = false
  /\ is_status (done_event data) = false.
Proof. repeat split. Qed.

(** After the completion call, the body yields one done event and
    returns, or raises without having yielded. *)
Lemma respond_cases (rt : runtime) (user_prompt : str) (v : JSON) :
  (exists data, respond rt user_prompt v = ([Yield (done_event data)], Return tt))
  \/ (exists e, respond rt user_prompt v = ([], Raise e)).
Proof.
  unfold respond, gbind, lift, yield.
  destruct (py_len v) as [n|e]; [|right; eauto].
  destruct (as_text v) as [text|e]; [|right; eauto].
  destruct (extract_json_from_response text) as [parsed|e]; [|right; eauto].
  destruct (has_required_keys rt parsed) as [[|]|e]; [| |right; eauto].
  - destruct (py_get parsed K_REPOSITORY_NAME JNull) as [w|e]; [|right; eauto].
    destruct (clean_data rt parsed) as [clean|e]; [|right; eauto].
    left. eexists. reflexivity.
  - left. eexists. reflexivity.
Qed.

Lemma answer_cases (rt : runtime) (user_prompt : str) (v : JSON) :
  (exists data, respond rt user_prompt v = ([Yield (done_event data)], Return tt)
                /\ answer rt user_prompt v = [Yield (done_event data)])
  \/ (exists e, respond rt user_prompt v = ([], Raise e)
                /\ answer rt user_prompt v = [Yield (error_for e)]).
Proof.
  unfold answer.
  destruct (respond_cases rt user_prompt v) as [[data H]|[e H]]; rewrite H.
  - left. exists data. auto.
  - right. exists e. split; [reflexivity|].
    unfold except. now rewrite on_exception_yields.
Qed.

(** A run of the generator, by the outcome of the two calls. *)
Lemma event_stream_buffered (rt : runtime) (p : provider) (user_prompt : str)
  (v : JSON) :
  snd (buffered_attempt p) = Return v ->
  event_stream rt p user_prompt
  = Yield STATUS_GENERATING :: Post false :: answer rt user_prompt v.
Proof.
  intros H.
  unfold event_stream, event_stream_run, event_stream_body,
    complete_or_stream, answer.
  rewrite (gen_eta (buffered_attempt p)), buffered_attempt_trace, H.
  unfold except at 2. unfold gbind at 2. unfold yield at 1. unfold gbind at 1.
  destruct (respond rt user_prompt v) as [t [[]|e]]; simpl.
  - reflexivity.
  - destruct (on_exception e). reflexivity.
Qed.

Lemma event_stream_streamed (rt : runtime) (p : provider) (user_prompt : str)
  (e : exn) (s : str) :
  snd (buffered_attempt p) = Raise e ->
  snd (query_groq_stream p) = Return s ->
  event_stream rt p user_prompt
  = Yield STATUS_GENERATING :: Post false :: Yield STATUS_PROCESSING
    :: Post true :: answer rt user_prompt (JStr s).
Proof.
  intros H Hs.
  unfold event_stream, event_stream_run, event_stream_body,
    complete_or_stream, answer, streaming_fallback.
  rewrite (gen_eta (buffered_attempt p)), buffered_attempt_trace, H.
  rewrite (gen_eta (query_groq_stream p)), query_groq_stream_trace, Hs.
  unfold except at 2. unfold yield at 2. unfold gbind at 3. unfold gbind at 3.
  unfold gret. unfold yield at 1. unfold gbind at 1. unfold gbind at 1.
  destruct (respond rt user_prompt (JStr s)) as [t [[]|e']]; simpl.
  - reflexivity.
  - destruct (on_exception e'). reflexivity.
Qed.

Lemma event_stream_failed (rt : runtime) (p : provider) (user_prompt : str)
  (e e' : exn) :
  snd (buffered_attempt p) = Raise e ->
  snd (query_groq_stream p) = Raise e' ->
  event_stream rt p user_prompt
  = [Yield STATUS_GENERATING; Post false; Yield STATUS_PROCESSING;
     Post true; Yield (error_for e')].
Proof.
  intros H Hs.
  unfold event_stream, event_stream_run, event_stream_body,
    complete_or_stream, streaming_fallback.
  rewrite (gen_eta (buffered_attempt p)), buffered_attempt_trace, H.
  rewrite (gen_eta (query_groq_stream p)), query_groq_stream_trace, Hs.
  simpl. now rewrite on_exception_yields.
Qed.

(** The body of the outer [try], by the outcome of the two calls. *)
Lemma event_stream_body_buffered (rt : runtime) (p : provider)
  (user_prompt : str) (v : JSON) :
  snd (buffered_attempt p) = Return v ->
  event_stream_body rt p user_prompt
  = (Yield STATUS_GENERATING :: Post false :: fst (respond rt user_prompt v),
     snd (respond rt user_prompt v)).
Proof.
  intros H. unfold event_stream_body, complete_or_stream.
  rewrite (gen_eta (buffered_attempt p)), buffered_attempt_trace, H.
  unfold except, yield. unfold gbind at 2. unfold gbind at 1.
  destruct (respond rt user_prompt v) as [t [[]|e]]; reflexivity.
Qed.

Lemma event_stream_body_streamed (rt : runtime) (p : provider)
  (user_prompt : str) (e : exn) (s : str) :
  snd (buffered_attempt p) = Raise e ->
  snd (query_groq_stream p) = Return s ->
  event_stream_body rt p user_prompt
  = (Yield STATUS_GENERATING :: Post false :: Yield STATUS_PROCESSING
     :: Post true :: fst (respond rt user_prompt (JStr s)),
     snd (respond rt user_prompt (JStr s))).
Proof.
  intros H Hs. unfold event_stream_body, complete_or_stream, streaming_fallback.
  rewrite (gen_eta (buffered_attempt p)), buffered_attempt_trace, H.
  rewrite (gen_eta (query_groq_stream p)), query_groq_stream_trace, Hs.
  unfold except, yield, gret. unfold gbind at 3. unfold gbind at 3.
  unfold gbind at 2. unfold gbind at 1.
  destruct (respond rt user_prompt (JStr s)) as [t [[]|e']]; reflexivity.
Qed.

Lemma event_stream_body_failed (rt : runtime) (p : provider)
  (user_prompt : str) (e e' : exn) :
  snd (buffered_attempt p) = Raise e ->
  snd (query_groq_stream p) = Raise e' ->
  event_stream_body rt p user_prompt
  = ([Yield STATUS_GENERATING; Post false; Yield STATUS_PROCESSING; Post true],
     Raise e').
Proof.
  intros H Hs. unfold event_stream_body, complete_or_stream, streaming_fallback.
  rewrite (gen_eta (buffered_attempt p)), buffered_attempt_trace, H.
  rewrite (gen_eta (query_groq_stream p)), query_groq_stream_trace, Hs.
  reflexivity.
Qed.

(** The statuses before the terminal event: one, or two after a retry. *)
Lemma event_stream_cases (rt : runtime) (p : provider) (user_prompt : str) :
  exists calls statuses terminal,
    event_stream rt p user_prompt
    = Yield STATUS_GENERATING :: calls ++ [Yield terminal]
    /\ yielded (event_stream rt p user_prompt) = statuses ++ [terminal]
    /\ (statuses = [STATUS_GENERATING]
        \/ statuses = [STATUS_GENERATING; STATUS_PROCESSING])
    /\ is_terminal terminal = true /\ is_status terminal = false
    /\ match snd (event_stream_body rt p user_prompt) with
       | Return _ => is_done terminal = true
       | Raise e => terminal = error_for e
       end.
Proof.
  destruct (snd (buffered_attempt p)) as [v|e] eqn:Hb.
  - rewrite (event_stream_buffered rt p user_prompt Hb).
    rewrite (event_stream_body_buffered rt p user_prompt Hb).
    destruct (answer_cases rt user_prompt v) as [[data [Hr ->]]|[e [Hr ->]]];
      rewrite Hr.
    + exists [Post false], [STATUS_GENERATING], (done_event data).
      repeat split. now left.
    + exists [Post false], [STATUS_GENERATING], (error_for e).
      destruct (error_for_is_error e) as [H1 [H2 H3]].
      unfold is_terminal. rewrite H1, H2, H3. repeat split. now left.
  - destruct (snd (query_groq_stream p)) as [s|e'] eqn:Hs.
    + rewrite (event_stream_streamed rt p user_prompt Hb Hs).
      rewrite (event_stream_body_streamed rt p user_prompt Hb Hs).
      destruct (answer_cases rt user_prompt (JStr s))
        as [[data [Hr ->]]|[e0 [Hr ->]]]; rewrite Hr.
      * exists [Post false; Yield STATUS_PROCESSING; Post true],
          [STATUS_GENERATING; STATUS_PROCESSING], (done_event data).
        repeat split. now right.
      * exists [Post false; Yield STATUS_PROCESSING; Post true],
          [STATUS_GENERATING; STATUS_PROCESSING], (error_for e0).
        destruct (error_for_is_error e0) as [H1 [H2 H3]].
        unfold is_terminal. rewrite H1, H2, H3. repeat split. now right.
    + rewrite (event_stream_failed rt p user_prompt Hb Hs).
      rewrite (event_stream_body_failed rt p user_prompt Hb Hs).
      exists [Post false; Yield STATUS_PROCESSING; Post true],
        [STATUS_GENERATING; STATUS_PROCESSING], (error_for e').
      destruct (error_for_is_error e') as [H1 [H2 H3]].
      unfold is_terminal. rewrite H1, H2, H3. repeat split. now right.
Qed.

(** ** C1: the order of the events *)

Lemma event_stream_order (rt : runtime) (p : provider) (user_prompt : str) :
  exists rest statuses terminal,
    event_stream rt p user_prompt = Yield STATUS_GENERATING :: rest
    /\ yielded (event_stream rt p user_prompt) = statuses ++ [terminal]
    /\ statuses <> []
    /\ Forall (fun c => is_status c = true /\ is_terminal c = false) statuses
    /\ is_terminal terminal = true
    /\ is_status terminal = false.
Proof.
  destruct (event_stream_cases rt p user_prompt)
    as [calls [statuses [terminal [H1 [H2 [H3 [H4 [H5 _]]]]]]]].
  exists (calls ++ [Yield terminal]), statuses, terminal.
  repeat split; try assumption.
  - destruct H3 as [-> | ->]; discriminate.
  - destruct H3 as [-> | ->]; repeat constructor.
Qed.

(** C1. For every accepted request and every behaviour of the provider,
    the response is an event stream in which one or more status events
    are followed by exactly one terminal event (done or error), which is
    the last one; the first thing the generator does, before any call to
    the provider, is to yield the "generating" status event. *)
Theorem accepted_request_event_order (rt : runtime) (p : provider)
  (prompt : str) :
  RepoRequest prompt = true ->
  exists rest statuses terminal,
    generate_repo rt p prompt
    = StreamingResponse (Yield STATUS_GENERATING :: rest)
    /\ yielded (Yield STATUS_GENERATING :: rest) = statuses ++ [terminal]
    /\ statuses <> []
    /\ Forall (fun c => is_status c = true /\ is_terminal c = false) statuses
    /\ is_terminal terminal = true
    /\ is_status terminal = false.
Proof.
  intros Hok. unfold generate_repo. rewrite Hok.
  destruct (event_stream_order rt p (strip prompt))
    as [rest [statuses [terminal [H1 H]]]].
  exists rest, statuses, terminal. rewrite <- H1. split; [reflexivity|exact H].
Qed.

(** ** C7: one retry in incremental mode *)

(** The ways in which the buffered attempt raises: the call itself, a
    status that is not a success, a body that is not JSON, an envelope
    without the path to the content. *)
Lemma buffered_attempt_failures (p : provider) :
  match complete_reply p with
  | Fails e => snd (buffered_attempt p) = Raise e
  | Responds status body =>
      if ((400 <=? status) && (status <? 600))%N
      then snd (buffered_attempt p) = raise HTTPError
      else match json_loads body with
           | Raise _ => snd (buffered_attempt p) = raise RequestsJSONDecodeError
           | Return response =>
               snd (buffered_attempt p)
               = (choices <- py_getitem response K_CHOICES ;;
                  first <- py_getitem0 choices ;;
                  message <- py_getitem first K_MESSAGE ;;
                  py_getitem message K_CONTENT)
           end
  end.
Proof.
  unfold buffered_attempt, query_groq_complete. rewrite post_then_lift.
  destruct (complete_reply p) as [e|status body]; [reflexivity|].
  unfold raise_for_status, response_json.
  destruct ((400 <=? status) && (status <? 600))%N; [reflexivity|].
  simpl. destruct (json_loads body) as [response|e]; [|reflexivity].
  simpl. now destruct (bind _ _).
Qed.

(** C7. The buffered call comes first.  When it raises, whatever the
    exception, the exception is caught, the second status event is
    yielded and the streaming call is made, once; nothing is called
    after it.  The run then ends as the streaming call decides: with the
    answer to its text when it returns, and with the error event of its
    own exception when it raises.  The exception of the buffered call
    never reaches the outer handlers. *)
Theorem buffered_failure_retries_once (rt : runtime) (p : provider)
  (user_prompt : str) (e : exn) :
  snd (buffered_attempt p) = Raise e ->
  exists tail terminal,
    event_stream rt p user_prompt
    = [Yield STATUS_GENERATING; Post false; Yield STATUS_PROCESSING; Post true]
      ++ tail
    /\ tail = [Yield terminal]
    /\ match snd (query_groq_stream p) with
       | Return s => tail = answer rt user_prompt (JStr s)
       | Raise e' => terminal = error_for e'
       end.
Proof.
  intros Hb. destruct (snd (query_groq_stream p)) as [s|e'] eqn:Hs.
  - rewrite (event_stream_streamed rt p user_prompt Hb Hs).
    destruct (answer_cases rt user_prompt (JStr s))
      as [[data [_ Ha]]|[e0 [_ Ha]]]; rewrite Ha;
      do 2 eexists; (split; [reflexivity | split; reflexivity]).
  - rewrite (event_stream_failed rt p user_prompt Hb Hs).
    do 2 eexists; (split; [reflexivity | split; reflexivity]).
Qed.

(** Without a failure of the buffered call there is no second call. *)
Lemma buffered_success_no_retry (rt : runtime) (p : provider)
  (user_prompt : str) (v : JSON) :
  snd (buffered_attempt p) = Return v ->
  exists terminal,
    event_stream rt p user_prompt
    = [Yield STATUS_GENERATING; Post false; Yield terminal].
Proof.
  intros Hb. rewrite (event_stream_buffered rt p user_prompt Hb).
  destruct (answer_cases rt user_prompt v)
    as [[data [_ Ha]]|[e0 [_ Ha]]]; rewrite Ha; eauto.
Qed.

(** ** C8: the codes of the error events *)

Lemma error_for_class (e : exn) (text : str) :
  error_for (Exn (exn_cls e) text) = error_for e.
Proof. now destruct e. Qed.


(** Both modes exhausted: the exception of the retry is the one that
    reaches the handlers. *)
Lemma both_modes_exhausted (rt : runtime) (p : provider) (user_prompt : str)
  (e e' : exn) :
  snd (buffered_attempt p) = Raise e ->
  snd (query_groq_stream p) = Raise e' ->
  snd (event_stream_body rt p user_prompt) = Raise e'
  /\ yielded (event_stream rt p user_prompt)
     = [STATUS_GENERATING; STATUS_PROCESSING; error_for e'].
Proof.
  intros Hb Hs.
  rewrite (event_stream_body_failed rt p user_prompt Hb Hs).
  rewrite (event_stream_failed rt p user_prompt Hb Hs). now split.
Qed.

(** ** C3: the fallback artifact *)

Lemma answer_fallback (rt : runtime) (user_prompt text : str) (parsed : JSON) :
  extract_json_from_response text = Return parsed ->
  has_required_keys rt parsed = Return false ->
  answer rt user_prompt (JStr text)
  = [Yield (done_event
              (json_dumps rt true (fallback_response user_prompt text)))].
Proof.
  intros He Hk. unfold answer, respond, gbind, lift, except, yield.
  cbn [py_len as_text]. rewrite He, Hk. reflexivity.
Qed.

Lemma has_required_keys_falsy (rt : runtime) (parsed : JSON) :
  py_truthy rt parsed = false -> has_required_keys rt parsed = Return false.
Proof. unfold has_required_keys. now intros ->. Qed.

Lemma has_required_keys_missing (rt : runtime) (d : list (str * JSON))
  (key : str) :
  In key REQUIRED_KEYS -> dict_get d key = None ->
  has_required_keys rt (JDict d) = Return false.
Proof.
  intros Hin Hnone. unfold has_required_keys.
  destruct (py_truthy rt (JDict d)); [|reflexivity].
  unfold REQUIRED_KEYS in *. cbn [all_in py_contains bind].
  destruct Hin as [<-|[<-|[<-|[]]]]; rewrite ?Hnone; cbn [is_some];
    repeat match goal with
           | |- context [is_some ?o] => destruct o; cbn [is_some]
           end; reflexivity.
Qed.

Lemma fallback_response_fields (user_prompt text : str) :
  let f := match fallback_response user_prompt text with
           | JDict d => d
           | _ => []
           end in
  dict_get f K_README_CONTENT
  = Some (JStr (README_HEAD ++ user_prompt ++ README_TAIL))
  /\ dict_get f K_RAW_RESPONSE = Some (JStr (firstn 500 text))
  /\ length (firstn 500 text) <= 500
  /\ dict_get f K_NOTE = Some (JStr FALLBACK_NOTE)
  /\ FALLBACK_NOTE <> [].
Proof.
  repeat split; try discriminate. apply firstn_le_length.
Qed.

(** When the extractor returns [None], a falsy value or a dict that
    lacks a required key, the terminal event is a done event with the
    fallback artifact. *)
Lemma invalid_object_gets_fallback (rt : runtime) (p : provider)
  (user_prompt text : str) (parsed : JSON) :
  snd (buffered_attempt p) = Return (JStr text) ->
  extract_json_from_response text = Return parsed ->
  (py_truthy rt parsed = false
   \/ exists d key, parsed = JDict d /\ In key REQUIRED_KEYS
                    /\ dict_get d key = None) ->
  yielded (event_stream rt p user_prompt)
  = [STATUS_GENERATING;
     done_event (json_dumps rt true (fallback_response user_prompt text))].
Proof.
  intros Hb He H. rewrite (event_stream_buffered rt p user_prompt Hb).
  rewrite (answer_fallback rt user_prompt text He); [reflexivity|].
  destruct H as [H|[d [key [-> [Hin Hk]]]]].
  - now apply has_required_keys_falsy.
  - now apply has_required_keys_missing with key.
Qed.

(** C3. A model output that is a JSON number is parsed by the direct
    strategy; the parsed value has none of the three fields, and the
    membership test on it raises [TypeError]: the terminal event is the
    INTERNAL_ERROR event, not a done event with the fallback artifact. *)
Theorem scalar_output_is_internal_error (rt : runtime) (sr : reply stream_body)
  (user_prompt : str) :
  extract_json_from_response (lit "42") = Return (JInt 42)
  /\ has_required_keys rt (JInt 42) = raise TypeError
  /\ event_stream rt (Provider (completion_of rt (lit "42")) sr) user_prompt
     = [Yield STATUS_GENERATING; Post false; Yield ERROR_INTERNAL].
Proof. repeat split. Qed.

(** The same happens when the output is a JSON list or string in which
    the three names occur: the test passes and [.get] raises. *)
Lemma list_output_is_internal_error (rt : runtime) (sr : reply stream_body)
  (user_prompt : str) :
  let text := qlit "['repository_name', 'description', 'readme_content']" in
  has_required_keys rt (JList (map (@JStr) REQUIRED_KEYS)) = Return true
  /\ event_stream rt (Provider (completion_of rt text) sr) user_prompt
     = [Yield STATUS_GENERATING; Post false; Yield ERROR_INTERNAL].
Proof. repeat split. Qed.

(** ** C5: the cleaned artifact *)



(** ** C10: an empty stream *)




(** ** C9: a fragment of the wrong shape *)

(** C9. The deltas of well-formed fragments are concatenated in order
    ([collect_deltas]), but not every malformed line is skipped: only the
    failure of the JSON parser is caught.  After the fragment "Hel", a
    line whose payload is the JSON number 42, a fragment whose content
    is null, or a line that is not UTF-8 makes [query_groq_stream] raise;
    the accumulated "Hel" is lost and the request ends with the
    INTERNAL_ERROR event. *)
Theorem malformed_fragment_aborts_stream (rt : runtime) (user_prompt : str)
  (e : exn) :
  let good := bqlit "data: {'choices':[{'delta':{'content':'Hel'}}]}" in
  let null_content := bqlit "data: {'choices':[{'delta':{'content':null}}]}" in
  collect [good] None [] = Return (lit "Hel")
  /\ collect [good; bqlit "data: 42"] None [] = raise TypeError
  /\ collect [good; null_content] None [] = raise TypeError
  /\ collect [good; [xff]] None [] = raise UnicodeDecodeError
  /\ event_stream rt
       (Provider (Fails e)
          (Responds 200 (StreamBody [good; bqlit "data: 42"] None)))
       user_prompt
     = [Yield STATUS_GENERATING; Post false; Yield STATUS_PROCESSING;
        Post true; Yield ERROR_INTERNAL].
Proof. repeat split. Qed.

(** ** JSON: strings, numbers and values are read back *)

Ltac n_bools :=
  repeat match goal with
    | H : (_ && _)%bool = true |- _ => apply andb_true_iff in H; destruct H
    | H : (_ && _)%bool = false |- _ => apply andb_false_iff in H
    | H : (_ || _)%bool = true |- _ => apply orb_true_iff in H
    | H : (_ || _)%bool = false |- _ => apply orb_false_iff in H; destruct H
    | H : (_ =? _)%N = true |- _ => apply N.eqb_eq in H
    | H : (_ =? _)%N = false |- _ => apply N.eqb_neq in H
    | H : (_ <? _)%N = true |- _ => apply N.ltb_lt in H
    | H : (_ <? _)%N = false |- _ => apply N.ltb_ge in H
    | H : (_ <=? _)%N = true |- _ => apply N.leb_le in H
    | H : (_ <=? _)%N = false |- _ => apply N.leb_gt in H
    | H : negb _ = true |- _ => apply negb_true_iff in H
    | H : negb _ = false |- _ => apply negb_false_iff in H
    end.

Lemma hex_value_hex_char (d : N) :
  (d < 16)%N -> hex_value (hex_char d) = Some d.
Proof.
  intros H. unfold hex_value, hex_char, is_digit.
  destruct (d <? 10)%N eqn:E; n_bools.
  - replace ((48 <=? 48 + d) && (48 + d <=? 57))%N with true.
    + f_equal. lia.
    + symmetry. apply andb_true_iff. split; apply N.leb_le; lia.
  - replace ((48 <=? 87 + d) && (87 + d <=? 57))%N with false.
    + replace ((97 <=? 87 + d) && (87 + d <=? 102))%N with true.
      * f_equal. lia.
      * symmetry. apply andb_true_iff. split; apply N.leb_le; lia.
    + symmetry. apply andb_false_iff. right. apply N.leb_gt. lia.
Qed.

Lemma hex4_u_escape (x : N) :
  (x < 65536)%N ->
  hex4 (hex_char (x / 4096)) (hex_char ((x / 256) mod 16))
       (hex_char ((x / 16) mod 16)) (hex_char (x mod 16)) = Some x.
Proof.
  intros H. unfold hex4.
  assert (H1 : (x / 4096 < 16)%N) by (apply N.Div0.div_lt_upper_bound; lia).
  assert (H2 : ((x / 256) mod 16 < 16)%N) by (apply N.mod_lt; lia).
  assert (H3 : ((x / 16) mod 16 < 16)%N) by (apply N.mod_lt; lia).
  assert (H4 : (x mod 16 < 16)%N) by (apply N.mod_lt; lia).
  rewrite !hex_value_hex_char by assumption. f_equal.
  pose proof (N.div_mod x 16 ltac:(lia)) as E1.
  pose proof (N.div_mod (x / 16) 16 ltac:(lia)) as E2.
  pose proof (N.div_mod (x / 256) 16 ltac:(lia)) as E3.
  assert (D1 : (x / 16 / 16 = x / 256)%N)
    by (rewrite N.Div0.div_div; reflexivity).
  assert (D2 : (x / 256 / 16 = x / 4096)%N)
    by (rewrite N.Div0.div_div; reflexivity).
  rewrite D1 in E2. rewrite D2 in E3.
  lia.
Qed.

Lemma scanstring_u_escape (x : N) (tail : str) :
  (x < 65536)%N ->
  (is_high_surrogate x = true -> safe_after_high tail) ->
  scanstring (u_escape x ++ tail) = push x (scanstring tail).
Proof.
  intros Hx Hsafe. unfold u_escape. cbn [app scanstring].
  change (char_eqb BACKSLASH DQUOTE) with false.
  change (char_eqb BACKSLASH BACKSLASH) with true.
  change (117 =? 117)%N with true. cbv iota.
  rewrite (hex4_u_escape Hx).
  destruct (is_high_surrogate x) eqn:Hh; [|reflexivity].
  specialize (Hsafe eq_refl).
  destruct tail as [|b [|u [|g1 [|g2 [|g3 [|g4 r3]]]]]]; try reflexivity.
  destruct (char_eqb b BACKSLASH && (u =? 117)%N) eqn:Hb; [|reflexivity].
  apply andb_true_iff in Hb. destruct Hb as [Hb Hu].
  apply char_eqb_eq in Hb. apply N.eqb_eq in Hu. subst b u.
  destruct (Hsafe g1 g2 g3 g4 r3 eq_refl) as [uni2 [-> ->]]. reflexivity.
Qed.

Lemma scanstring_surrogate_pair (c : char) (tail : str) :
  (65536 <= c)%N -> (c < 1114112)%N ->
  scanstring (u_escape (55296 + (c - 65536) / 1024)
              ++ u_escape (56320 + (c - 65536) mod 1024) ++ tail)
  = push c (scanstring tail).
Proof.
  intros Hlo Hhi.
  assert (Hq : ((c - 65536) / 1024 < 1024)%N)
    by (apply N.Div0.div_lt_upper_bound; lia).
  assert (Hr : ((c - 65536) mod 1024 < 1024)%N) by (apply N.mod_lt; lia).
  pose proof (N.div_mod (c - 65536) 1024 ltac:(lia)) as Hdm.
  remember ((c - 65536) / 1024)%N as q eqn:Eq. clear Eq.
  remember ((c - 65536) mod 1024)%N as r eqn:Er. clear Er.
  assert (Hhs : is_high_surrogate (55296 + q) = true).
  { unfold is_high_surrogate. apply andb_true_iff.
    split; apply N.leb_le; lia. }
  assert (Hls : is_low_surrogate (56320 + r) = true).
  { unfold is_low_surrogate. apply andb_true_iff.
    split; apply N.leb_le; lia. }
  unfold u_escape at 1. cbn [app scanstring].
  change (char_eqb BACKSLASH DQUOTE) with false.
  change (char_eqb BACKSLASH BACKSLASH) with true.
  change (117 =? 117)%N with true. cbv iota.
  rewrite (@hex4_u_escape (55296 + q)%N) by lia. rewrite Hhs.
  unfold u_escape. cbn [app].
  change (char_eqb BACKSLASH BACKSLASH) with true.
  change (117 =? 117)%N with true. cbn [andb].
  rewrite (@hex4_u_escape (56320 + r)%N) by lia. rewrite Hls.
  f_equal. unfold join_surrogates. lia.
Qed.

Lemma safe_after_quote (rest : str) : safe_after_high (DQUOTE :: rest).
Proof. intros g1 g2 g3 g4 r3 H. discriminate. Qed.

Lemma u_escape_head (x : N) (tail : str) (g1 g2 g3 g4 : char) (r3 : str) :
  (x < 65536)%N ->
  u_escape x ++ tail = BACKSLASH :: 117%N :: g1 :: g2 :: g3 :: g4 :: r3 ->
  hex4 g1 g2 g3 g4 = Some x.
Proof.
  intros Hx. unfold u_escape. cbn [app]. intros H.
  injection H as <- <- <- <- _. now apply hex4_u_escape.
Qed.

Lemma safe_after_escape (d : char) (tail : str) :
  (d < 1114112)%N -> is_low_surrogate d = false ->
  safe_after_high (escape_char true d ++ tail).
Proof.
  intros Hd Hlow g1 g2 g3 g4 r3. unfold escape_char.
  repeat match goal with
         | |- context [if ?b then _ else _] =>
             let E := fresh "E" in destruct b eqn:E; [try discriminate|]
         end; cbn [negb] in *; try discriminate; n_bools.
  - intros H. exists d. split; [|assumption].
    apply (@u_escape_head d tail g1 g2 g3 g4 r3); [lia|exact H].
  - cbn [app]. intros H. injection H as H _. exfalso. apply E0. exact H.
  - intros H. exists d. split; [|assumption].
    apply (@u_escape_head d tail g1 g2 g3 g4 r3); [lia|exact H].
  - assert (Hq : ((d - 65536) / 1024 < 1024)%N)
      by (apply N.Div0.div_lt_upper_bound; lia).
    remember ((d - 65536) / 1024)%N as q eqn:Eq. clear Eq.
    remember (u_escape (56320 + (d - 65536) mod 1024)) as lo eqn:El. clear El.
    rewrite <- app_assoc. intros H.
    assert (Hhi : (55296 + q < 65536)%N) by lia.
    remember (55296 + q)%N as hi eqn:Ehi.
    exists hi. split.
    + exact (@u_escape_head hi (lo ++ tail) g1 g2 g3 g4 r3 Hhi H).
    + unfold is_low_surrogate. apply andb_false_iff. left. apply N.leb_gt.
      lia.
Qed.

Lemma scanstring_raw (c : char) (tail : str) :
  c <> 34%N -> c <> 92%N -> (32 <= c)%N ->
  scanstring (c :: tail) = push c (scanstring tail).
Proof.
  intros H1 H2 H3. cbn [scanstring].
  replace (char_eqb c DQUOTE) with false
    by (symmetry; apply N.eqb_neq; assumption).
  replace (char_eqb c BACKSLASH) with false
    by (symmetry; apply N.eqb_neq; assumption).
  replace (c <? 32)%N with false by (symmetry; apply N.ltb_ge; assumption).
  reflexivity.
Qed.

Lemma scanstring_escape_char (ea : bool) (c : char) (tail : str) :
  (ea = true ->
   (c < 1114112)%N /\ (is_high_surrogate c = true -> safe_after_high tail)) ->
  scanstring (escape_char ea c ++ tail) = push c (scanstring tail).
Proof.
  intros H. unfold escape_char.
  repeat match goal with
         | |- context [if (?a =? ?b)%N then _ else _] =>
             let E := fresh "E" in destruct (a =? b)%N eqn:E;
             [apply N.eqb_eq in E; subst; reflexivity | apply N.eqb_neq in E]
         end.
  destruct (c <? 32)%N eqn:E32; n_bools.
  { apply scanstring_u_escape; [lia|].
    intros Hh. unfold is_high_surrogate in Hh. n_bools. lia. }
  destruct ea; cbn [negb].
  - destruct (H eq_refl) as [Hc Hs].
    destruct (c <=? 126)%N eqn:E126; [now apply scanstring_raw|].
    destruct (c <? 65536)%N eqn:E64k; n_bools.
    + now apply scanstring_u_escape.
    + rewrite <- app_assoc. now apply scanstring_surrogate_pair.
  - now apply scanstring_raw.
Qed.

Lemma ascii_safe_tail (c : char) (s : str) (rest : str) :
  ascii_safe (c :: s) = true ->
  (c < 1114112)%N
  /\ (is_high_surrogate c = true ->
      safe_after_high (flat_map (escape_char true) s ++ DQUOTE :: rest))
  /\ ascii_safe s = true.
Proof.
  cbn [ascii_safe]. intros H.
  apply andb_true_iff in H. destruct H as [H Hs].
  apply andb_true_iff in H. destruct H as [Hc Hp].
  apply N.ltb_lt in Hc. apply negb_true_iff in Hp.
  repeat split; try assumption.
  intros Hh. destruct s as [|d s]; [apply safe_after_quote|].
  cbn [flat_map]. rewrite <- app_assoc. apply safe_after_escape.
  - cbn [ascii_safe] in Hs. n_bools. assumption.
  - unfold pairs_up in Hp. rewrite Hh in Hp. exact Hp.
Qed.

(** An encoded string is read back. *)
Lemma scanstring_encode (ea : bool) (s rest : str) :
  text_ok ea s = true ->
  scanstring (flat_map (escape_char ea) s ++ DQUOTE :: rest) = Some (s, rest).
Proof.
  induction s as [|c s IH]; intros Hok.
  - cbn. reflexivity.
  - cbn [flat_map]. rewrite <- app_assoc.
    rewrite scanstring_escape_char.
    + rewrite IH; [reflexivity|].
      unfold text_ok in *. destruct ea; [|reflexivity]. cbn [negb orb] in *.
      now destruct (@ascii_safe_tail c s rest Hok) as [_ [_ H]].
    + intros ->. unfold text_ok in Hok. cbn [negb orb] in Hok.
      destruct (@ascii_safe_tail c s rest Hok) as [H1 [H2 _]]. now split.
Qed.

(** ** Numbers: [str(n)] is read back as [n] *)

Lemma uint_of_digits_of_uint (u : Decimal.uint) :
  uint_of_digits (digits_of_uint u) = u.
Proof. induction u; simpl; unfold digit_of_char; simpl; congruence. Qed.

Lemma digits_of_uint_digits (u : Decimal.uint) :
  Forall (fun c => is_digit c = true) (digits_of_uint u).
Proof. induction u; simpl; constructor; auto. Qed.

Lemma span_digits_app (ds rest : str) :
  Forall (fun c => is_digit c = true) ds -> ends_number rest ->
  span_digits (ds ++ rest) = (ds, rest).
Proof.
  intros Hds Hrest. induction Hds as [|c ds Hc _ IH]; cbn [app span_digits].
  - destruct rest as [|c r]; [reflexivity|].
    destruct Hrest as [H _]. cbn [span_digits]. now rewrite H.
  - now rewrite Hc, IH.
Qed.

Lemma to_uint_head (p : positive) :
  exists c ds, digits_of_uint (Pos.to_uint p) = c :: ds
               /\ is_digit c = true /\ (c =? 48)%N = false
               /\ char_eqb c MINUS = false
               /\ Forall (fun c => is_digit c = true) ds.
Proof.
  pose proof (DecimalPos.Unsigned.to_of (Pos.to_uint p)) as H.
  rewrite DecimalPos.Unsigned.of_to in H. simpl in H.
  pose proof (DecimalPos.Unsigned.to_uint_nonzero p) as Hnz.
  pose proof (digits_of_uint_digits (Pos.to_uint p)) as Hd.
  pose proof (DecimalPos.Unsigned.to_uint_nonnil p) as Hnn.
  destruct (Pos.to_uint p) as [|u|u|u|u|u|u|u|u|u|u] eqn:E;
    try (simpl; eexists _, _; repeat split; inversion Hd; assumption).
  - now contradiction Hnn.
  - exfalso. unfold Decimal.unorm in H. cbn [Decimal.nzhead] in H.
    destruct (Decimal.nzhead u) eqn:En; try discriminate.
    + inversion H. subst u. now apply Hnz.
    + inversion H. subst. exact (DecimalFacts.nzhead_nonzero _ _ En).
Qed.

Lemma match_number_int (n : Z) (rest : str) :
  ends_number rest ->
  match_number (str_of_int n ++ rest) = Some (JInt n, rest).
Proof.
  intros Hrest.
  assert (Hfrac : match_frac rest = ([], rest)).
  { destruct rest as [|c [|d r]]; try reflexivity.
    destruct Hrest as [_ [H _]]. apply N.eqb_neq in H.
    unfold match_frac. now rewrite H. }
  assert (Hexp : match_exp rest = ([], rest)).
  { destruct rest as [|c r]; [reflexivity|].
    destruct Hrest as [_ [_ [H1 H2]]]. apply N.eqb_neq in H1, H2.
    unfold match_exp. now rewrite H1, H2. }
  unfold str_of_int, match_number.
  destruct n as [|p|p]; cbn [Z.to_int].
  - cbn. rewrite Hfrac, Hexp. reflexivity.
  - destruct (to_uint_head p) as [c [ds [E [Hc [H0 [Hm Hds]]]]]].
    rewrite E. cbn [app]. rewrite Hm. unfold match_int_part.
    rewrite H0, Hc, (@span_digits_app ds rest Hds Hrest), Hfrac, Hexp.
    f_equal. f_equal. f_equal. unfold int_of_digits.
    rewrite <- E, uint_of_digits_of_uint.
    apply (DecimalZ.of_to (Zpos p)).
  - destruct (to_uint_head p) as [c [ds [E [Hc [H0 [Hm Hds]]]]]].
    rewrite E. cbn [app]. rewrite char_eqb_refl. unfold match_int_part.
    rewrite H0, Hc, (@span_digits_app ds rest Hds Hrest), Hfrac, Hexp.
    f_equal. f_equal. f_equal. unfold int_of_digits.
    rewrite <- E, uint_of_digits_of_uint.
    apply (DecimalZ.of_to (Zneg p)).
Qed.

(** ** Induction on JSON values *)

Lemma JSON_induction (P : JSON -> Prop) :
  P JNull -> (forall b, P (JBool b)) -> (forall n, P (JInt n)) ->
  (forall l, P (JFloat l)) -> (forall s, P (JStr s)) ->
  (forall l, Forall P l -> P (JList l)) ->
  (forall d, Forall (fun kv => P (snd kv)) d -> P (JDict d)) ->
  forall v, P v.
Proof.
  intros H1 H2 H3 H4 H5 H6 H7.
  fix IH 1.
  intros [|b|n|l|s|l|d];
    [exact H1 | apply H2 | apply H3 | apply H4 | apply H5 | | ].
  - apply H6. induction l as [|x l IHl]; constructor; [apply IH | exact IHl].
  - apply H7.
    induction d as [|[k v] d IHd]; constructor; [apply IH | exact IHd].
Qed.

(** ** The recursion budget of the scanner *)

Lemma skip_ws_length (s : str) : length (skip_ws s) <= length s.
Proof.
  induction s as [|c s IH]; simpl; [lia|].
  destruct (json_ws c); simpl; lia.
Qed.

Lemma push_length (c : char) (o : option (str * str)) (v r : str) (n : nat) :
  push c o = Some (v, r) ->
  (forall v' r', o = Some (v', r') -> length r' < n) -> length r < n.
Proof.
  destruct o as [[v' r']|]; [|discriminate].
  simpl. intros H Ho. inversion H. subst. now apply (Ho v').
Qed.

Lemma scanstring_length (s v r : str) :
  scanstring s = Some (v, r) -> length r < length s.
Proof.
  remember (length s) as n eqn:En. revert s v r En.
  induction n as [n IH] using lt_wf_ind. intros s v r En.
  assert (IH' : forall s' v' r', length s' < n ->
                  scanstring s' = Some (v', r') -> length r' < n).
  { intros s' v' r' Hlt Hs'.
    pose proof (IH (length s') Hlt s' v' r' eq_refl Hs'). lia. }
  destruct s as [|c s]; [discriminate|]. cbn [scanstring].
  destruct (char_eqb c DQUOTE).
  { intros H. inversion H. subst. simpl. lia. }
  destruct (char_eqb c BACKSLASH).
  - destruct s as [|e r1]; [discriminate|].
    destruct (e =? 117)%N.
    + destruct r1 as [|h1 [|h2 [|h3 [|h4 r2]]]]; try discriminate.
      destruct (hex4 h1 h2 h3 h4) as [uni|]; [|discriminate].
      assert (Hr2 : forall v r, push uni (scanstring r2) = Some (v, r) ->
                                length r < n).
      { intros v0 r0 H. eapply push_length; [exact H|].
        intros v' r'. apply IH'. subst n. simpl. lia. }
      destruct (is_high_surrogate uni); [|apply Hr2].
      destruct r2 as [|b [|u [|g1 [|g2 [|g3 [|g4 r3]]]]]]; try apply Hr2.
      destruct (char_eqb b BACKSLASH && (u =? 117)%N); [|apply Hr2].
      destruct (hex4 g1 g2 g3 g4) as [uni2|]; [|discriminate].
      destruct (is_low_surrogate uni2); [|apply Hr2].
      intros H. eapply push_length; [exact H|].
      intros v' r'. apply IH'. subst n. simpl. lia.
    + destruct (unescape e) as [ch|]; [|discriminate].
      intros H. eapply push_length; [exact H|].
      intros v' r'. apply IH'. subst n. simpl. lia.
  - destruct (c <? 32)%N; [discriminate|].
    intros H. eapply push_length; [exact H|].
    intros v' r'. apply IH'. subst n. simpl. lia.
Qed.

Lemma span_digits_length (s d t : str) :
  span_digits s = (d, t) -> length t <= length s.
Proof.
  revert d t. induction s as [|c s IH]; simpl; intros d t H.
  - inversion H. simpl. lia.
  - destruct (is_digit c).
    + destruct (span_digits s) as [d' t']. inversion H. subst.
      pose proof (IH d' t eq_refl). lia.
    + inversion H. simpl. lia.
Qed.

Lemma match_frac_length (s f t : str) :
  match_frac s = (f, t) -> length t <= length s.
Proof.
  unfold match_frac. destruct s as [|dot [|d r]];
    try (intros H; inversion H; simpl; lia).
  destruct ((dot =? 46)%N && is_digit d).
  - destruct (span_digits r) as [ds t'] eqn:E. intros H. inversion H. subst.
    pose proof (@span_digits_length _ _ _ E). simpl. lia.
  - intros H. inversion H. simpl. lia.
Qed.

Lemma match_exp_length (s f t : str) :
  match_exp s = (f, t) -> length t <= length s.
Proof.
  unfold match_exp. destruct s as [|e r]; [intros H; inversion H; simpl; lia|].
  destruct ((e =? 101) || (e =? 69))%N; [|intros H; inversion H; simpl; lia].
  destruct r as [|sg [|d r']]; try (intros H; inversion H; simpl; lia).
  - destruct (is_digit sg); intros H; inversion H; simpl; lia.
  - destruct ((sg =? 43) || (sg =? 45))%N.
    + destruct (is_digit d); [|intros H; inversion H; simpl; lia].
      destruct (span_digits r') as [ds t'] eqn:E. intros H. inversion H. subst.
      pose proof (@span_digits_length _ _ _ E). simpl. lia.
    + destruct (is_digit sg); [|intros H; inversion H; simpl; lia].
      destruct (span_digits (d :: r')) as [ds t'] eqn:E.
      intros H. inversion H. subst.
      pose proof (@span_digits_length _ _ _ E). simpl in *. lia.
Qed.

Lemma match_number_length (s : str) (v : JSON) (r : str) :
  match_number s = Some (v, r) -> length r < length s.
Proof.
  unfold match_number.
  assert (Hint : forall s1 ip s2, match_int_part s1 = Some (ip, s2) ->
                                  length s2 < length s1).
  { intros s1 ip s2. unfold match_int_part. destruct s1 as [|c r1]; [discriminate|].
    destruct (c =? 48)%N; [intros H; inversion H; simpl; lia|].
    destruct (is_digit c); [|discriminate].
    destruct (span_digits r1) as [d t] eqn:E. intros H. inversion H. subst.
    pose proof (@span_digits_length _ _ _ E). simpl. lia. }
  set (sg := match s with
             | [] => (false, s)
             | c :: r0 => if char_eqb c MINUS then (true, r0) else (false, s)
             end).
  assert (Hsg : length (snd sg) <= length s).
  { unfold sg. destruct s as [|c r0]; simpl; [lia|].
    destruct (char_eqb c MINUS); simpl; lia. }
  destruct sg as [negative s1]. simpl in Hsg.
  destruct (match_int_part s1) as [[ip s2]|] eqn:E1; [|discriminate].
  destruct (match_frac s2) as [fp s3] eqn:E2.
  destruct (match_exp s3) as [ep s4] eqn:E3.
  pose proof (Hint _ _ _ E1). pose proof (@match_frac_length _ _ _ E2).
  pose proof (@match_exp_length _ _ _ E3).
  destruct fp; destruct ep; intros H'; inversion H'; subst; lia.
Qed.

Lemma skipn_shorter (k : nat) (c : char) (s : str) :
  0 < k -> length (skipn k (c :: s)) < length (c :: s).
Proof. intros Hk. rewrite length_skipn. cbn [length]. lia. Qed.

(** A scanned value takes at least one character. *)
Lemma scan_length (fuel : nat) :
  (forall s v r, scan_once fuel s = Scanned v r -> length r < length s)
  /\ (forall s acc v r,
        scan_object fuel s acc = Scanned v r -> length r < length s)
  /\ (forall s acc v r,
        scan_array fuel s acc = Scanned v r -> length r < length s).
Proof.
  induction fuel as [|fuel [IH1 [IH2 IH3]]];
    [repeat split; intros; discriminate|].
  split; [|split].
  - intros s v r. cbn [scan_once]. destruct s as [|c rest]; [discriminate|].
    destruct (char_eqb c DQUOTE).
    { destruct (scanstring rest) as [[w r0]|] eqn:E; [|discriminate].
      intros H. inversion H. subst.
      pose proof (@scanstring_length _ _ _ E). simpl. lia. }
    pose proof (skip_ws_length rest) as Hws.
    destruct (char_eqb c LBRACE).
    { destruct (skip_ws rest) as [|c' r'] eqn:E; [discriminate|].
      destruct (char_eqb c' RBRACE).
      - intros H. inversion H. subst. simpl in *. lia.
      - intros H. apply IH2 in H. simpl in *. lia. }
    destruct (char_eqb c LBRACKET).
    { destruct (skip_ws rest) as [|c' r'] eqn:E; [discriminate|].
      destruct (char_eqb c' RBRACKET).
      - intros H. inversion H. subst. simpl in *. lia.
      - intros H. apply IH3 in H. simpl in *. lia. }
    repeat match goal with
           | |- context [if startswith ?l ?t then _ else _] =>
               destruct (startswith l t);
               [intros H;
                match type of H with
                | Scanned _ ?x = _ =>
                    assert (Hr : r = x) by congruence; rewrite Hr;
                    apply skipn_shorter; lia
                end|]
           end.
    unfold scan_number.
    destruct (match_number (c :: rest)) as [[w r0]|] eqn:E; [|discriminate].
    intros H. inversion H. subst. exact (@match_number_length _ _ _ E).
  - intros s acc v r. cbn [scan_object].
    destruct s as [|c rest]; [discriminate|].
    destruct (char_eqb c DQUOTE); [|discriminate].
    destruct (scanstring rest) as [[key r0]|] eqn:E; [|discriminate].
    pose proof (@scanstring_length _ _ _ E) as L0.
    pose proof (skip_ws_length r0) as L1.
    destruct (skip_ws r0) as [|c2 r2]; [discriminate|].
    destruct (char_eqb c2 COLON); [|discriminate].
    pose proof (skip_ws_length r2) as L2.
    destruct (scan_once fuel (skip_ws r2)) as [w r3| |] eqn:E3;
      try discriminate.
    apply IH1 in E3. pose proof (skip_ws_length r3) as L3.
    destruct (skip_ws r3) as [|c4 r4]; [discriminate|].
    destruct (char_eqb c4 RBRACE).
    + intros H. inversion H. subst. simpl in *. lia.
    + destruct (char_eqb c4 COMMA); [|discriminate].
      intros H. apply IH2 in H. pose proof (skip_ws_length r4).
      simpl in *. lia.
  - intros s acc v r. cbn [scan_array].
    destruct (scan_once fuel s) as [w r0| |] eqn:E; try discriminate.
    apply IH1 in E. pose proof (skip_ws_length r0) as L0.
    destruct (skip_ws r0) as [|c r']; [discriminate|].
    destruct (char_eqb c RBRACKET).
    + intros H. inversion H. subst. simpl in *. lia.
    + destruct (char_eqb c COMMA); [|discriminate].
      intros H. apply IH3 in H. pose proof (skip_ws_length r').
      simpl in *. lia.
Qed.

(** With a budget of more than twice the length of the text the scanner
    never runs out of it. *)
Lemma scan_budget (fuel : nat) :
  (forall s, 2 * length s < fuel -> scan_once fuel s <> Exhausted)
  /\ (forall s acc,
        2 * length s + 1 < fuel -> scan_object fuel s acc <> Exhausted)
  /\ (forall s acc,
        2 * length s + 1 < fuel -> scan_array fuel s acc <> Exhausted).
Proof.
  induction fuel as [|fuel [IH1 [IH2 IH3]]];
    [repeat split; intros; lia|].
  split; [|split].
  - intros s Hf. cbn [scan_once]. destruct s as [|c rest]; [discriminate|].
    destruct (char_eqb c DQUOTE).
    { destruct (scanstring rest) as [[w r0]|]; discriminate. }
    pose proof (skip_ws_length rest) as Hws.
    destruct (char_eqb c LBRACE).
    { destruct (skip_ws rest) as [|c' r'] eqn:E; [discriminate|].
      destruct (char_eqb c' RBRACE); [discriminate|].
      apply IH2. simpl in *. lia. }
    destruct (char_eqb c LBRACKET).
    { destruct (skip_ws rest) as [|c' r'] eqn:E; [discriminate|].
      destruct (char_eqb c' RBRACKET); [discriminate|].
      apply IH3. simpl in *. lia. }
    repeat match goal with
           | |- context [if startswith ?l ?t then _ else _] =>
               destruct (startswith l t); [discriminate|]
           end.
    unfold scan_number. destruct (match_number (c :: rest)) as [[w r0]|];
      discriminate.
  - intros s acc Hf. cbn [scan_object].
    destruct s as [|c rest]; [discriminate|].
    destruct (char_eqb c DQUOTE); [|discriminate].
    destruct (scanstring rest) as [[key r0]|] eqn:E; [|discriminate].
    pose proof (@scanstring_length _ _ _ E) as L0.
    pose proof (skip_ws_length r0) as L1.
    destruct (skip_ws r0) as [|c2 r2]; [discriminate|].
    destruct (char_eqb c2 COLON); [|discriminate].
    pose proof (skip_ws_length r2) as L2.
    assert (B : scan_once fuel (skip_ws r2) <> Exhausted)
      by (apply IH1; simpl in *; lia).
    destruct (scan_once fuel (skip_ws r2)) as [w r3| |] eqn:E3;
      [|discriminate|contradiction].
    apply (proj1 (scan_length fuel)) in E3.
    pose proof (skip_ws_length r3) as L3.
    destruct (skip_ws r3) as [|c4 r4]; [discriminate|].
    destruct (char_eqb c4 RBRACE); [discriminate|].
    destruct (char_eqb c4 COMMA); [|discriminate].
    apply IH2. pose proof (skip_ws_length r4). simpl in *. lia.
  - intros s acc Hf. cbn [scan_array].
    assert (B : scan_once fuel s <> Exhausted) by (apply IH1; lia).
    destruct (scan_once fuel s) as [w r0| |] eqn:E;
      [|discriminate|contradiction].
    apply (proj1 (scan_length fuel)) in E.
    pose proof (skip_ws_length r0) as L0.
    destruct (skip_ws r0) as [|c r']; [discriminate|].
    destruct (char_eqb c RBRACKET); [discriminate|].
    destruct (char_eqb c COMMA); [|discriminate].
    apply IH3. pose proof (skip_ws_length r'). simpl in *. lia.
Qed.

(** More budget does not change a result. *)
Lemma scan_mono (fuel : nat) :
  forall fuel', fuel <= fuel' ->
  (forall s, scan_once fuel s <> Exhausted ->
             scan_once fuel' s = scan_once fuel s)
  /\ (forall s acc, scan_object fuel s acc <> Exhausted ->
                    scan_object fuel' s acc = scan_object fuel s acc)
  /\ (forall s acc, scan_array fuel s acc <> Exhausted ->
                    scan_array fuel' s acc = scan_array fuel s acc).
Proof.
  induction fuel as [|fuel IH]; intros fuel' Hle.
  { repeat split; intros; exfalso; auto. }
  destruct fuel' as [|fuel']; [lia|].
  destruct (IH fuel' ltac:(lia)) as [IH1 [IH2 IH3]].
  split; [|split].
  - intros s. cbn [scan_once]. destruct s as [|c rest]; [reflexivity|].
    destruct (char_eqb c DQUOTE); [reflexivity|].
    destruct (char_eqb c LBRACE).
    { destruct (skip_ws rest) as [|c' r']; [reflexivity|].
      destruct (char_eqb c' RBRACE); [reflexivity|]. apply IH2. }
    destruct (char_eqb c LBRACKET).
    { destruct (skip_ws rest) as [|c' r']; [reflexivity|].
      destruct (char_eqb c' RBRACKET); [reflexivity|]. apply IH3. }
    reflexivity.
  - intros s acc. cbn [scan_object].
    destruct s as [|c rest]; [reflexivity|].
    destruct (char_eqb c DQUOTE); [|reflexivity].
    destruct (scanstring rest) as [[key r0]|]; [|reflexivity].
    destruct (skip_ws r0) as [|c2 r2]; [reflexivity|].
    destruct (char_eqb c2 COLON); [|reflexivity].
    destruct (scan_once fuel (skip_ws r2)) as [w r3| |] eqn:E3.
    + rewrite IH1, E3 by (rewrite E3; discriminate).
      destruct (skip_ws r3) as [|c4 r4]; [reflexivity|].
      destruct (char_eqb c4 RBRACE); [reflexivity|].
      destruct (char_eqb c4 COMMA); [|reflexivity]. apply IH2.
    + rewrite IH1, E3 by (rewrite E3; discriminate). reflexivity.
    + intros H. now contradiction H.
  - intros s acc. cbn [scan_array].
    destruct (scan_once fuel s) as [w r0| |] eqn:E.
    + rewrite IH1, E by (rewrite E; discriminate).
      destruct (skip_ws r0) as [|c r']; [reflexivity|].
      destruct (char_eqb c RBRACKET); [reflexivity|].
      destruct (char_eqb c COMMA); [|reflexivity]. apply IH3.
    + rewrite IH1, E by (rewrite E; discriminate). reflexivity.
    + intros H. now contradiction H.
Qed.

Lemma follows_ends_number (rest : str) : follows rest -> ends_number rest.
Proof.
  destruct rest as [|c r]; [trivial|].
  intros [-> | [-> | ->]]; repeat split; discriminate.
Qed.

Lemma skip_ws_head (c : char) (t : str) :
  json_ws c = false -> skip_ws (c :: t) = c :: t.
Proof. intros H. cbn [skip_ws]. now rewrite H. Qed.

Lemma skip_ws_space (s : str) : skip_ws (SPACE :: s) = skip_ws s.
Proof. reflexivity. Qed.

Lemma digit_head_dispatch (c : char) (t : str) :
  is_digit c = true ->
  char_eqb c DQUOTE = false /\ char_eqb c LBRACE = false
  /\ char_eqb c LBRACKET = false /\ char_eqb c MINUS = false
  /\ json_ws c = false /\ char_eqb c RBRACKET = false
  /\ startswith NULL (c :: t) = false /\ startswith TRUE (c :: t) = false
  /\ startswith FALSE (c :: t) = false /\ startswith NAN (c :: t) = false
  /\ startswith INFINITY (c :: t) = false
  /\ startswith NEG_INFINITY (c :: t) = false
  /\ char_eqb 73%N c = false.
Proof.
  unfold is_digit. intros H. n_bools.
  assert (E : forall k, (k < 48 \/ 57 < k)%N -> char_eqb c k = false
                                              /\ char_eqb k c = false).
  { intros k Hk. split; apply N.eqb_neq; lia. }
  unfold json_ws, NULL, TRUE, FALSE, NAN, INFINITY, NEG_INFINITY.
  cbn [startswith].
  repeat split;
    try (apply E; unfold DQUOTE, LBRACE, LBRACKET, MINUS, RBRACKET; lia);
    try (match goal with
         | |- (char_eqb ?k c && _)%bool = false =>
             let Hk := fresh in
             assert (Hk : char_eqb k c = false) by (apply E; lia);
             rewrite Hk; reflexivity
         end).
  repeat (apply orb_false_iff; split); apply N.eqb_neq; lia.
Qed.

Lemma scan_once_number (fuel : nat) (s : str) :
  (exists c t, s = c :: t /\ is_digit c = true)
  \/ (exists c t, s = MINUS :: c :: t /\ is_digit c = true) ->
  scan_once (S fuel) s = scan_number s.
Proof.
  intros [[c [t [-> Hc]]]|[c [t [-> Hc]]]].
  - destruct (@digit_head_dispatch c t Hc)
      as [H1 [H2 [H3 [_ [_ [_ [H4 [H5 [H6 [H7 [H8 [H9 _]]]]]]]]]]]].
    cbn [scan_once]. now rewrite H1, H2, H3, H4, H5, H6, H7, H8, H9.
  - destruct (@digit_head_dispatch c t Hc) as [_ [_ [_ [_ [_ [_ [_ [_ [_ [_ [_ [_ H]]]]]]]]]]]].
    cbn [scan_once].
    change (char_eqb MINUS DQUOTE) with false.
    change (char_eqb MINUS LBRACE) with false.
    change (char_eqb MINUS LBRACKET) with false.
    cbv iota.
    change (startswith NULL (MINUS :: c :: t)) with false.
    change (startswith TRUE (MINUS :: c :: t)) with false.
    change (startswith FALSE (MINUS :: c :: t)) with false.
    change (startswith NAN (MINUS :: c :: t)) with false.
    change (startswith INFINITY (MINUS :: c :: t)) with false.
    cbv iota.
    unfold NEG_INFINITY. cbn [startswith].
    change (char_eqb 45%N MINUS) with true. rewrite H. reflexivity.
Qed.

Lemma str_of_int_head (n : Z) :
  (exists c t, str_of_int n = c :: t /\ is_digit c = true)
  \/ (exists c t, str_of_int n = MINUS :: c :: t /\ is_digit c = true).
Proof.
  unfold str_of_int. destruct n as [|p|p]; cbn [Z.to_int].
  - left. exists 48%N, []. split; reflexivity.
  - destruct (to_uint_head p) as [c [ds [E [Hc _]]]].
    left. exists c, ds. now split.
  - destruct (to_uint_head p) as [c [ds [E [Hc _]]]].
    right. exists c, ds. rewrite E. now split.
Qed.

Lemma scan_once_int (fuel : nat) (n : Z) (rest : str) :
  follows rest ->
  scan_once (S fuel) (str_of_int n ++ rest) = Scanned (JInt n) rest.
Proof.
  intros Hrest. rewrite scan_once_number.
  - unfold scan_number.
    now rewrite (@match_number_int n rest (follows_ends_number _ Hrest)).
  - destruct (str_of_int_head n) as [[c [t [-> Hc]]]|[c [t [-> Hc]]]].
    + left. exists c, (t ++ rest). now split.
    + right. exists c, (t ++ rest). now split.
Qed.

Section RoundTrip.

Variable rt : runtime.
Variable ea : bool.

Lemma dumps_head (v : JSON) :
  canonical ea v = true ->
  exists c t, json_dumps rt ea v = c :: t
              /\ json_ws c = false /\ char_eqb c RBRACKET = false.
Proof.
  destruct v as [|[|]|n|l|s|l|d]; cbn [canonical json_dumps]; intros Hc;
    try discriminate;
    try (eexists _, _; split; [reflexivity|]; split; reflexivity).
  destruct (str_of_int_head n) as [[c [t [-> Hd]]]|[c [t [-> Hd]]]].
  - exists c, t.
    destruct (@digit_head_dispatch c t Hd) as [_ [_ [_ [_ [H1 [H2 _]]]]]].
    auto.
  - eexists _, _; split; [reflexivity|]; split; reflexivity.
Qed.

Lemma skip_ws_dumps (v : JSON) (rest : str) :
  canonical ea v = true ->
  skip_ws (json_dumps rt ea v ++ rest) = json_dumps rt ea v ++ rest.
Proof.
  intros Hc. destruct (dumps_head v Hc) as [c [t [-> [Hws _]]]].
  cbn [app]. now apply skip_ws_head.
Qed.

Lemma skip_ws_comma (s : str) : skip_ws (COMMA :: s) = COMMA :: s.
Proof. reflexivity. Qed.

Lemma skip_ws_colon (s : str) : skip_ws (COLON :: s) = COLON :: s.
Proof. reflexivity. Qed.

Lemma skip_ws_closing (s : str) :
  skip_ws (RBRACKET :: s) = RBRACKET :: s
  /\ skip_ws (RBRACE :: s) = RBRACE :: s.
Proof. split; reflexivity. Qed.

Lemma join_map_two {A : Type} (f : A -> str) (x y : A) (l : list A) :
  join_map f (x :: y :: l) = f x ++ ITEM_SEP ++ join_map f (y :: l).
Proof. reflexivity. Qed.

Lemma join_map_one {A : Type} (f : A -> str) (x : A) :
  join_map f [x] = f x.
Proof. cbn. apply app_nil_r. Qed.

Lemma array_loop (l : list JSON) :
  Forall (fun x => canonical ea x = true /\ reads_back rt ea x) l -> l <> [] ->
  forall acc rest,
  exists n, forall fuel, n <= fuel ->
    scan_array fuel (join_map (json_dumps rt ea) l ++ RBRACKET :: rest) acc
    = Scanned (JList (acc ++ l)) rest.
Proof.
  induction 1 as [|x l [Hcx Hx] Hl IH]; intros Hne acc rest;
    [now contradiction Hne|].
  destruct l as [|y l].
  - rewrite join_map_one.
    destruct (Hx (RBRACKET :: rest)) as [n Hn]; [right; now left|].
    exists (S n). intros [|fuel] Hf; [lia|].
    cbn [scan_array]. rewrite Hn by lia. reflexivity.
  - rewrite join_map_two, <- !app_assoc.
    destruct (Hx (ITEM_SEP ++ join_map (json_dumps rt ea) (y :: l)
                  ++ RBRACKET :: rest)) as [n1 Hn1]; [now left|].
    destruct (IH ltac:(discriminate) (acc ++ [x]) rest) as [n2 Hn2].
    exists (S (Nat.max n1 n2)). intros [|fuel] Hf; [lia|].
    cbn [scan_array]. rewrite Hn1 by lia.
    unfold ITEM_SEP. cbn [app].
    rewrite skip_ws_comma.
    change (char_eqb COMMA RBRACKET) with false.
    change (char_eqb COMMA COMMA) with true. cbv iota.
    rewrite skip_ws_space.
    inversion Hl as [|? ? [Hcy _] _]; subst.
    cbn [join_map]. rewrite <- app_assoc.
    rewrite (skip_ws_dumps _ _ Hcy). rewrite app_assoc.
    change (json_dumps rt ea y ++
            match l with
            | [] => []
            | _ :: _ => ITEM_SEP ++ join_map (json_dumps rt ea) l
            end) with (join_map (json_dumps rt ea) (y :: l)).
    rewrite Hn2 by lia. now rewrite <- app_assoc.
Qed.

Lemma member_eq (k : str) (x : JSON) (tail : str) :
  member rt ea (k, x) ++ tail
  = DQUOTE :: flat_map (escape_char ea) k
    ++ DQUOTE :: COLON :: SPACE :: json_dumps rt ea x ++ tail.
Proof.
  unfold member, encode_string, KEY_SEP. cbn [fst snd app].
  now rewrite <- !app_assoc.
Qed.

Lemma keys_unique_fresh (acc : list (str * JSON)) (k : str) (ks : list str) :
  keys_unique (map fst acc ++ k :: ks) = true ->
  forall k', In k' (map fst acc) -> str_eqb k' k = false.
Proof.
  induction acc as [|[k0 w] acc IH]; cbn [map fst app keys_unique];
    intros H k' Hin; [contradiction|].
  apply andb_true_iff in H. destruct H as [H1 H2].
  destruct Hin as [<-|Hin]; [|now apply IH].
  apply negb_true_iff in H1.
  destruct (str_eqb k0 k) eqn:E; [|reflexivity].
  rewrite <- H1. symmetry. apply existsb_exists. exists k.
  split; [apply in_or_app; right; now left|assumption].
Qed.

Lemma dict_set_fresh (acc : list (str * JSON)) (k : str) (x : JSON) :
  (forall k', In k' (map fst acc) -> str_eqb k' k = false) ->
  dict_set acc k x = acc ++ [(k, x)].
Proof.
  induction acc as [|[k0 w] acc IH]; cbn [dict_set app map fst];
    intros H; [reflexivity|].
  rewrite (H k0 (or_introl eq_refl)). f_equal. apply IH.
  intros k' Hin. apply H. now right.
Qed.

Lemma object_loop (d : list (str * JSON)) :
  Forall (fun kv => text_ok ea (fst kv) = true
                    /\ canonical ea (snd kv) = true
                    /\ reads_back rt ea (snd kv)) d ->
  d <> [] ->
  forall acc rest,
  keys_unique (map fst (acc ++ d)) = true ->
  exists n, forall fuel, n <= fuel ->
    scan_object fuel (join_map (member rt ea) d ++ RBRACE :: rest) acc
    = Scanned (JDict (acc ++ d)) rest.
Proof.
  induction 1 as [|[k x] d [Hk [Hcx Hx]] Hd IH]; intros Hne acc rest Hu;
    [now contradiction Hne|].
  cbn [fst snd] in *.
  assert (Hset : dict_set acc k x = acc ++ [(k, x)]).
  { apply dict_set_fresh. rewrite map_app in Hu.
    exact (keys_unique_fresh acc k (map fst d) Hu). }
  destruct d as [|kv d].
  - rewrite join_map_one, member_eq.
    destruct (Hx (RBRACE :: rest)) as [n Hn]; [right; now right|].
    exists (S n). intros [|fuel] Hf; [lia|].
    cbn [scan_object]. change (char_eqb DQUOTE DQUOTE) with true. cbv iota.
    rewrite (scanstring_encode _ _ _ Hk), skip_ws_colon.
    change (char_eqb COLON COLON) with true. cbv iota.
    rewrite skip_ws_space, (skip_ws_dumps _ _ Hcx), Hn by lia.
    cbv zeta. rewrite Hset. reflexivity.
  - rewrite join_map_two, <- !app_assoc, member_eq.
    destruct (Hx (ITEM_SEP ++ join_map (member rt ea) (kv :: d) ++ RBRACE :: rest))
      as [n1 Hn1]; [now left|].
    destruct (IH ltac:(discriminate) (acc ++ [(k, x)]) rest) as [n2 Hn2].
    { now rewrite <- app_assoc. }
    exists (S (Nat.max n1 n2)). intros [|fuel] Hf; [lia|].
    cbn [scan_object]. change (char_eqb DQUOTE DQUOTE) with true. cbv iota.
    rewrite (scanstring_encode _ _ _ Hk), skip_ws_colon.
    change (char_eqb COLON COLON) with true. cbv iota.
    rewrite skip_ws_space, (skip_ws_dumps _ _ Hcx), Hn1 by lia.
    cbv zeta. rewrite Hset.
    unfold ITEM_SEP at 1. cbn [app]. rewrite skip_ws_comma.
    change (char_eqb COMMA RBRACE) with false.
    change (char_eqb COMMA COMMA) with true. cbv iota.
    rewrite skip_ws_space.
    assert (Hws : skip_ws (join_map (member rt ea) (kv :: d) ++ RBRACE :: rest)
                  = join_map (member rt ea) (kv :: d) ++ RBRACE :: rest).
    { destruct kv as [k' x']. cbn [join_map]. rewrite <- app_assoc.
      rewrite member_eq. reflexivity. }
    rewrite Hws, Hn2 by lia. now rewrite <- app_assoc.
Qed.

(** Every canonical value is scanned back from its serialization. *)
Lemma scan_once_dumps (v : JSON) : canonical ea v = true -> reads_back rt ea v.
Proof.
  induction v as [|b|n|l|s|l IH|d IH] using JSON_induction;
    cbn [canonical]; intros Hc rest Hrest; try discriminate.
  - exists 1. intros [|fuel] Hf; [lia|]. reflexivity.
  - exists 1. intros [|fuel] Hf; [lia|]. now destruct b.
  - exists 1. intros [|fuel] Hf; [lia|]. now apply scan_once_int.
  - exists 1. intros [|fuel] Hf; [lia|].
    cbn [json_dumps]. unfold encode_string. cbn [app scan_once].
    change (char_eqb DQUOTE DQUOTE) with true. cbv iota.
    rewrite <- app_assoc. cbn [app].
    now rewrite (scanstring_encode _ _ _ Hc).
  - assert (Hall : Forall (fun x => canonical ea x = true /\ reads_back rt ea x) l).
    { rewrite forallb_forall in Hc. rewrite Forall_forall in *.
      intros x Hin. split; [now apply Hc | apply IH; auto]. }
    cbn [json_dumps app]. rewrite <- app_assoc. cbn [app].
    destruct l as [|x l].
    + exists 1. intros [|fuel] Hf; [lia|]. reflexivity.
    + destruct (array_loop Hall ltac:(discriminate) [] rest) as [n Hn].
      exists (S n). intros [|fuel] Hf; [lia|].
      cbn [scan_once].
      change (char_eqb LBRACKET DQUOTE) with false.
      change (char_eqb LBRACKET LBRACE) with false.
      change (char_eqb LBRACKET LBRACKET) with true. cbv iota.
      inversion Hall as [|? ? [Hcx _] _]; subst.
      assert (Hh : exists c t,
                 join_map (json_dumps rt ea) (x :: l) ++ RBRACKET :: rest
                 = c :: t /\ json_ws c = false
                   /\ char_eqb c RBRACKET = false).
      { destruct (dumps_head x Hcx) as [c [t [E [H1 H2]]]].
        cbn [join_map]. rewrite E. cbn [app]. eauto. }
      destruct Hh as [c [t [E [H1 H2]]]].
      specialize (Hn fuel ltac:(lia)). rewrite E in *.
      rewrite (@skip_ws_head c t H1), H2. exact Hn.
  - apply andb_true_iff in Hc. destruct Hc as [Hu Hc].
    assert (Hall : Forall (fun kv => text_ok ea (fst kv) = true
                                     /\ canonical ea (snd kv) = true
                                     /\ reads_back rt ea (snd kv)) d).
    { rewrite forallb_forall in Hc. rewrite Forall_forall in *.
      intros kv Hin. specialize (Hc kv Hin).
      apply andb_true_iff in Hc. destruct Hc as [H1 H2].
      repeat split; [assumption|assumption|apply IH; auto]. }
    cbn [json_dumps app]. rewrite <- app_assoc. cbn [app].
    destruct d as [|[k x] d].
    + exists 1. intros [|fuel] Hf; [lia|]. reflexivity.
    + destruct (object_loop Hall ltac:(discriminate) [] rest Hu) as [n Hn].
      exists (S n). intros [|fuel] Hf; [lia|].
      cbn [scan_once].
      change (char_eqb LBRACE DQUOTE) with false.
      change (char_eqb LBRACE LBRACE) with true. cbv iota.
      specialize (Hn fuel ltac:(lia)).
      change (join_map
                (fun kv => encode_string ea (fst kv) ++ KEY_SEP
                           ++ json_dumps rt ea (snd kv)))
        with (join_map (member rt ea)).
      assert (E : exists t,
                 join_map (member rt ea) ((k, x) :: d) ++ RBRACE :: rest
                 = DQUOTE :: t).
      { cbn [join_map]. rewrite <- app_assoc, member_eq. eauto. }
      destruct E as [t E]. rewrite E in *.
      rewrite (@skip_ws_head DQUOTE t eq_refl).
      change (char_eqb DQUOTE RBRACE) with false. cbv iota. exact Hn.
Qed.

End RoundTrip.

(** The budget that [json_loads] gives is never used up: a text is
    refused for its syntax only. *)
Lemma json_loads_budget (s : str) :
  scan_once (S (2 * length (skip_ws s))) (skip_ws s) <> Exhausted.
Proof. apply (proj1 (scan_budget _)). lia. Qed.

(** [json.loads(json.dumps(v)) == v] for a canonical [v]. *)
Lemma json_loads_dumps (rt : runtime) (ea : bool) (v : JSON) :
  canonical ea v = true -> json_loads (json_dumps rt ea v) = Return v.
Proof.
  intros Hc. unfold json_loads.
  set (s := json_dumps rt ea v).
  assert (Hs : skip_ws s = s).
  { pose proof (@skip_ws_dumps rt ea v [] Hc) as H.
    now rewrite app_nil_r in H. }
  rewrite Hs.
  destruct (@scan_once_dumps rt ea v Hc [] I) as [n Hn].
  fold s in Hn. rewrite app_nil_r in Hn.
  set (f0 := S (2 * length s)).
  assert (Hb : scan_once f0 s <> Exhausted)
    by (apply (proj1 (scan_budget f0)); unfold f0; lia).
  assert (Hle : f0 <= Nat.max f0 n) by lia.
  pose proof (proj1 (@scan_mono f0 (Nat.max f0 n) Hle) s Hb) as Hm.
  rewrite (Hn (Nat.max f0 n) ltac:(lia)) in Hm.
  rewrite <- Hm. reflexivity.
Qed.

(** ** Dicts read by the scanner have distinct keys *)

Lemma canonical_plain (v : JSON) :
  well_keyed v = true -> float_free v = true -> canonical false v = true.
Proof.
  induction v as [|b|n|l|s|l IH|d IH] using JSON_induction;
    cbn [well_keyed float_free canonical]; intros Hw Hf;
    try reflexivity; try discriminate.
  - rewrite forallb_forall in *. rewrite Forall_forall in IH.
    intros x Hin. apply IH; auto.
  - apply andb_true_iff in Hw. destruct Hw as [Hu Hw].
    rewrite Hu. cbn [andb].
    rewrite forallb_forall in *. rewrite Forall_forall in IH.
    intros kv Hin. cbn [text_ok negb orb andb]. apply IH; auto.
Qed.

Lemma existsb_dict_set (k key : str) (acc : list (str * JSON)) (v : JSON) :
  str_eqb k key = false ->
  existsb (str_eqb k) (map fst (dict_set acc key v))
  = existsb (str_eqb k) (map fst acc).
Proof.
  intros Hk. induction acc as [|[k0 w] acc IH]; cbn [dict_set map fst existsb].
  - now rewrite Hk.
  - destruct (str_eqb k0 key); cbn [map fst existsb]; [reflexivity|].
    now rewrite IH.
Qed.

Lemma keys_unique_dict_set (acc : list (str * JSON)) (key : str) (v : JSON) :
  keys_unique (map fst acc) = true ->
  keys_unique (map fst (dict_set acc key v)) = true.
Proof.
  induction acc as [|[k0 w] acc IH]; cbn [dict_set map fst keys_unique];
    intros H; [reflexivity|].
  apply andb_true_iff in H. destruct H as [H1 H2].
  destruct (str_eqb k0 key) eqn:E; cbn [map fst keys_unique].
  - now rewrite H1, H2.
  - rewrite existsb_dict_set by assumption. now rewrite H1, IH.
Qed.

Lemma well_keyed_dict_set (acc : list (str * JSON)) (key : str) (v : JSON) :
  forallb (fun kv => well_keyed (snd kv)) acc = true ->
  well_keyed v = true ->
  forallb (fun kv => well_keyed (snd kv)) (dict_set acc key v) = true.
Proof.
  intros Ha Hv. induction acc as [|[k0 w] acc IH];
    cbn [dict_set forallb snd] in *; [now rewrite Hv|].
  apply andb_true_iff in Ha. destruct Ha as [H1 H2].
  destruct (str_eqb k0 key); cbn [forallb snd].
  - now rewrite Hv, H2.
  - now rewrite H1, IH.
Qed.

Lemma scan_well_keyed (fuel : nat) :
  (forall s v r, scan_once fuel s = Scanned v r -> well_keyed v = true)
  /\ (forall s acc v r,
        scan_object fuel s acc = Scanned v r ->
        well_keyed (JDict acc) = true -> well_keyed v = true)
  /\ (forall s acc v r,
        scan_array fuel s acc = Scanned v r ->
        well_keyed (JList acc) = true -> well_keyed v = true).
Proof.
  induction fuel as [|fuel [IH1 [IH2 IH3]]];
    [repeat split; intros; discriminate|].
  split; [|split].
  - intros s v r. cbn [scan_once]. destruct s as [|c rest]; [discriminate|].
    destruct (char_eqb c DQUOTE).
    { destruct (scanstring rest) as [[w r0]|]; [|discriminate].
      intros H. inversion H. reflexivity. }
    destruct (char_eqb c LBRACE).
    { destruct (skip_ws rest) as [|c' r']; [discriminate|].
      destruct (char_eqb c' RBRACE).
      - intros H. inversion H. reflexivity.
      - intros H. now apply IH2 in H. }
    destruct (char_eqb c LBRACKET).
    { destruct (skip_ws rest) as [|c' r']; [discriminate|].
      destruct (char_eqb c' RBRACKET).
      - intros H. inversion H. reflexivity.
      - intros H. now apply IH3 in H. }
    repeat match goal with
           | |- context [if startswith ?l ?t then _ else _] =>
               destruct (startswith l t);
               [intros H; inversion H; reflexivity|]
           end.
    unfold scan_number, match_number.
    match goal with
    | |- context [let (negative, s1) := ?p in _] => destruct p as [ng s1]
    end.
    destruct (match_int_part s1) as [[ip s2]|]; [|discriminate].
    destruct (match_frac s2) as [fp s3]. destruct (match_exp s3) as [ep s4].
    destruct fp; destruct ep; intros H; inversion H; reflexivity.
  - intros s acc v r. cbn [scan_object].
    destruct s as [|c rest]; [discriminate|].
    destruct (char_eqb c DQUOTE); [|discriminate].
    destruct (scanstring rest) as [[key r0]|]; [|discriminate].
    destruct (skip_ws r0) as [|c2 r2]; [discriminate|].
    destruct (char_eqb c2 COLON); [|discriminate].
    destruct (scan_once fuel (skip_ws r2)) as [w r3| |] eqn:E3;
      try discriminate.
    apply IH1 in E3.
    destruct (skip_ws r3) as [|c4 r4]; [discriminate|].
    intros H Hacc.
    assert (Hacc' : well_keyed (JDict (dict_set acc key w)) = true).
    { cbn [well_keyed] in *. apply andb_true_iff in Hacc.
      destruct Hacc as [H1 H2]. apply andb_true_iff. split.
      - now apply keys_unique_dict_set.
      - now apply well_keyed_dict_set. }
    destruct (char_eqb c4 RBRACE).
    + inversion H. subst. exact Hacc'.
    + destruct (char_eqb c4 COMMA); [|discriminate].
      now apply IH2 in H.
  - intros s acc v r. cbn [scan_array].
    destruct (scan_once fuel s) as [w r0| |] eqn:E; try discriminate.
    apply IH1 in E.
    destruct (skip_ws r0) as [|c r']; [discriminate|].
    intros H Hacc.
    assert (Hacc' : well_keyed (JList (acc ++ [w])) = true).
    { cbn [well_keyed] in *. rewrite forallb_app, Hacc. cbn. now rewrite E. }
    destruct (char_eqb c RBRACKET).
    + inversion H. subst. exact Hacc'.
    + destruct (char_eqb c COMMA); [|discriminate].
      now apply IH3 in H.
Qed.

Lemma json_loads_well_keyed (s : str) (v : JSON) :
  json_loads s = Return v -> well_keyed v = true.
Proof.
  unfold json_loads.
  destruct (scan_once _ _) as [w r| |] eqn:E; try discriminate.
  destruct (skip_ws r); [|discriminate].
  intros H. inversion H. subst.
  exact (proj1 (scan_well_keyed _) _ _ _ E).
Qed.

(** ** The brace span *)

Lemma from_first_open_app (pre x : str) :
  ~ In LBRACE pre -> from_first_open (pre ++ LBRACE :: x) = Some x.
Proof.
  induction pre as [|c pre IH]; intros H; cbn [app from_first_open].
  - now rewrite char_eqb_refl.
  - destruct (char_eqb c LBRACE) eqn:E.
    + apply char_eqb_eq in E. subst. exfalso. apply H. now left.
    + apply IH. intros Hin. apply H. now right.
Qed.

Lemma upto_last_close_none (post : str) :
  ~ In RBRACE post -> upto_last_close post = None.
Proof.
  induction post as [|c post IH]; intros H; cbn [upto_last_close];
    [reflexivity|].
  rewrite IH by (intros Hin; apply H; now right).
  destruct (char_eqb c RBRACE) eqn:E; [|reflexivity].
  apply char_eqb_eq in E. subst. exfalso. apply H. now left.
Qed.

Lemma upto_last_close_app (mid post : str) :
  ~ In RBRACE post ->
  upto_last_close (mid ++ RBRACE :: post) = Some (mid ++ [RBRACE]).
Proof.
  intros H. induction mid as [|c mid IH]; cbn [app upto_last_close].
  - rewrite upto_last_close_none by assumption. now rewrite char_eqb_refl.
  - now rewrite IH.
Qed.

(** The match runs from the first opening to the last closing brace. *)
Lemma search_braces_span (pre mid post : str) :
  ~ In LBRACE pre -> ~ In RBRACE post ->
  search_braces (pre ++ LBRACE :: mid ++ RBRACE :: post)
  = Some (LBRACE :: mid ++ [RBRACE]).
Proof.
  intros H1 H2. unfold search_braces.
  rewrite from_first_open_app by assumption.
  now rewrite upto_last_close_app by assumption.
Qed.

Lemma strip_edges (c d : char) (mid : str) :
  isspace c = false -> isspace d = false ->
  strip (c :: mid ++ [d]) = c :: mid ++ [d].
Proof.
  intros Hc Hd. unfold strip, rstrip. cbn [lstrip]. rewrite Hc.
  change (c :: mid ++ [d]) with ((c :: mid) ++ [d]).
  rewrite rev_app_distr. cbn [rev app lstrip]. rewrite Hd.
  cbn [rev]. rewrite rev_app_distr, rev_involutive. reflexivity.
Qed.

(** ** Fences *)

Lemma startswith_head_ne (h c : char) (old s : str) :
  c <> h -> startswith (h :: old) (c :: s) = false.
Proof.
  intros H. cbn [startswith].
  destruct (char_eqb h c) eqn:E; [|reflexivity].
  apply char_eqb_eq in E. congruence.
Qed.

(** A text in which the first character of [old] does not occur is
    copied by [replace]. *)
Lemma replace_from_absent (h : char) (old new body rest : str) :
  ~ In h body ->
  replace_from (h :: old) new 0 (body ++ rest)
  = body ++ replace_from (h :: old) new 0 rest.
Proof.
  intros H. induction body as [|c body IH]; [reflexivity|].
  cbn [app replace_from].
  rewrite startswith_head_ne by (intros ->; apply H; now left).
  f_equal. apply IH. intros Hin. apply H. now right.
Qed.

Lemma strip_fences_json (body : str) :
  ~ In BACKTICK body ->
  strip_fences (FENCE_JSON ++ body ++ FENCE) = body.
Proof.
  intros H. unfold strip_fences.
  rewrite startswith_app. unfold replace.
  assert (E1 : replace_from FENCE_JSON [] 0 (FENCE_JSON ++ body ++ FENCE)
               = body ++ FENCE).
  { change (replace_from FENCE_JSON [] 0 (FENCE_JSON ++ body ++ FENCE))
      with (replace_from FENCE_JSON [] 0 (body ++ FENCE)).
    unfold FENCE_JSON at 1. rewrite replace_from_absent by assumption.
    reflexivity. }
  rewrite E1. unfold FENCE at 1.
  rewrite replace_from_absent by assumption.
  change (replace_from (96%N :: [96%N; 96%N]) [] 0 FENCE) with (@nil char).
  apply app_nil_r.
Qed.

Lemma strip_fences_bare (body : str) :
  ~ In BACKTICK body ->
  startswith FENCE_JSON (FENCE ++ body ++ FENCE) = false ->
  strip_fences (FENCE ++ body ++ FENCE) = body.
Proof.
  intros H Hj. unfold strip_fences. rewrite Hj, startswith_app.
  unfold replace.
  change (replace_from FENCE [] 0 (FENCE ++ body ++ FENCE))
    with (replace_from FENCE [] 0 (body ++ FENCE)).
  unfold FENCE at 1. rewrite replace_from_absent by assumption.
  change (replace_from (96%N :: [96%N; 96%N]) [] 0 FENCE) with (@nil char).
  apply app_nil_r.
Qed.

Lemma strip_fences_none (text : str) :
  startswith FENCE text = false -> strip_fences text = text.
Proof.
  intros H. unfold strip_fences. rewrite H.
  destruct (startswith FENCE_JSON text) eqn:E; [|reflexivity].
  apply startswith_iff in E. destruct E as [r ->].
  change (FENCE_JSON ++ r) with (FENCE ++ (lit "json" ++ r)) in H.
  now rewrite startswith_app in H.
Qed.

(** ** C6: what the extractor recovers *)

Lemma extract_recovers (text pre mid post : str) (obj : JSON) :
  strip_fences (strip text) = pre ++ LBRACE :: mid ++ RBRACE :: post ->
  ~ In LBRACE pre -> ~ In RBRACE post ->
  json_loads (LBRACE :: mid ++ [RBRACE]) = Return obj ->
  extract_json_from_response text = Return obj.
Proof.
  intros Ht H1 H2 Hl. unfold extract_json_from_response.
  rewrite Ht, search_braces_span by assumption.
  rewrite strip_edges by reflexivity.
  now apply try_loads_Return.
Qed.

Lemma scan_object_dict (fuel : nat) :
  forall s acc v r, scan_object fuel s acc = Scanned v r ->
                    exists d, v = JDict d.
Proof.
  induction fuel as [|fuel IH]; intros s acc v r; [discriminate|].
  cbn [scan_object]. destruct s as [|c rest]; [discriminate|].
  destruct (char_eqb c DQUOTE); [|discriminate].
  destruct (scanstring rest) as [[key r0]|]; [|discriminate].
  destruct (skip_ws r0) as [|c2 r2]; [discriminate|].
  destruct (char_eqb c2 COLON); [|discriminate].
  destruct (scan_once fuel (skip_ws r2)) as [w r3| |]; try discriminate.
  destruct (skip_ws r3) as [|c4 r4]; [discriminate|].
  destruct (char_eqb c4 RBRACE).
  - intros H. inversion H. eauto.
  - destruct (char_eqb c4 COMMA); [|discriminate]. apply IH.
Qed.

(** A text that starts with a brace parses to a dict, if it parses. *)
Lemma json_loads_brace (x : str) (obj : JSON) :
  json_loads (LBRACE :: x) = Return obj -> exists d, obj = JDict d.
Proof.
  unfold json_loads. change (skip_ws (LBRACE :: x)) with (LBRACE :: x).
  destruct (scan_once _ _) as [w r| |] eqn:E; try discriminate.
  destruct (skip_ws r); [|discriminate].
  intros H. inversion H. subst. cbn [scan_once] in E.
  change (char_eqb LBRACE DQUOTE) with false in E.
  change (char_eqb LBRACE LBRACE) with true in E. cbv iota in E.
  destruct (skip_ws x) as [|c' r']; [discriminate|].
  destruct (char_eqb c' RBRACE).
  - inversion E. eauto.
  - exact (scan_object_dict _ _ _ E).
Qed.

(** Extraction from the serialization of a dict gives the dict back. *)
Lemma extract_dumps_dict (rt : runtime) (ea : bool) (d : list (str * JSON)) :
  canonical ea (JDict d) = true ->
  extract_json_from_response (json_dumps rt ea (JDict d)) = Return (JDict d).
Proof.
  intros Hc. pose proof (json_loads_dumps rt ea (JDict d) Hc) as Hl.
  cbn [json_dumps] in *.
  set (m := join_map (fun kv => encode_string ea (fst kv) ++ KEY_SEP
                                ++ json_dumps rt ea (snd kv)) d) in *.
  apply (@extract_recovers _ [] m [] (JDict d)); try (intros []); try exact Hl.
  rewrite strip_edges by reflexivity. now apply strip_fences_none.
Qed.

(** C6 (amended). When the trimmed output, with every fence marker
    removed from it if it starts with one, is an object between a text
    without opening brace and a text without closing brace, the
    extractor recovers the object.  Extraction is idempotent on it: from
    the serialization of the recovered object without floats, made
    with [ensure_ascii=False], the same object is extracted, and so it
    is from the default serialization when the strings of the object
    are canonical. *)
Theorem extraction_recovers_and_is_idempotent (rt : runtime)
  (text pre mid post : str) (obj : JSON) :
  strip_fences (strip text) = pre ++ LBRACE :: mid ++ RBRACE :: post ->
  ~ In LBRACE pre -> ~ In RBRACE post ->
  json_loads (LBRACE :: mid ++ [RBRACE]) = Return obj ->
  extract_json_from_response text = Return obj
  /\ (float_free obj = true ->
      extract_json_from_response (json_dumps rt false obj) = Return obj)
  /\ (canonical true obj = true ->
      extract_json_from_response (json_dumps rt true obj) = Return obj).
Proof.
  intros Ht H1 H2 Hl.
  destruct (json_loads_brace _ Hl) as [d ->].
  split; [exact (extract_recovers _ _ _ _ Ht H1 H2 Hl)|]. split.
  - intros Hf. apply extract_dumps_dict.
    apply canonical_plain; [|assumption].
    exact (json_loads_well_keyed _ Hl).
  - apply extract_dumps_dict.
Qed.

(** An object between fences, with nothing but text without backtick
    and brace around it, is recovered. *)
Lemma fenced_object_recovered (text fence pre mid post : str) (obj : JSON) :
  strip text = fence ++ (pre ++ LBRACE :: mid ++ RBRACE :: post) ++ FENCE ->
  fence = FENCE_JSON
  \/ (fence = FENCE /\ startswith FENCE_JSON (strip text) = false) ->
  ~ In BACKTICK (pre ++ LBRACE :: mid ++ RBRACE :: post) ->
  ~ In LBRACE pre -> ~ In RBRACE post ->
  json_loads (LBRACE :: mid ++ [RBRACE]) = Return obj ->
  extract_json_from_response text = Return obj.
Proof.
  intros Ht Hfence Hb H1 H2 Hl.
  apply (@extract_recovers text pre mid post obj); try assumption.
  rewrite Ht. destruct Hfence as [-> | [-> Hj]].
  - now apply strip_fences_json.
  - apply strip_fences_bare; [assumption|]. now rewrite <- Ht.
Qed.

(** C6, as stated, fails: of an object between fences whose README
    holds a fence marker, as the prompt asks for, the extractor
    recovers another object, in which the marker is deleted. *)
Lemma fenced_object_with_inner_fence :
  let body := qlit "{'readme_content': '```bash'}" in
  let text := FENCE_JSON ++ NEWLINE :: body ++ NEWLINE :: FENCE in
  json_loads body = Return (JDict [(K_README_CONTENT, JStr (lit "```bash"))])
  /\ extract_json_from_response text
     = Return (JDict [(K_README_CONTENT, JStr (lit "bash"))])
  /\ extract_json_from_response text
     <> Return (JDict [(K_README_CONTENT, JStr (lit "```bash"))]).
Proof.
  cbv zeta. split; [reflexivity|].
  assert (E : extract_json_from_response
                (FENCE_JSON ++ NEWLINE :: qlit "{'readme_content': '```bash'}"
                 ++ NEWLINE :: FENCE)
              = Return (JDict [(K_README_CONTENT, JStr (lit "bash"))]))
    by reflexivity.
  split; [exact E|]. rewrite E. discriminate.
Qed.

(** Why the default serialization needs canonical strings: a lone high
    surrogate in the text before the escape of a low one is read as two
    characters, which [json.dumps] writes as two escapes and
    [json.loads] reads back as one character. *)
Lemma lone_surrogates_not_idempotent (rt : runtime) :
  let text := qlit "{'a': '" ++ 55357%N :: qlit "\ude80'}" in
  let obj := JDict [([97%N], JStr [55357%N; 56960%N])] in
  extract_json_from_response text = Return obj
  /\ canonical true obj = false
  /\ extract_json_from_response (json_dumps rt true obj)
     = Return (JDict [([97%N], JStr [128640%N])])
  /\ extract_json_from_response (json_dumps rt false obj) = Return obj.
Proof. repeat split. Qed.

(** Two objects in one output: the span from the first opening to the
    last closing brace is not JSON and nothing is recovered. *)
Lemma two_objects_not_recovered :
  extract_json_from_response (qlit "{'a': 1} {'b': 2}") = Return JNull.
Proof. reflexivity. Qed.


(* ================================================================= *)
(** * Part III: further properties of the code *)
(* ================================================================= *)

(** ** The streaming client: lines before and after the terminator *)

Lemma collect_contentless (line : bytes) (rest : list bytes)
  (broken : option exn) (acc : str) :
  contentless line -> collect (line :: rest) broken acc = collect rest broken acc.
Proof.
  intros [text [d [Hd [Hp [Hdone [Hl H]]]]]].
  destruct (startswith_data_nonempty _ Hd Hp) as [b [r ->]].
  cbn [collect]. rewrite Hd, Hp, Hdone. unfold add_delta.
  rewrite Hl. cbn [bind py_contains].
  destruct H as [Hc|[Hc|[f [choices [Hc H]]]]]; rewrite Hc.
  - reflexivity.
  - cbn [is_some bind py_getitem]. rewrite Hc. reflexivity.
  - cbn [is_some bind py_getitem]. rewrite Hc.
    cbn [bind py_len length Nat.ltb Nat.leb py_getitem0 py_get].
    destruct H as [Hf|[g [Hf Hg]]]; rewrite Hf.
    + reflexivity.
    + cbn [bind py_contains]. rewrite Hg. reflexivity.
Qed.

Lemma collect_carried (ls : list bytes) (s : str) :
  carried ls s ->
  forall rest broken acc,
    collect (ls ++ rest) broken acc = collect rest broken (acc ++ s).
Proof.
  induction 1 as [|line ls s Hq _ IH|line ls s Hq _ IH|line c ls s Hc _ IH];
    intros rest broken acc; cbn [app].
  - now rewrite app_nil_r.
  - rewrite (collect_quiet _ _ _ Hq). apply IH.
  - rewrite (collect_contentless _ _ _ Hq). apply IH.
  - rewrite (collect_carries _ _ _ Hc), IH. now rewrite app_assoc.
Qed.

Lemma query_groq_stream_body (p : provider) (status : N) (body : stream_body) :
  stream_reply p = Responds status body ->
  ((400 <=? status) && (status <? 600))%N = false ->
  query_groq_stream p
  = ([Post true], collect (sent_lines body) (broken_by body) []).
Proof.
  intros Hr Hst. unfold query_groq_stream. rewrite post_then_lift, Hr.
  unfold raise_for_status. now rewrite Hst.
Qed.

(** X1. In incremental mode, when the response ends without terminator
    and without error, the client returns the deltas of its lines
    concatenated in the order of arrival; empty lines, lines that are not
    data lines, lines whose payload is not JSON and chunks without
    content (no choice, or a first choice whose delta has no content)
    add nothing. *)
Theorem stream_returns_carried_deltas (p : provider) (status : N)
  (body : stream_body) (s : str) :
  stream_reply p = Responds status body ->
  ((400 <=? status) && (status <? 600))%N = false ->
  broken_by body = None ->
  carried (sent_lines body) s ->
  query_groq_stream p = ([Post true], Return s).
Proof.
  intros Hr Hst Hb Hc. rewrite (query_groq_stream_body p Hr Hst), Hb.
  pose proof (collect_carried Hc [] None []) as H.
  rewrite app_nil_r in H. now rewrite H.
Qed.

(** X2. The client stops at the terminator: what it returns is made of
    the lines before it alone.  The lines after it are not read, not
    even one that would make the client raise, and an error of the
    connection after it is not seen. *)
Theorem stream_stops_at_terminator (p : provider) (status : N)
  (before after : list bytes) (done : bytes) (broken : option exn) (s : str) :
  stream_reply p = Responds status (StreamBody (before ++ done :: after) broken) ->
  ((400 <=? status) && (status <? 600))%N = false ->
  carried before s ->
  terminator done ->
  query_groq_stream p = ([Post true], Return s).
Proof.
  intros Hr Hst Hc Ht. rewrite (query_groq_stream_body p Hr Hst).
  cbn [sent_lines broken_by].
  rewrite (collect_carried Hc), (collect_terminator _ _ _ Ht). reflexivity.
Qed.

(** X3. When the connection breaks before a terminator has arrived, the
    client raises the error of the connection and returns nothing of what
    it had accumulated; after a failed buffered call the request ends
    with the error event of that error. *)
Theorem stream_broken_connection_raises (rt : runtime) (p : provider)
  (user_prompt : str) (status : N) (ls : list bytes) (s : str) (e0 e : exn) :
  snd (buffered_attempt p) = Raise e0 ->
  stream_reply p = Responds status (StreamBody ls (Some e)) ->
  ((400 <=? status) && (status <? 600))%N = false ->
  carried ls s ->
  query_groq_stream p = ([Post true], Raise e)
  /\ yielded (event_stream rt p user_prompt)
     = [STATUS_GENERATING; STATUS_PROCESSING; error_for e].
Proof.
  intros Hb Hr Hst Hc.
  assert (Hq : query_groq_stream p = ([Post true], Raise e)).
  { rewrite (query_groq_stream_body p Hr Hst). cbn [sent_lines broken_by].
    pose proof (collect_carried Hc [] (Some e) []) as H.
    rewrite app_nil_r in H. now rewrite H. }
  split; [exact Hq|].
  assert (Hs : snd (query_groq_stream p) = Raise e) by now rewrite Hq.
  now rewrite (event_stream_failed rt p user_prompt Hb Hs).
Qed.

(** X4. When the provider answers both calls with an error status (400
    to 599), whatever the bodies, the request ends with the API_ERROR
    event after the two status events. *)
Theorem provider_error_status_is_api_error (rt : runtime) (p : provider)
  (user_prompt : str) (st1 st2 : N) (b1 : str) (b2 : stream_body) :
  complete_reply p = Responds st1 b1 ->
  stream_reply p = Responds st2 b2 ->
  ((400 <=? st1) && (st1 <? 600))%N = true ->
  ((400 <=? st2) && (st2 <? 600))%N = true ->
  event_stream rt p user_prompt
  = [Yield STATUS_GENERATING; Post false; Yield STATUS_PROCESSING; Post true;
     Yield ERROR_API].
Proof.
  intros H1 H2 E1 E2.
  assert (Hb : snd (buffered_attempt p) = raise HTTPError).
  { pose proof (buffered_attempt_failures p) as H. now rewrite H1, E1 in H. }
  assert (Hs : snd (query_groq_stream p) = raise HTTPError).
  { unfold query_groq_stream. rewrite post_then_lift, H2.
    unfold raise_for_status. now rewrite E2. }
  now rewrite (event_stream_failed rt p user_prompt Hb Hs).
Qed.

(** ** The orchestrator: more on its runs *)

(** The cleaned artifact of a parsed object. *)
Lemma clean_data_dict (rt : runtime) (d : list (str * JSON)) :
  exists n ds r,
    clean_data rt (JDict d)
    = Return (JDict [(K_REPOSITORY_NAME, JStr n); (K_DESCRIPTION, JStr ds);
                     (K_README_CONTENT, JStr r)]).
Proof.
  unfold clean_data. cbn [py_get].
  destruct (dict_get d K_REPOSITORY_NAME), (dict_get d K_DESCRIPTION),
    (dict_get d K_README_CONTENT); cbn [bind]; do 3 eexists; reflexivity.
Qed.

Lemma clean_data_shape (rt : runtime) (parsed clean : JSON) :
  clean_data rt parsed = Return clean ->
  exists n ds r,
    clean = JDict [(K_REPOSITORY_NAME, JStr n); (K_DESCRIPTION, JStr ds);
                   (K_README_CONTENT, JStr r)].
Proof.
  destruct parsed as [|b|z|l|s|l|d]; try discriminate. intros H.
  destruct (clean_data_dict rt d) as [n [ds [r E]]].
  exists n, ds, r. congruence.
Qed.

Lemma answer_clean (rt : runtime) (user_prompt text : str)
  (d : list (str * JSON)) (clean : JSON) :
  extract_json_from_response text = Return (JDict d) ->
  has_required_keys rt (JDict d) = Return true ->
  clean_data rt (JDict d) = Return clean ->
  answer rt user_prompt (JStr text)
  = [Yield (done_event (json_dumps rt false clean))].
Proof.
  intros He Hk Hc. unfold answer, respond, gbind, lift, except, yield.
  cbn [py_len as_text]. rewrite He, Hk, Hc. cbn [py_get].
  destruct (dict_get d K_REPOSITORY_NAME); reflexivity.
Qed.

Lemma event_stream_obtains (rt : runtime) (p : provider)
  (user_prompt text : str) :
  obtains p text ->
  exists statuses calls,
    (statuses = [STATUS_GENERATING]
     \/ statuses = [STATUS_GENERATING; STATUS_PROCESSING])
    /\ event_stream rt p user_prompt
       = Yield STATUS_GENERATING :: calls ++ answer rt user_prompt (JStr text)
    /\ yielded (event_stream rt p user_prompt)
       = statuses ++ yielded (answer rt user_prompt (JStr text)).
Proof.
  intros [Hb|[[e Hb] Hs]].
  - exists [STATUS_GENERATING], [Post false].
    rewrite (event_stream_buffered rt p user_prompt Hb). auto.
  - exists [STATUS_GENERATING; STATUS_PROCESSING],
      [Post false; Yield STATUS_PROCESSING; Post true].
    rewrite (event_stream_streamed rt p user_prompt Hb Hs). auto.
Qed.

(** X5. In either mode, when the extractor returns a falsy value or an
    object that lacks one of the three fields, the run ends with a done
    event that carries the fallback artifact: its README quotes the
    prompt, and its [raw_response] is the first 500 characters of the
    model output. *)
Theorem invalid_object_answered_with_fallback (rt : runtime) (p : provider)
  (user_prompt text : str) (parsed : JSON) :
  obtains p text ->
  extract_json_from_response text = Return parsed ->
  (py_truthy rt parsed = false
   \/ exists d key, parsed = JDict d /\ In key REQUIRED_KEYS
                    /\ dict_get d key = None) ->
  exists statuses,
    yielded (event_stream rt p user_prompt)
    = statuses
      ++ [done_event (json_dumps rt true (fallback_response user_prompt text))]
    /\ fallback_response user_prompt text
       = JDict [(K_REPOSITORY_NAME, JStr FALLBACK_NAME);
                (K_DESCRIPTION, JStr FALLBACK_DESCRIPTION);
                (K_README_CONTENT,
                 JStr (README_HEAD ++ user_prompt ++ README_TAIL));
                (K_RAW_RESPONSE, JStr (firstn 500 text));
                (K_NOTE, JStr FALLBACK_NOTE)]
    /\ length (firstn 500 text) <= 500.
Proof.
  intros Ho He H.
  destruct (event_stream_obtains rt user_prompt Ho)
    as [statuses [calls [_ [_ Hy]]]].
  exists statuses. rewrite Hy. split; [|split].
  - rewrite (answer_fallback rt user_prompt text He); [reflexivity|].
    destruct H as [H|[d [key [-> [Hin Hk]]]]].
    + now apply has_required_keys_falsy.
    + now apply has_required_keys_missing with key.
  - reflexivity.
  - apply firstn_le_length.
Qed.

(** X6. When the content of the buffered response is not a string, the
    run ends with the INTERNAL_ERROR event, and the streaming call is not
    made: the value is taken as it is, and the orchestrator fails on it
    outside of the inner [try]. *)
Theorem non_string_content_is_internal_error (rt : runtime) (p : provider)
  (user_prompt : str) (v : JSON) :
  snd (buffered_attempt p) = Return v ->
  (forall s, v <> JStr s) ->
  event_stream rt p user_prompt
  = [Yield STATUS_GENERATING; Post false; Yield ERROR_INTERNAL].
Proof.
  intros Hb Hv. rewrite (event_stream_buffered rt p user_prompt Hb).
  destruct v; try (exfalso; eapply Hv; reflexivity); reflexivity.
Qed.

(** X7. A run calls the provider once or twice: the buffered call
    first, and the streaming call after it exactly when the buffered
    attempt has raised. *)
Theorem provider_called_once_or_twice (rt : runtime) (p : provider)
  (user_prompt : str) :
  posts (event_stream rt p user_prompt)
  = match snd (buffered_attempt p) with
    | Return _ => [false]
    | Raise _ => [false; true]
    end.
Proof.
  destruct (snd (buffered_attempt p)) as [v|e] eqn:Hb.
  - rewrite (event_stream_buffered rt p user_prompt Hb).
    destruct (answer_cases rt user_prompt v) as [[data [_ ->]]|[e [_ ->]]];
      reflexivity.
  - destruct (snd (query_groq_stream p)) as [s|e'] eqn:Hs.
    + rewrite (event_stream_streamed rt p user_prompt Hb Hs).
      destruct (answer_cases rt user_prompt (JStr s))
        as [[data [_ ->]]|[e' [_ ->]]]; reflexivity.
    + now rewrite (event_stream_failed rt p user_prompt Hb Hs).
Qed.

(** X8. The terminal event depends on the text alone, not on the mode
    in which it was obtained: a run that gets a text from the streaming
    client ends with the event with which a run ends that gets the same
    text from the buffered call. *)
Theorem terminal_event_independent_of_mode (rt : runtime) (p q : provider)
  (user_prompt text : str) (e : exn) :
  snd (buffered_attempt p) = Return (JStr text) ->
  snd (buffered_attempt q) = Raise e ->
  snd (query_groq_stream q) = Return text ->
  exists terminal,
    yielded (event_stream rt p user_prompt) = [STATUS_GENERATING; terminal]
    /\ yielded (event_stream rt q user_prompt)
       = [STATUS_GENERATING; STATUS_PROCESSING; terminal].
Proof.
  intros Hp Hq Hs.
  rewrite (event_stream_buffered rt p user_prompt Hp),
    (event_stream_streamed rt q user_prompt Hq Hs).
  destruct (answer_cases rt user_prompt (JStr text))
    as [[data [_ ->]]|[e' [_ ->]]]; eexists; split; reflexivity.
Qed.

(** ** The payload of the done event *)

Lemma ascii_safe_app (a b : str) :
  ascii_safe a = true -> ascii_safe b = true ->
  pairs_up (last a 0%N) (hd 0%N b) = false ->
  ascii_safe (a ++ b) = true.
Proof.
  intros Ha Hb Hd. induction a as [|c a IH]; [exact Hb|].
  cbn [app ascii_safe] in *.
  apply andb_true_iff in Ha as [Ha Ha'].
  apply andb_true_iff in Ha as [Hc Hp].
  destruct a as [|c' a].
  - cbn [app last] in *. rewrite Hc, Hb, andb_true_r. cbn [andb].
    destruct b as [|d b]; [reflexivity|]. cbn [hd] in Hd. now rewrite Hd.
  - rewrite Hc, (IH Ha' Hd), andb_true_r. cbn [andb]. exact Hp.
Qed.

Lemma ascii_safe_firstn (n : nat) (s : str) :
  ascii_safe s = true -> ascii_safe (firstn n s) = true.
Proof.
  revert s. induction n as [|n IH]; intros [|c s] H; try reflexivity.
  cbn [firstn ascii_safe] in *.
  apply andb_true_iff in H as [H H'].
  apply andb_true_iff in H as [Hc Hp].
  rewrite Hc, (IH _ H'), andb_true_r. cbn [andb].
  destruct n as [|n]; [reflexivity|].
  destruct s as [|d s]; [reflexivity|exact Hp].
Qed.

(** X9. The payload of a done event with a cleaned artifact is read
    back by [json.loads] as that artifact: an object with the three
    fields, whose values are strings. *)
Theorem cleaned_payload_reads_back (rt : runtime) (parsed clean : JSON) :
  clean_data rt parsed = Return clean ->
  json_loads (json_dumps rt false clean) = Return clean
  /\ exists n ds r,
       clean = JDict [(K_REPOSITORY_NAME, JStr n); (K_DESCRIPTION, JStr ds);
                      (K_README_CONTENT, JStr r)].
Proof.
  intros H. destruct (clean_data_shape rt parsed H) as [n [ds [r ->]]].
  split; [|now exists n, ds, r].
  apply json_loads_dumps. reflexivity.
Qed.

(** X10. The payload of a done event with the fallback artifact is read
    back as that artifact, when neither the prompt nor the model output
    holds a high surrogate right before a low one. *)
Theorem fallback_payload_reads_back (rt : runtime) (user_prompt text : str) :
  ascii_safe user_prompt = true ->
  ascii_safe text = true ->
  json_loads (json_dumps rt true (fallback_response user_prompt text))
  = Return (fallback_response user_prompt text).
Proof.
  intros Hu Ht. apply json_loads_dumps.
  unfold fallback_response. cbn [canonical map fst snd forallb text_ok negb orb].
  assert (Hr : ascii_safe (README_HEAD ++ user_prompt ++ README_TAIL) = true).
  { apply ascii_safe_app; [reflexivity| |reflexivity].
    apply ascii_safe_app; [exact Hu|reflexivity|].
    unfold pairs_up. apply andb_false_r. }
  rewrite Hr, (ascii_safe_firstn 500 _ Ht). reflexivity.
Qed.

(** ** The characters of a serialization *)

Lemma hex_char_printable (d : N) : (d < 16)%N -> printable (hex_char d).
Proof.
  intros H. unfold printable, hex_char.
  destruct (d <? 10)%N eqn:E; [apply N.ltb_lt in E|apply N.ltb_ge in E]; lia.
Qed.

Lemma hex_char_visible (d : N) : (32 <= hex_char d)%N.
Proof. unfold hex_char. destruct (d <? 10)%N; lia. Qed.

Lemma u_escape_visible (x : N) : Forall (fun c => (32 <= c)%N) (u_escape x).
Proof.
  unfold u_escape. repeat constructor; try apply hex_char_visible;
    unfold BACKSLASH; lia.
Qed.

Lemma u_escape_printable (x : N) :
  (x < 65536)%N -> Forall printable (u_escape x).
Proof.
  intros H. unfold u_escape.
  assert (x / 4096 < 16)%N by (apply N.Div0.div_lt_upper_bound; lia).
  assert ((x / 256) mod 16 < 16)%N by (apply N.mod_lt; lia).
  assert ((x / 16) mod 16 < 16)%N by (apply N.mod_lt; lia).
  assert (x mod 16 < 16)%N by (apply N.mod_lt; lia).
  repeat constructor; try (now apply hex_char_printable);
    unfold BACKSLASH; lia.
Qed.

Lemma escape_char_visible (ea : bool) (c : char) :
  Forall (fun x => (32 <= x)%N) (escape_char ea c).
Proof.
  unfold escape_char.
  repeat match goal with
         | |- context [if (?a =? ?b)%N then _ else _] =>
             destruct (a =? b)%N;
             [repeat constructor; unfold BACKSLASH; lia|]
         end.
  destruct (c <? 32)%N eqn:E; [apply u_escape_visible|].
  apply N.ltb_ge in E.
  destruct (negb ea); [now repeat constructor|].
  destruct (c <=? 126)%N; [now repeat constructor|].
  destruct (c <? 65536)%N; [apply u_escape_visible|].
  apply Forall_app; split; apply u_escape_visible.
Qed.

Lemma escape_char_printable (c : char) :
  (c < 1114112)%N -> Forall printable (escape_char true c).
Proof.
  intros Hc. unfold escape_char.
  repeat match goal with
         | |- context [if (?a =? ?b)%N then _ else _] =>
             destruct (a =? b)%N;
             [repeat constructor; unfold BACKSLASH; lia|]
         end.
  destruct (c <? 32)%N eqn:E.
  { apply N.ltb_lt in E. apply u_escape_printable. lia. }
  apply N.ltb_ge in E. cbn [negb].
  destruct (c <=? 126)%N eqn:E1.
  { apply N.leb_le in E1. repeat constructor; lia. }
  destruct (c <? 65536)%N eqn:E2.
  { apply N.ltb_lt in E2. now apply u_escape_printable. }
  apply N.ltb_ge in E2.
  assert ((c - 65536) / 1024 < 1024)%N
    by (apply N.Div0.div_lt_upper_bound; lia).
  assert ((c - 65536) mod 1024 < 1024)%N by (apply N.mod_lt; lia).
  apply Forall_app; split; apply u_escape_printable; lia.
Qed.

Section Characters.

Variable rt : runtime.
Variable ea : bool.
Variable P : char -> Prop.
Hypothesis P_DQUOTE : P DQUOTE.
Hypothesis P_COMMA : P COMMA.
Hypothesis P_COLON : P COLON.
Hypothesis P_SPACE : P SPACE.
Hypothesis P_LBRACE : P LBRACE.
Hypothesis P_RBRACE : P RBRACE.

Lemma encode_string_chars (s : str) :
  Forall (fun c => Forall P (escape_char ea c)) s ->
  Forall P (encode_string ea s).
Proof.
  intros H. unfold encode_string. constructor; [exact P_DQUOTE|].
  apply Forall_app; split; [|now constructor].
  induction H as [|c s Hc _ IH]; cbn [flat_map]; [constructor|].
  apply Forall_app; now split.
Qed.

(** The serialization of an object whose values are strings. *)
Lemma dumps_strings_chars (d : list (str * str)) :
  Forall (fun kv => Forall P (encode_string ea (fst kv))
                    /\ Forall P (encode_string ea (snd kv))) d ->
  Forall P (json_dumps rt ea (JDict (map (fun kv => (fst kv, JStr (snd kv))) d))).
Proof.
  intros H. cbn [json_dumps]. constructor; [exact P_LBRACE|].
  apply Forall_app; split; [|now constructor].
  induction H as [|kv d [Hk Hv] Hd IH]; cbn [map join_map]; [constructor|].
  cbn [fst snd json_dumps].
  repeat (apply Forall_app; split); try assumption.
  - unfold KEY_SEP. now repeat constructor.
  - destruct d as [|kv' d]; [constructor|]. cbn [map] in *.
    apply Forall_app; split; [|exact IH].
    unfold ITEM_SEP. now repeat constructor.
Qed.

End Characters.

Lemma encode_string_visible (ea : bool) (s : str) :
  Forall (fun c => (32 <= c)%N) (encode_string ea s).
Proof.
  apply encode_string_chars; [unfold DQUOTE; lia|].
  apply Forall_forall. intros c _. apply escape_char_visible.
Qed.

Lemma encode_string_printable (s : str) :
  Forall (fun c => (c < 1114112)%N) s ->
  Forall printable (encode_string true s).
Proof.
  intros H. apply encode_string_chars; [unfold DQUOTE, printable; lia|].
  eapply Forall_impl; [|exact H]. intros c. apply escape_char_printable.
Qed.

Lemma dumps_strings_visible (rt : runtime) (ea : bool) (d : list (str * str)) :
  Forall (fun c => (32 <= c)%N)
    (json_dumps rt ea (JDict (map (fun kv => (fst kv, JStr (snd kv))) d))).
Proof.
  apply dumps_strings_chars;
    try (unfold DQUOTE, COMMA, COLON, SPACE, LBRACE, RBRACE; lia).
  apply Forall_forall. intros kv _. split; apply encode_string_visible.
Qed.

Lemma fallback_response_strings (user_prompt text : str) :
  fallback_response user_prompt text
  = JDict (map (fun kv => (fst kv, JStr (snd kv)))
             (fallback_fields user_prompt text)).
Proof. reflexivity. Qed.

(** X11. The payload of a done event, with the cleaned artifact or with
    the fallback one, holds no character below U+0020, so no line break:
    the event is made of its two lines and the empty line that ends it,
    whatever the model has written. *)
Theorem done_payload_on_one_line (rt : runtime) (ea : bool)
  (user_prompt text : str) (v : JSON) :
  v = fallback_response user_prompt text
  \/ (exists parsed, clean_data rt parsed = Return v) ->
  Forall (fun c => (32 <= c)%N) (json_dumps rt ea v).
Proof.
  intros [->|[parsed H]].
  - rewrite fallback_response_strings. apply dumps_strings_visible.
  - destruct (clean_data_shape rt parsed H) as [n [ds [r ->]]].
    apply (dumps_strings_visible rt ea
             [(K_REPOSITORY_NAME, n); (K_DESCRIPTION, ds);
              (K_README_CONTENT, r)]).
Qed.

(** X12. The payload of the fallback event is printable ASCII, whatever
    characters the prompt and the model output hold. *)
Theorem fallback_payload_is_ascii (rt : runtime) (user_prompt text : str) :
  Forall (fun c => (c < 1114112)%N) user_prompt ->
  Forall (fun c => (c < 1114112)%N) text ->
  Forall printable (json_dumps rt true (fallback_response user_prompt text)).
Proof.
  intros Hu Ht. rewrite fallback_response_strings.
  apply dumps_strings_chars;
    try (unfold printable, DQUOTE, COMMA, COLON, SPACE, LBRACE, RBRACE; lia).
  unfold fallback_fields.
  assert (K : forall s : str, forallb (fun c => c <? 1114112)%N s = true ->
                              Forall printable (encode_string true s)).
  { intros s H. apply encode_string_printable. apply Forall_forall.
    intros c Hc. rewrite forallb_forall in H. now apply N.ltb_lt, H. }
  assert (Hh : Forall (fun c => (c < 1114112)%N) README_HEAD).
  { apply Forall_forall. intros c Hc.
    assert (E : forallb (fun c => c <? 1114112)%N README_HEAD = true)
      by reflexivity.
    rewrite forallb_forall in E. now apply N.ltb_lt, E. }
  assert (Hl : Forall (fun c => (c < 1114112)%N) README_TAIL).
  { apply Forall_forall. intros c Hc.
    assert (E : forallb (fun c => c <? 1114112)%N README_TAIL = true)
      by reflexivity.
    rewrite forallb_forall in E. now apply N.ltb_lt, E. }
  assert (Hf : Forall (fun c => (c < 1114112)%N) (firstn 500 text)).
  { rewrite <- (firstn_skipn 500 text) in Ht.
    now apply Forall_app in Ht. }
  repeat match goal with
         | |- Forall _ (_ :: _) => apply Forall_cons; [split; cbn [fst snd]|]
         | |- Forall _ [] => apply Forall_nil
         end;
    first [ apply K; reflexivity
          | apply encode_string_printable;
            repeat (apply Forall_app; split); assumption ].
Qed.

(** ** Trimming *)

Lemma lstrip_blank (ws s : str) :
  forallb isspace ws = true -> lstrip (ws ++ s) = lstrip s.
Proof.
  induction ws as [|c ws IH]; [reflexivity|]. cbn [forallb app lstrip].
  intros H. apply andb_true_iff in H as [-> H]. now apply IH.
Qed.

Lemma lstrip_length (s : str) : length (lstrip s) <= length s.
Proof.
  induction s as [|c s IH]; cbn [lstrip length]; [lia|].
  destruct (isspace c); cbn [length]; lia.
Qed.

Lemma lstrip_idempotent (s : str) : lstrip (lstrip s) = lstrip s.
Proof.
  induction s as [|c s IH]; [reflexivity|]. cbn [lstrip].
  destruct (isspace c) eqn:E; [exact IH|]. cbn [lstrip]. now rewrite E.
Qed.

Lemma lstrip_snoc (s : str) (c : char) :
  isspace c = false -> lstrip (s ++ [c]) = lstrip s ++ [c].
Proof.
  intros Hc. induction s as [|d s IH]; cbn [app lstrip].
  - now rewrite Hc.
  - destruct (isspace d); [exact IH|reflexivity].
Qed.

Lemma forallb_rev (A : Type) (f : A -> bool) (l : list A) :
  forallb f (rev l) = forallb f l.
Proof.
  induction l as [|x l IH]; [reflexivity|]. cbn [rev forallb].
  rewrite forallb_app, IH. cbn [forallb]. rewrite andb_true_r.
  apply andb_comm.
Qed.

Lemma rstrip_blank (s ws : str) :
  forallb isspace ws = true -> rstrip (s ++ ws) = rstrip s.
Proof.
  intros H. unfold rstrip. rewrite rev_app_distr, lstrip_blank; [reflexivity|].
  now rewrite forallb_rev.
Qed.

Lemma rstrip_cons (c : char) (s : str) :
  isspace c = false -> rstrip (c :: s) = c :: rstrip s.
Proof.
  intros Hc. unfold rstrip. cbn [rev]. rewrite lstrip_snoc by assumption.
  rewrite rev_app_distr. reflexivity.
Qed.

Lemma rstrip_idempotent (s : str) : rstrip (rstrip s) = rstrip s.
Proof.
  unfold rstrip. now rewrite rev_involutive, lstrip_idempotent.
Qed.

Lemma lstrip_blank_all (ws : str) :
  forallb isspace ws = true -> lstrip ws = [].
Proof.
  intros H. rewrite <- (app_nil_r ws). now rewrite lstrip_blank.
Qed.

(** The text between the blank edges: without them at either end. *)
Lemma strip_head (s : str) :
  match strip s with
  | [] => True
  | c :: _ => isspace c = false
  end.
Proof.
  unfold strip. induction s as [|c s IH]; [exact I|]. cbn [lstrip].
  destruct (isspace c) eqn:E; [exact IH|].
  now rewrite rstrip_cons.
Qed.

Lemma strip_idempotent (s : str) : strip (strip s) = strip s.
Proof.
  pose proof (strip_head s) as H. unfold strip in *.
  destruct (rstrip (lstrip s)) as [|c t] eqn:E; [reflexivity|].
  cbn [lstrip]. rewrite H, <- E. apply rstrip_idempotent.
Qed.

Lemma strip_length (s : str) : length (strip s) <= length s.
Proof.
  unfold strip, rstrip. rewrite length_rev.
  pose proof (lstrip_length (rev (lstrip s))) as H.
  rewrite length_rev in H. pose proof (lstrip_length s). lia.
Qed.

Lemma strip_blank_edges (ws1 ws2 s : str) :
  forallb isspace ws1 = true -> forallb isspace ws2 = true ->
  strip (ws1 ++ s ++ ws2) = strip s.
Proof.
  intros H1 H2. unfold strip. rewrite lstrip_blank by assumption.
  induction s as [|c s IH]; cbn [app lstrip].
  - now rewrite lstrip_blank_all.
  - destruct (isspace c); [exact IH|].
    change (c :: s ++ ws2) with ((c :: s) ++ ws2). now apply rstrip_blank.
Qed.

(** ** What reaches the orchestrator and the extractor *)

(** X13. A prompt that passes the checks of the frontend is sent
    trimmed, passes the validation of the backend, and reaches the
    orchestrator as it was sent: between 5 and 500 characters, without
    blank edges. *)
Theorem frontend_prompt_reaches_orchestrator (rt : runtime) (p : provider)
  (prompt : str) :
  frontend_accepts prompt = true ->
  generate_repo rt p (strip prompt)
  = StreamingResponse (event_stream rt p (strip prompt))
  /\ 5 <= length (strip prompt) <= 500.
Proof.
  unfold frontend_accepts. intros H.
  apply andb_true_iff in H as [H H3]. apply andb_true_iff in H as [_ H2].
  apply negb_true_iff in H2, H3.
  apply Nat.ltb_ge in H2, H3.
  unfold generate_repo, RepoRequest. rewrite strip_idempotent.
  destruct (Nat.leb_spec 5 (length (strip prompt))); [|lia].
  destruct (Nat.leb_spec (length (strip prompt)) 500); [|lia].
  cbn [andb]. split; [reflexivity|lia].
Qed.

(** X14. Whoever sends the request, the orchestrator gets a prompt of
    at most 500 characters: the one of the request, trimmed. *)
Theorem orchestrator_prompt_bounded (rt : runtime) (p : provider)
  (prompt : str) (trace : list action) :
  generate_repo rt p prompt = StreamingResponse trace ->
  trace = event_stream rt p (strip prompt)
  /\ length (strip prompt) <= 500
  /\ 5 <= length prompt <= 500.
Proof.
  unfold generate_repo, RepoRequest.
  destruct (Nat.leb_spec 5 (length prompt)); [|discriminate].
  destruct (Nat.leb_spec (length prompt) 500); [|discriminate].
  cbn [andb]. intros [= <-]. pose proof (strip_length prompt).
  repeat split; lia.
Qed.

(** X15. Blank characters around the model output do not change what
    the extractor returns. *)
Theorem extract_ignores_blank_edges (ws1 ws2 text : str) :
  forallb isspace ws1 = true -> forallb isspace ws2 = true ->
  extract_json_from_response (ws1 ++ text ++ ws2)
  = extract_json_from_response text.
Proof.
  intros H1 H2. unfold extract_json_from_response.
  now rewrite strip_blank_edges.
Qed.

(** ** Configuration and the API key *)

Lemma unset_false (x : option str) :
  unset x = false -> exists k, x = Some k /\ k <> [].
Proof.
  destruct x as [[|c k]|]; try discriminate. intros _.
  eexists. split; [reflexivity|discriminate].
Qed.

Lemma load_settings_started (getenv : environ) (cfg : settings) :
  load_settings getenv = Started cfg ->
  unset (GROQ_API_KEY cfg) = false
  /\ (unset (API_KEY cfg) && str_eqb (ENVIRONMENT cfg) PRODUCTION = false)
  /\ API_KEY cfg = getenv N_API_KEY
  /\ ALLOWED_ORIGINS cfg
     = split_on COMMA (getenv_default getenv N_ALLOWED_ORIGINS DEFAULT_ORIGIN).
Proof.
  unfold load_settings.
  destruct (unset (getenv N_GROQ_API_KEY)) eqn:E1; [discriminate|].
  destruct (unset (getenv N_API_KEY)
            && str_eqb (getenv_default getenv N_ENVIRONMENT DEVELOPMENT)
                 PRODUCTION) eqn:E2; [discriminate|].
  intros [= <-]. cbn. now rewrite E1, E2.
Qed.

Lemma str_eqb_neq (a b : str) : a <> b -> str_eqb a b = false.
Proof.
  intros H. destruct (str_eqb a b) eqn:E; [|reflexivity].
  apply str_eqb_eq in E. contradiction.
Qed.

Lemma validate_api_key_protected (A : Type) (cfg : settings) (req : request)
  (call_next : request -> A) :
  protected req -> ENVIRONMENT cfg <> DEVELOPMENT ->
  validate_api_key cfg req call_next
  = match req_api_key req, API_KEY cfg with
    | Some (c :: k), Some expected =>
        if str_eqb (c :: k) expected then Passed (call_next req)
        else Unauthorized
    | _, _ => Unauthorized
    end.
Proof.
  intros [Hp Hm] He. unfold validate_api_key.
  rewrite (str_eqb_neq Hp), (str_eqb_neq Hm), (str_eqb_neq He). cbn [orb].
  destruct (req_api_key req) as [[|c k]|]; try reflexivity.
  cbn [unset orb]. destruct (API_KEY cfg) as [expected|]; [|reflexivity].
  destruct (str_eqb (c :: k) expected); reflexivity.
Qed.

(** X16. Once the application has started in production, a request to
    an endpoint other than the root, with a method other than OPTIONS,
    is handed to its handler exactly when its [X-API-Key] header is the
    configured key, which is not empty; otherwise the answer is 401 and
    the handler is not called. *)
Theorem production_requires_the_key (A : Type) (getenv : environ)
  (cfg : settings) (req : request) (call_next : request -> A) :
  load_settings getenv = Started cfg ->
  ENVIRONMENT cfg = PRODUCTION ->
  protected req ->
  exists key,
    getenv N_API_KEY = Some key /\ key <> []
    /\ validate_api_key cfg req call_next
       = if match req_api_key req with
            | Some k => str_eqb k key
            | None => false
            end
         then Passed (call_next req)
         else Unauthorized.
Proof.
  intros Hs He Hp.
  destruct (load_settings_started getenv Hs) as [_ [Hk [Ek _]]].
  rewrite He in Hk. change (str_eqb PRODUCTION PRODUCTION) with true in Hk.
  rewrite andb_true_r in Hk.
  destruct (unset_false _ Hk) as [key [Hkey Hne]].
  exists key. rewrite <- Ek. split; [exact Hkey|]. split; [exact Hne|].
  rewrite validate_api_key_protected;
    [|exact Hp|rewrite He; discriminate].
  rewrite Hkey. destruct (req_api_key req) as [[|c k]|]; try reflexivity.
  destruct key as [|c key]; [contradiction|reflexivity].
Qed.

(** X17. With no API key configured, in an environment that is neither
    [development] nor [production], the application starts, and every
    protected request is answered with 401, whatever key it carries. *)
Theorem no_key_locks_every_request_out (A : Type) (getenv : environ)
  (req : request) (call_next : request -> A) :
  unset (getenv N_GROQ_API_KEY) = false ->
  unset (getenv N_API_KEY) = true ->
  getenv_default getenv N_ENVIRONMENT DEVELOPMENT <> DEVELOPMENT ->
  getenv_default getenv N_ENVIRONMENT DEVELOPMENT <> PRODUCTION ->
  protected req ->
  exists cfg,
    load_settings getenv = Started cfg
    /\ validate_api_key cfg req call_next = Unauthorized.
Proof.
  intros Hg Hk Hd Hp Hr. unfold load_settings.
  rewrite Hg, Hk, (str_eqb_neq Hp). cbn [andb].
  eexists. split; [reflexivity|].
  rewrite validate_api_key_protected; [|exact Hr|exact Hd].
  cbn [API_KEY]. destruct (req_api_key req) as [[|c k]|]; try reflexivity.
  destruct (getenv N_API_KEY) as [[|c' k']|]; try discriminate; reflexivity.
Qed.

(** ** Pieces of a comma-separated list *)

Lemma split_on_cons (sep : char) (s : str) :
  exists piece pieces, split_on sep s = piece :: pieces.
Proof.
  induction s as [|c s [piece [pieces IH]]]; cbn [split_on]; [eauto|].
  destruct (char_eqb c sep); [eauto|]. rewrite IH. eauto.
Qed.

Lemma split_on_pieces (sep : char) (s : str) :
  join_with sep (split_on sep s) = s
  /\ Forall (fun piece => ~ In sep piece) (split_on sep s).
Proof.
  induction s as [|c s [IHj IHp]]; cbn [split_on].
  - split; [reflexivity|]. repeat constructor. intros [].
  - destruct (char_eqb c sep) eqn:E.
    + apply char_eqb_eq in E. subst c.
      destruct (split_on_cons sep s) as [piece [pieces Hs]].
      rewrite Hs in *. split.
      * change (join_with sep ([] :: piece :: pieces))
          with (sep :: join_with sep (piece :: pieces)).
        now rewrite IHj.
      * constructor; [intros []|exact IHp].
    + destruct (split_on_cons sep s) as [piece [pieces Hs]].
      rewrite Hs in *. split.
      * rewrite <- IHj. destruct pieces; reflexivity.
      * inversion IHp as [|? ? Hpiece Hrest]; subst.
        constructor; [|exact Hrest].
        intros [->|Hin]; [|contradiction].
        rewrite char_eqb_refl in E. discriminate.
Qed.

(** X18. The allowed origins are the pieces of the configured value
    between its commas: there is at least one, none holds a comma, and
    joined with commas they give the value back; blanks around a comma
    are kept. *)
Theorem allowed_origins_are_the_pieces (getenv : environ) (cfg : settings) :
  load_settings getenv = Started cfg ->
  let value := getenv_default getenv N_ALLOWED_ORIGINS DEFAULT_ORIGIN in
  join_with COMMA (ALLOWED_ORIGINS cfg) = value
  /\ Forall (fun origin => ~ In COMMA origin) (ALLOWED_ORIGINS cfg)
  /\ 1 <= length (ALLOWED_ORIGINS cfg)
  /\ (getenv N_ALLOWED_ORIGINS = None -> ALLOWED_ORIGINS cfg = [DEFAULT_ORIGIN]).
Proof.
  intros Hs value.
  destruct (load_settings_started getenv Hs) as [_ [_ [_ ->]]].
  fold value. destruct (split_on_pieces COMMA value) as [Hj Hp].
  split; [exact Hj|]. split; [exact Hp|]. split.
  - destruct (split_on_cons COMMA value) as [piece [pieces ->]].
    cbn [length]. lia.
  - intros Hn. subst value. unfold getenv_default. rewrite Hn. reflexivity.
Qed.

(** ** Health check *)

(** X19. The health check reports the provider as healthy exactly when
    the probe was answered with status 200, and as unhealthy with a
    detail otherwise; its own [status] is [healthy] whatever the probe
    gave. *)
Theorem health_check_healthy_iff_200 (cfg : settings) (probe : reply unit) :
  py_getitem (health_check cfg probe) K_STATUS = Return (JStr HEALTHY)
  /\ py_getitem (health_check cfg probe) K_GROQ_API
     = Return (JStr (groq_status probe))
  /\ (groq_status probe = HEALTHY <-> probe = Responds 200 tt)
  /\ (groq_status probe = HEALTHY
      \/ startswith UNHEALTHY_HEAD (groq_status probe) = true).
Proof.
  split; [reflexivity|]. split; [reflexivity|]. split; [split|].
  - destruct probe as [e|status []]; cbn [groq_status]; [discriminate|].
    destruct (N.eqb_spec status 200) as [->|Hne]; [reflexivity|discriminate].
  - intros ->. reflexivity.
  - destruct probe as [e|status []]; cbn [groq_status].
    + right. apply startswith_app.
    + destruct (status =? 200)%N; [now left|right; apply startswith_app].
Qed.

(** X20. When the probe raises, the report quotes at most the first 50
    characters of the error's text: the detail is at most 62 characters
    long, and errors that agree on these characters give the same
    report. *)
Theorem health_check_error_detail_bounded (e e' : exn) :
  length (groq_status (Fails e)) <= 62
  /\ (firstn 50 (exn_text e) = firstn 50 (exn_text e') ->
      groq_status (Fails e) = groq_status (Fails e')).
Proof.
  cbn [groq_status]. split.
  - rewrite !length_app. pose proof (firstn_le_length 50 (exn_text e)).
    cbn [length]. change (length UNHEALTHY_HEAD) with 11. lia.
  - now intros ->.
Qed.

(** X21. Once the application has started, the health check reports
    that the provider's key is set. *)
Theorem health_check_key_set_after_startup (getenv : environ) (cfg : settings)
  (probe : reply unit) :
  load_settings getenv = Started cfg ->
  py_getitem (health_check cfg probe) K_GROQ_KEY_SET = Return (JBool true).
Proof.
  intros Hs. destruct (load_settings_started getenv Hs) as [Hg _].
  unfold health_check. rewrite Hg. reflexivity.
Qed.

(** ** UTF-8: what is encoded is decoded back *)

Ltac ndiv := zify; Z.to_euclidean_division_equations; lia.

Lemma in_range_true (lo hi b : N) :
  (lo <= b <= hi)%N -> in_range lo hi b = true.
Proof.
  intros [H1 H2]. unfold in_range.
  apply andb_true_iff. split; now apply N.leb_le.
Qed.

Lemma in_range_false (lo hi b : N) :
  (b < lo \/ hi < b)%N -> in_range lo hi b = false.
Proof.
  intros H. unfold in_range. apply andb_false_iff.
  destruct H; [left|right]; now apply N.leb_gt.
Qed.

Lemma is_cont_true (b : N) : (128 <= b <= 191)%N -> is_cont b = true.
Proof. apply in_range_true. Qed.

Lemma decode_two (b0 b1 : N) (r : list N) :
  (194 <= b0 <= 223)%N -> (128 <= b1 <= 191)%N ->
  utf8_units (b0 :: b1 :: r)
  = option_map (cons ((b0 - 192) * 64 + (b1 - 128))%N) (utf8_units r).
Proof.
  intros H0 H1. cbn [utf8_units].
  replace (b0 <? 128)%N with false by (symmetry; apply N.ltb_ge; lia).
  rewrite (in_range_true H0), (is_cont_true H1). reflexivity.
Qed.

Lemma decode_three (b0 b1 b2 : N) (r : list N) :
  (224 <= b0 <= 239)%N -> (128 <= b1 <= 191)%N -> (128 <= b2 <= 191)%N ->
  (b0 = 224 -> 160 <= b1)%N -> (b0 = 237 -> b1 <= 159)%N ->
  utf8_units (b0 :: b1 :: b2 :: r)
  = option_map (cons ((b0 - 224) * 4096 + (b1 - 128) * 64 + (b2 - 128))%N)
      (utf8_units r).
Proof.
  intros H0 H1 H2 Ha Hb. cbn [utf8_units].
  replace (b0 <? 128)%N with false by (symmetry; apply N.ltb_ge; lia).
  rewrite (@in_range_false 194 223 b0) by lia.
  rewrite (in_range_true H0), (is_cont_true H2).
  assert (E : (if (b0 =? 224)%N then in_range 160 191 b1
               else if (b0 =? 237)%N then in_range 128 159 b1
               else is_cont b1) = true).
  { destruct (N.eqb_spec b0 224) as [E|_].
    - apply in_range_true. specialize (Ha E). lia.
    - destruct (N.eqb_spec b0 237) as [E|_].
      + apply in_range_true. specialize (Hb E). lia.
      + now apply is_cont_true. }
  rewrite E. reflexivity.
Qed.

Lemma decode_four (b0 b1 b2 b3 : N) (r : list N) :
  (240 <= b0 <= 244)%N -> (128 <= b1 <= 191)%N -> (128 <= b2 <= 191)%N ->
  (128 <= b3 <= 191)%N ->
  (b0 = 240 -> 144 <= b1)%N -> (b0 = 244 -> b1 <= 143)%N ->
  utf8_units (b0 :: b1 :: b2 :: b3 :: r)
  = option_map
      (cons ((b0 - 240) * 262144 + (b1 - 128) * 4096 + (b2 - 128) * 64
             + (b3 - 128))%N)
      (utf8_units r).
Proof.
  intros H0 H1 H2 H3 Ha Hb. cbn [utf8_units].
  replace (b0 <? 128)%N with false by (symmetry; apply N.ltb_ge; lia).
  rewrite (@in_range_false 194 223 b0) by lia.
  rewrite (@in_range_false 224 239 b0) by lia.
  rewrite (in_range_true H0), (is_cont_true H2), (is_cont_true H3).
  assert (E : (if (b0 =? 240)%N then in_range 144 191 b1
               else if (b0 =? 244)%N then in_range 128 143 b1
               else is_cont b1) = true).
  { destruct (N.eqb_spec b0 240) as [E|_].
    - apply in_range_true. specialize (Ha E). lia.
    - destruct (N.eqb_spec b0 244) as [E|_].
      + apply in_range_true. specialize (Hb E). lia.
      + now apply is_cont_true. }
  rewrite E. reflexivity.
Qed.

Lemma utf8_encode_char_cases (c : char) :
  match utf8_encode_char c with
  | Some u =>
      (forall r, utf8_units (u ++ r) = option_map (cons c) (utf8_units r))
      /\ Forall (fun n => (n < 256)%N /\ ((32 <= c)%N -> (32 <= n)%N)) u
  | None => True
  end.
Proof.
  unfold utf8_encode_char, is_surrogate.
  destruct (N.ltb_spec c 128).
  { split; [|repeat constructor; lia].
    intros r. cbn [app utf8_units].
    destruct (N.ltb_spec c 128); [reflexivity|lia]. }
  destruct (N.ltb_spec c 2048).
  { split; [|repeat constructor; ndiv].
    intros r. cbn [app]. rewrite decode_two by ndiv.
    f_equal. f_equal. ndiv. }
  destruct (N.ltb_spec c 65536).
  { destruct (N.leb_spec 55296 c); destruct (N.leb_spec c 57343);
      cbn [andb]; try exact I;
      (split; [|repeat constructor; ndiv]);
      intros r; cbn [app]; rewrite decode_three by ndiv;
      f_equal; f_equal; ndiv. }
  destruct (N.ltb_spec c 1114112); [|exact I].
  split; [|repeat constructor; ndiv].
  intros r. cbn [app]. rewrite decode_four by ndiv.
  f_equal. f_equal. ndiv.
Qed.

Lemma utf8_encode_char_decoded (c : char) (u : list N) :
  utf8_encode_char c = Some u ->
  forall r, utf8_units (u ++ r) = option_map (cons c) (utf8_units r).
Proof.
  intros E. pose proof (utf8_encode_char_cases c) as H. rewrite E in H.
  apply H.
Qed.

Lemma utf8_encode_char_units (c : char) (u : list N) :
  utf8_encode_char c = Some u ->
  Forall (fun n => (n < 256)%N /\ ((32 <= c)%N -> (32 <= n)%N)) u.
Proof.
  intros E. pose proof (utf8_encode_char_cases c) as H. rewrite E in H.
  apply H.
Qed.

Lemma utf8_encode_units_decoded (s : str) :
  forall ns, utf8_encode_units s = Some ns -> utf8_units ns = Some s.
Proof.
  induction s as [|c s IH]; intros ns; cbn [utf8_encode_units].
  - now intros [= <-].
  - destruct (utf8_encode_char c) as [u|] eqn:Ec; [|discriminate].
    destruct (utf8_encode_units s) as [us|]; [|discriminate].
    intros [= <-]. rewrite (utf8_encode_char_decoded c Ec).
    now rewrite (IH us eq_refl).
Qed.

Lemma utf8_encode_units_small (s : str) :
  forall ns, utf8_encode_units s = Some ns -> Forall (fun n => (n < 256)%N) ns.
Proof.
  induction s as [|c s IH]; intros ns; cbn [utf8_encode_units].
  - intros [= <-]. constructor.
  - destruct (utf8_encode_char c) as [u|] eqn:Ec; [|discriminate].
    destruct (utf8_encode_units s) as [us|]; [|discriminate].
    intros [= <-]. apply Forall_app. split; [|now apply IH].
    eapply Forall_impl; [|exact (utf8_encode_char_units c Ec)].
    now intros n [H _].
Qed.

Lemma to_N_byte_of (n : N) : (n < 256)%N -> Byte.to_N (byte_of n) = n.
Proof.
  intros H. unfold byte_of. destruct (Byte.of_N n) as [b|] eqn:E.
  - now apply Byte.to_of_N.
  - apply Byte.of_N_None_iff in E. lia.
Qed.

Lemma map_to_N_byte_of (ns : list N) :
  Forall (fun n => (n < 256)%N) ns -> map Byte.to_N (map byte_of ns) = ns.
Proof.
  induction 1 as [|n ns Hn _ IH]; [reflexivity|]. cbn [map].
  now rewrite (to_N_byte_of Hn), IH.
Qed.

(** What [encode] gives is decoded back to the string. *)
Lemma decode_encode_utf8 (s : str) (bs : bytes) :
  encode_utf8 s = Some bs -> decode_utf8 bs = Some s.
Proof.
  unfold encode_utf8, decode_utf8.
  destruct (utf8_encode_units s) as [ns|] eqn:E; [|discriminate].
  intros [= <-].
  rewrite (map_to_N_byte_of (utf8_encode_units_small s E)).
  now apply utf8_encode_units_decoded.
Qed.

Lemma utf8_encode_units_app (a b : str) :
  utf8_encode_units (a ++ b)
  = match utf8_encode_units a, utf8_encode_units b with
    | Some x, Some y => Some (x ++ y)
    | _, _ => None
    end.
Proof.
  induction a as [|c a IH]; cbn [app utf8_encode_units].
  - now destruct (utf8_encode_units b).
  - rewrite IH. destruct (utf8_encode_char c) as [u|]; [|reflexivity].
    destruct (utf8_encode_units a) as [x|]; [|reflexivity].
    destruct (utf8_encode_units b) as [y|]; [|reflexivity].
    now rewrite app_assoc.
Qed.

Lemma encode_utf8_app (a b : str) :
  encode_utf8 (a ++ b)
  = match encode_utf8 a, encode_utf8 b with
    | Some x, Some y => Some (x ++ y)
    | _, _ => None
    end.
Proof.
  unfold encode_utf8. rewrite utf8_encode_units_app.
  destruct (utf8_encode_units a) as [x|]; [|reflexivity].
  destruct (utf8_encode_units b) as [y|]; [|reflexivity].
  cbn [option_map]. now rewrite map_app.
Qed.

(** The encoding of a string without a character below U+0020 holds no
    line break. *)
Lemma encode_utf8_unbroken (s : str) (bs : bytes) :
  encode_utf8 s = Some bs ->
  Forall (fun c => (32 <= c)%N) s ->
  unbroken bs = true.
Proof.
  unfold encode_utf8. revert bs.
  induction s as [|c s IH]; intros bs; cbn [utf8_encode_units].
  - now intros [= <-].
  - destruct (utf8_encode_char c) as [u|] eqn:Ec; [|discriminate].
    destruct (utf8_encode_units s) as [us|]; [|discriminate].
    cbn [option_map]. intros [= <-] Hs. inversion Hs as [|? ? Hc Hs']; subst.
    rewrite map_app. unfold unbroken. rewrite forallb_app.
    fold (unbroken (map byte_of us)). rewrite (IH _ eq_refl Hs'), andb_true_r.
    pose proof (utf8_encode_char_units c Ec) as Hu.
    clear - Hu Hc. induction Hu as [|n u [Hn Hv] _ IHu]; [reflexivity|].
    cbn [map forallb]. rewrite IHu, andb_true_r.
    unfold is_lf, is_cr. rewrite (to_N_byte_of Hn).
    specialize (Hv Hc).
    destruct (N.eqb_spec n 10); [lia|]. destruct (N.eqb_spec n 13); [lia|].
    reflexivity.
Qed.

(** ASCII is encoded byte for character. *)
Lemma encode_utf8_ascii (s : str) :
  Forall (fun c => (c < 128)%N) s -> encode_utf8 s = Some (map byte_of s).
Proof.
  unfold encode_utf8. induction 1 as [|c s Hc _ IH]; [reflexivity|].
  cbn [utf8_encode_units]. unfold utf8_encode_char.
  destruct (N.ltb_spec c 128); [|lia].
  destruct (utf8_encode_units s) as [us|]; [|discriminate].
  cbn [option_map map app] in *. now injection IH as ->.
Qed.

(** ** Lines *)

Lemma splitlines_line (line rest : bytes) :
  unbroken line = true ->
  splitlines (line ++ x0a :: rest) = line :: splitlines rest.
Proof.
  induction line as [|b line IH]; [reflexivity|].
  unfold unbroken. cbn [forallb app]. intros H.
  apply andb_true_iff in H as [Hb H]. apply negb_true_iff in Hb.
  apply orb_false_iff in Hb as [Hl Hc].
  cbn [splitlines]. rewrite Hl, Hc. now rewrite (IH H).
Qed.

(** ** The frontend reads the events of the backend *)

Lemma encode_utf8_newline (rest : str) :
  encode_utf8 (NEWLINE :: rest) = option_map (cons x0a) (encode_utf8 rest).
Proof.
  unfold encode_utf8. cbn [utf8_encode_units].
  change (utf8_encode_char NEWLINE) with (Some [10%N]).
  destruct (utf8_encode_units rest); reflexivity.
Qed.

(** The first line of an encoded text. *)
Lemma splitlines_encoded (line rest : str) (body : bytes) :
  encode_utf8 (line ++ NEWLINE :: rest) = Some body ->
  Forall (fun c => (32 <= c)%N) line ->
  exists bline brest,
    encode_utf8 line = Some bline
    /\ encode_utf8 rest = Some brest
    /\ splitlines body = bline :: splitlines brest.
Proof.
  rewrite encode_utf8_app, encode_utf8_newline. intros E Hl.
  destruct (encode_utf8 line) as [bline|] eqn:El; [|discriminate].
  destruct (encode_utf8 rest) as [brest|]; [|discriminate].
  cbn [option_map] in E. injection E as <-.
  exists bline, brest. repeat split.
  apply splitlines_line. now apply (encode_utf8_unbroken El).
Qed.

(** An empty line between events. *)
Lemma splitlines_blank (rest : str) (body : bytes) :
  encode_utf8 (NEWLINE :: rest) = Some body ->
  exists brest,
    encode_utf8 rest = Some brest /\ splitlines body = [] :: splitlines brest.
Proof.
  intros E. destruct (@splitlines_encoded [] rest body E)
    as [bline [brest [El [Er Hs]]]]; [constructor|].
  injection El as <-. now exists brest.
Qed.

Lemma read_events_data (rt : runtime) (line : bytes) (text : str)
  (rest : list bytes) (broken : option exn) :
  decode_utf8 line = Some text ->
  startswith DATA_PREFIX text = true ->
  read_events rt (line :: rest) broken
  = match on_payload rt (skipn 6 text) with
    | (shown, Return (Some data)) => (shown, Return (Some data))
    | (shown, Return None) =>
        let (more, r) := read_events rt rest broken in (shown ++ more, r)
    | (shown, Raise e) =>
        if is_JSONDecodeError e then
          let (more, r) := read_events rt rest broken in (shown ++ more, r)
        else (shown, Raise e)
    end.
Proof.
  intros Hd Hs. destruct line as [|b line].
  - injection Hd as <-. discriminate.
  - cbn [read_events]. now rewrite Hd, Hs.
Qed.

Lemma read_events_other (rt : runtime) (line : bytes) (text : str)
  (rest : list bytes) (broken : option exn) :
  decode_utf8 line = Some text ->
  startswith DATA_PREFIX text = false ->
  read_events rt (line :: rest) broken = read_events rt rest broken.
Proof.
  intros Hd Hs. destruct line as [|b line]; [reflexivity|].
  cbn [read_events]. now rewrite Hd, Hs.
Qed.

(** A status event at the head of the body: its message is shown, and
    the frontend goes on with what follows. *)
Lemma read_status_event (rt : runtime) (line rest : str) (info : ui)
  (body : bytes) :
  status_line line info ->
  encode_utf8 ((line ++ [NEWLINE; NEWLINE]) ++ rest) = Some body ->
  exists brest,
    encode_utf8 rest = Some brest
    /\ forall broken,
         read_events rt (splitlines body) broken
         = let (more, r) := read_events rt (splitlines brest) broken in
           (info :: more, r).
Proof.
  intros [Hv [Hs Hp]] E. rewrite <- app_assoc in E. cbn [app] in E.
  destruct (@splitlines_encoded line (NEWLINE :: rest) body E Hv)
    as [bline [b1 [El [E1 H1]]]].
  destruct (@splitlines_blank rest b1 E1) as [brest [Er H2]].
  exists brest. split; [exact Er|]. intros broken.
  rewrite H1, H2.
  rewrite (@read_events_data rt bline line _ broken
             (@decode_encode_utf8 line bline El) Hs), Hp.
  reflexivity.
Qed.

(** The last event of the body: its first line names the event, its
    data line carries the payload. *)
Lemma read_last_event (rt : runtime) (kind payload : str) (body : bytes) :
  encode_utf8 (kind ++ NEWLINE :: DATA_PREFIX ++ payload
               ++ [NEWLINE; NEWLINE]) = Some body ->
  Forall (fun c => (32 <= c)%N) kind ->
  startswith DATA_PREFIX kind = false ->
  Forall (fun c => (32 <= c)%N) payload ->
  read_events rt (splitlines body) None
  = match on_payload rt payload with
    | (shown, Return (Some data)) => (shown, Return (Some data))
    | (shown, Return None) => (shown ++ [], Return None)
    | (shown, Raise e) =>
        if is_JSONDecodeError e then (shown ++ [], Return None)
        else (shown, Raise e)
    end.
Proof.
  intros E Hk Hs Hp.
  destruct (@splitlines_encoded kind _ body E Hk)
    as [bkind [b1 [Ek [E1 H1]]]].
  rewrite app_assoc in E1.
  assert (Hd : Forall (fun c => (32 <= c)%N) (DATA_PREFIX ++ payload)).
  { apply Forall_app. split; [|exact Hp]. repeat constructor; discriminate. }
  destruct (@splitlines_encoded (DATA_PREFIX ++ payload) _ b1 E1 Hd)
    as [bdata [b2 [Ed [E2 H2]]]].
  destruct (@splitlines_blank [] b2 E2) as [b3 [E3 H3]].
  injection E3 as <-.
  rewrite H1, H2, H3.
  rewrite (@read_events_other rt bkind kind _ None
             (@decode_encode_utf8 kind bkind Ek) Hs).
  rewrite (@read_events_data rt bdata (DATA_PREFIX ++ payload) _ None
             (@decode_encode_utf8 _ bdata Ed)
             (startswith_app DATA_PREFIX payload)).
  change (skipn 6 (DATA_PREFIX ++ payload)) with payload.
  reflexivity.
Qed.

Lemma generating_line_status : status_line GENERATING_LINE INFO_GENERATING.
Proof.
  split; [|split; [reflexivity|intros rt; reflexivity]].
  apply Forall_forall. intros c Hc.
  assert (E : forallb (fun c => 32 <=? c)%N GENERATING_LINE = true)
    by reflexivity.
  rewrite forallb_forall in E. now apply N.leb_le, E.
Qed.

Lemma processing_line_status : status_line PROCESSING_LINE INFO_PROCESSING.
Proof.
  split; [|split; [reflexivity|intros rt; reflexivity]].
  apply Forall_forall. intros c Hc.
  assert (E : forallb (fun c => 32 <=? c)%N PROCESSING_LINE = true)
    by reflexivity.
  rewrite forallb_forall in E. now apply N.leb_le, E.
Qed.

Lemma serve_development (cfg : settings) (rt : runtime) (p : provider)
  (prompt : str) :
  ENVIRONMENT cfg = DEVELOPMENT ->
  serve cfg rt p prompt = Passed (generate_repo rt p prompt).
Proof.
  intros E. unfold serve, validate_api_key. rewrite E.
  change (str_eqb DEVELOPMENT DEVELOPMENT) with true.
  now rewrite orb_true_r.
Qed.

(** The body of an event stream with one or two status events and a
    last event: the frontend shows the messages of the status events and
    handles the payload of the last one. *)
Lemma read_event_stream (rt : runtime) (statuses : list str)
  (infos : list ui) (kind payload : str) (body : bytes) :
  relayed statuses infos ->
  encode_utf8
    (concat (statuses
             ++ [kind ++ NEWLINE :: DATA_PREFIX ++ payload
                 ++ [NEWLINE; NEWLINE]])) = Some body ->
  Forall (fun c => (32 <= c)%N) kind ->
  startswith DATA_PREFIX kind = false ->
  Forall (fun c => (32 <= c)%N) payload ->
  read_events rt (splitlines body) None
  = match on_payload rt payload with
    | (shown, Return (Some data)) => (infos ++ shown, Return (Some data))
    | (shown, Return None) => (infos ++ shown ++ [], Return None)
    | (shown, Raise e) =>
        if is_JSONDecodeError e then (infos ++ shown ++ [], Return None)
        else (infos ++ shown, Raise e)
    end.
Proof.
  intros [[-> ->]|[-> ->]] E Hk Hs Hp; cbn [app concat] in E;
    rewrite app_nil_r in E.
  - change STATUS_GENERATING
      with (GENERATING_LINE ++ [NEWLINE; NEWLINE]) in E.
    destruct (@read_status_event rt _ _ _ body generating_line_status E)
      as [b1 [E1 ->]].
    rewrite (@read_last_event rt kind payload b1 E1 Hk Hs Hp).
    destruct (on_payload rt payload) as [shown [[data|]|e]];
      try reflexivity.
    destruct (is_JSONDecodeError e); reflexivity.
  - change STATUS_GENERATING
      with (GENERATING_LINE ++ [NEWLINE; NEWLINE]) in E.
    destruct (@read_status_event rt _ _ _ body generating_line_status E)
      as [b1 [E1 ->]].
    change STATUS_PROCESSING
      with (PROCESSING_LINE ++ [NEWLINE; NEWLINE]) in E1.
    destruct (@read_status_event rt _ _ _ b1 processing_line_status E1)
      as [b2 [E2 ->]].
    rewrite (@read_last_event rt kind payload b2 E2 Hk Hs Hp).
    destruct (on_payload rt payload) as [shown [[data|]|e]];
      try reflexivity.
    destruct (is_JSONDecodeError e); reflexivity.
Qed.

Lemma visible_literal (s : str) :
  forallb (fun c => 32 <=? c)%N s = true -> Forall (fun c => (32 <= c)%N) s.
Proof.
  intros E. apply Forall_forall. intros c Hc.
  rewrite forallb_forall in E. now apply N.leb_le, E.
Qed.

(** What the frontend receives for a stream, and what it makes of it. *)
Lemma stream_response_stream (rt : runtime) (p : provider) (prompt : str)
  (backend : str -> reply stream_body) (statuses : list str)
  (infos : list ui) (kind payload : str) (result : option JSON) :
  RepoRequest prompt = true ->
  received (Passed (generate_repo rt p prompt)) (backend prompt) ->
  yielded (event_stream rt p (strip prompt))
  = statuses ++ [kind ++ NEWLINE :: DATA_PREFIX ++ payload
                 ++ [NEWLINE; NEWLINE]] ->
  relayed statuses infos ->
  Forall (fun c => (32 <= c)%N) kind ->
  startswith DATA_PREFIX kind = false ->
  Forall (fun c => (32 <= c)%N) payload ->
  on_payload rt payload = ([], Return result) ->
  stream_response rt backend prompt = (infos, result).
Proof.
  intros Hv Hr Hy Hrel Hk Hs Hp Ho.
  unfold generate_repo in Hr. rewrite Hv in Hr.
  destruct Hr as [body [E Hw]]. rewrite Hy in E.
  unfold stream_response. rewrite Hw.
  change (raise_for_status 200) with (Return tt). cbn [sent_lines broken_by].
  rewrite (@read_event_stream rt statuses infos kind payload body
             Hrel E Hk Hs Hp), Ho.
  destruct result; cbn [app]; now rewrite app_nil_r.
Qed.

Lemma obtains_relayed (rt : runtime) (p : provider) (user_prompt text : str) :
  obtains p text ->
  exists statuses infos,
    relayed statuses infos
    /\ yielded (event_stream rt p user_prompt)
       = statuses ++ yielded (answer rt user_prompt (JStr text)).
Proof.
  intros [Hb|[[e Hb] Hs]].
  - exists [STATUS_GENERATING], [INFO_GENERATING]. split; [now left|].
    now rewrite (event_stream_buffered rt p user_prompt Hb).
  - exists [STATUS_GENERATING; STATUS_PROCESSING],
      [INFO_GENERATING; INFO_PROCESSING]. split; [now right|].
    now rewrite (event_stream_streamed rt p user_prompt Hb Hs).
Qed.

Lemma relayed_infos (statuses : list str) (infos : list ui) :
  relayed statuses infos ->
  infos = [INFO_GENERATING] \/ infos = [INFO_GENERATING; INFO_PROCESSING].
Proof. intros [[_ ->]|[_ ->]]; auto. Qed.

(** X22. In development, when the model output holds an object with the
    three fields, [stream_response] of the frontend shows the message of
    each status event and returns the cleaned artifact, as the
    orchestrator has built it. *)
Theorem frontend_returns_cleaned_artifact (cfg : settings) (rt : runtime)
  (p : provider) (prompt text : str) (d : list (str * JSON)) (clean : JSON)
  (backend : str -> reply stream_body) :
  ENVIRONMENT cfg = DEVELOPMENT ->
  RepoRequest prompt = true ->
  obtains p text ->
  extract_json_from_response text = Return (JDict d) ->
  has_required_keys rt (JDict d) = Return true ->
  clean_data rt (JDict d) = Return clean ->
  received (serve cfg rt p prompt) (backend prompt) ->
  exists infos,
    stream_response rt backend prompt = (infos, Some clean)
    /\ (infos = [INFO_GENERATING]
        \/ infos = [INFO_GENERATING; INFO_PROCESSING]).
Proof.
  intros Hdev Hv Ho He Hk Hc Hr. rewrite (@serve_development cfg rt p prompt Hdev) in Hr.
  destruct (@obtains_relayed rt p (strip prompt) text Ho)
    as [statuses [infos [Hrel Hy]]].
  rewrite (@answer_clean rt (strip prompt) text d clean He Hk Hc) in Hy.
  exists infos. split; [|exact (@relayed_infos statuses infos Hrel)].
  destruct (@clean_data_shape rt (JDict d) clean Hc) as [n [ds [r Es]]].
  apply (@stream_response_stream rt p prompt backend statuses infos
           DONE_LINE (json_dumps rt false clean) (Some clean) Hv Hr Hy Hrel).
  - now apply visible_literal.
  - reflexivity.
  - subst clean.
    apply (dumps_strings_visible rt false
             [(K_REPOSITORY_NAME, n); (K_DESCRIPTION, ds);
              (K_README_CONTENT, r)]).
  - unfold on_payload. rewrite json_loads_dumps by (subst clean; reflexivity).
    subst clean. reflexivity.
Qed.


Lemma error_for_payload (e : exn) :
  exists payload,
    error_for e = ERROR_LINE ++ NEWLINE :: DATA_PREFIX ++ payload
                  ++ [NEWLINE; NEWLINE]
    /\ forallb (fun c => 32 <=? c)%N payload = true
    /\ forall rt, on_payload rt payload = ([], Return None).
Proof.
  unfold error_for. destruct (is_Timeout e);
    [|destruct (is_RequestException e)].
  - exists (error_payload (lit "Request timeout - please try again")
              (lit "TIMEOUT")).
    split; [reflexivity|split; [reflexivity|intros rt; reflexivity]].
  - exists (error_payload (lit "AI service temporarily unavailable")
              (lit "API_ERROR")).
    split; [reflexivity|split; [reflexivity|intros rt; reflexivity]].
  - exists (error_payload (lit "Internal server error")
              (lit "INTERNAL_ERROR")).
    split; [reflexivity|split; [reflexivity|intros rt; reflexivity]].
Qed.

(** X24. In development, when the run of the backend ends with an error
    event, whichever it is, [stream_response] shows the messages of the
    status events and nothing else, and returns [None]: the frontend
    does not tell the user that the generation has failed. *)
Theorem backend_error_not_shown (cfg : settings) (rt : runtime)
  (p : provider) (prompt : str) (e : exn)
  (backend : str -> reply stream_body) :
  ENVIRONMENT cfg = DEVELOPMENT ->
  RepoRequest prompt = true ->
  snd (event_stream_body rt p (strip prompt)) = Raise e ->
  received (serve cfg rt p prompt) (backend prompt) ->
  exists infos,
    stream_response rt backend prompt = (infos, None)
    /\ (infos = [INFO_GENERATING]
        \/ infos = [INFO_GENERATING; INFO_PROCESSING]).
Proof.
  intros Hdev Hv Hb Hr. rewrite (@serve_development cfg rt p prompt Hdev) in Hr.
  destruct (event_stream_cases rt p (strip prompt))
    as [calls [statuses [terminal [_ [Hy [Hs [_ [_ Ht]]]]]]]].
  rewrite Hb in Ht. subst terminal.
  destruct (error_for_payload e) as [payload [Ee [Hp Ho]]].
  rewrite Ee in Hy.
  assert (Hrel : exists infos, relayed statuses infos).
  { destruct Hs as [-> | ->]; eexists; [left|right]; split; reflexivity. }
  destruct Hrel as [infos Hrel].
  exists infos. split; [|exact (@relayed_infos statuses infos Hrel)].
  apply (@stream_response_stream rt p prompt backend statuses infos
           ERROR_LINE payload None Hv Hr Hy Hrel).
  - now apply visible_literal.
  - reflexivity.
  - now apply visible_literal.
  - apply Ho.
Qed.

(** X25. The frontend sends no API key.  Outside of development its
    request is answered with 401, and a prompt of the wrong length is
    answered with 422 in development: in both cases [stream_response]
    shows a connection error for the [HTTPError] of [raise_for_status],
    whatever the body, and returns [None]. *)
Theorem frontend_refused_shows_connection_error (cfg : settings)
  (rt : runtime) (p : provider) (prompt : str)
  (backend : str -> reply stream_body) :
  ENVIRONMENT cfg <> DEVELOPMENT \/ RepoRequest prompt = false ->
  received (serve cfg rt p prompt) (backend prompt) ->
  (ENVIRONMENT cfg <> DEVELOPMENT -> serve cfg rt p prompt = Unauthorized)
  /\ exists e,
       exn_cls e = HTTPError
       /\ stream_response rt backend prompt
          = ([Error CONNECTION_ERROR_HEAD e], None).
Proof.
  intros H Hr.
  assert (Hu : ENVIRONMENT cfg <> DEVELOPMENT ->
               serve cfg rt p prompt = Unauthorized).
  { intros Hne. unfold serve.
    rewrite validate_api_key_protected;
      [reflexivity|split; discriminate|exact Hne]. }
  split; [exact Hu|].
  assert (Hw : exists status body,
             backend prompt = Responds status body
             /\ (status = 401 \/ status = 422)%N).
  { destruct (str_eqb (ENVIRONMENT cfg) DEVELOPMENT) eqn:E.
    - apply str_eqb_eq in E.
      destruct H as [H|H]; [contradiction|].
      rewrite (@serve_development cfg rt p prompt E) in Hr.
      unfold generate_repo in Hr. rewrite H in Hr.
      destruct Hr as [body ->]. eauto.
    - assert (Hne : ENVIRONMENT cfg <> DEVELOPMENT).
      { intros Heq. rewrite Heq in E. discriminate. }
      rewrite (Hu Hne) in Hr. destruct Hr as [body ->]. eauto. }
  destruct Hw as [status [body [Hw Hst]]].
  exists (Exn HTTPError []). split; [reflexivity|].
  unfold stream_response. rewrite Hw.
  destruct Hst as [->| ->]; reflexivity.
Qed.

(** ** What cannot be sent *)

Lemma utf8_encode_units_surrogate (s : str) (c : char) :
  In c s -> is_surrogate c = true -> utf8_encode_units s = None.
Proof.
  intros Hin Hc. induction s as [|x s IH]; [destruct Hin|].
  cbn [utf8_encode_units]. destruct Hin as [->|Hin].
  - assert (E : utf8_encode_char c = None).
    { unfold utf8_encode_char. rewrite Hc.
      unfold is_surrogate in Hc. apply andb_true_iff in Hc as [H1 H2].
      apply N.leb_le in H1, H2.
      destruct (N.ltb_spec c 128); [lia|].
      destruct (N.ltb_spec c 2048); [lia|].
      destruct (N.ltb_spec c 65536); [reflexivity|lia]. }
    now rewrite E.
  - rewrite (IH Hin). now destruct (utf8_encode_char x).
Qed.

Lemma encode_utf8_surrogate (s : str) (c : char) :
  In c s -> is_surrogate c = true -> encode_utf8 s = None.
Proof.
  intros Hin Hc. unfold encode_utf8.
  now rewrite (utf8_encode_units_surrogate s c Hin Hc).
Qed.

(** Without [ensure_ascii], a surrogate is written as it is. *)
Lemma encode_string_keeps_surrogate (s : str) (c : char) :
  In c s -> is_surrogate c = true -> In c (encode_string false s).
Proof.
  intros Hin Hc. unfold encode_string. right. apply in_or_app. left.
  apply in_flat_map. exists c. split; [exact Hin|].
  unfold is_surrogate in Hc. apply andb_true_iff in Hc as [H1 H2].
  apply N.leb_le in H1, H2. unfold escape_char.
  repeat match goal with
         | |- context [if (?a =? ?b)%N then _ else _] =>
             destruct (N.eqb_spec a b); [lia|]
         end.
  destruct (N.ltb_spec c 32); [lia|]. now left.
Qed.

Lemma join_map_in (A : Type) (f : A -> str) (l : list A) (x : A) (c : char) :
  In x l -> In c (f x) -> In c (join_map f l).
Proof.
  intros Hx Hc. induction l as [|y l IH]; [destruct Hx|].
  cbn [join_map]. apply in_or_app. destruct Hx as [->|Hx]; [now left|].
  right. destruct l as [|z l]; [destruct Hx|].
  apply in_or_app. right. now apply IH.
Qed.

(** A character of the serialization of a value of an object is a
    character of the serialization of the object. *)
Lemma dumps_member_in (rt : runtime) (ea : bool) (d : list (str * JSON))
  (k : str) (v : JSON) (c : char) :
  In (k, v) d -> In c (json_dumps rt ea v) ->
  In c (json_dumps rt ea (JDict d)).
Proof.
  intros Hd Hc. cbn [json_dumps]. right. apply in_or_app. left.
  apply (join_map_in _ d (k, v) c Hd).
  cbn [fst snd]. apply in_or_app. right. apply in_or_app. now right.
Qed.

(** X26. A lone surrogate in a field of the model's object is copied
    into the cleaned artifact and written as it is into the payload of
    the done event ([ensure_ascii=False]); the text of the stream then
    cannot be encoded in UTF-8, and the frontend does not receive the
    stream whole. *)
Theorem lone_surrogate_cannot_be_sent (rt : runtime) (p : provider)
  (prompt text : str) (d : list (str * JSON)) (n ds r : str) (c : char) :
  RepoRequest prompt = true ->
  obtains p text ->
  extract_json_from_response text = Return (JDict d) ->
  has_required_keys rt (JDict d) = Return true ->
  clean_data rt (JDict d)
  = Return (JDict [(K_REPOSITORY_NAME, JStr n); (K_DESCRIPTION, JStr ds);
                   (K_README_CONTENT, JStr r)]) ->
  In c (n ++ ds ++ r) ->
  is_surrogate c = true ->
  encode_utf8 (concat (yielded (event_stream rt p (strip prompt)))) = None
  /\ forall w, ~ received (Passed (generate_repo rt p prompt)) w.
Proof.
  intros Hv Ho He Hk Hc Hin Hs.
  assert (E : encode_utf8
                (concat (yielded (event_stream rt p (strip prompt)))) = None).
  { destruct (@obtains_relayed rt p (strip prompt) text Ho)
      as [statuses [infos [_ Hy]]].
    rewrite Hy, (@answer_clean rt (strip prompt) text d _ He Hk Hc).
    apply encode_utf8_surrogate with c; [|exact Hs].
    apply in_concat. eexists. split; [apply in_or_app; right; now left|].
    unfold done_event. apply in_or_app. right. apply in_or_app. left.
    apply in_app_or in Hin as [Hin|Hin];
      [|apply in_app_or in Hin as [Hin|Hin]].
    - apply dumps_member_in with K_REPOSITORY_NAME (JStr n);
        [now left|now apply encode_string_keeps_surrogate].
    - apply dumps_member_in with K_DESCRIPTION (JStr ds);
        [right; now left|now apply encode_string_keeps_surrogate].
    - apply dumps_member_in with K_README_CONTENT (JStr r);
        [right; right; now left|now apply encode_string_keeps_surrogate]. }
  split; [exact E|]. intros w Hr.
  unfold generate_repo in Hr. rewrite Hv in Hr.
  destruct Hr as [body [Hb _]]. rewrite E in Hb. discriminate.
Qed.

(** ** The theorems at sample inputs *)

Lemma accepted_request_event_order_witness :
  RepoRequest (lit "A CLI tool for renaming files in bulk") = true
  /\ exists rest statuses terminal,
       generate_repo plain_runtime provider_unreachable
         (lit "A CLI tool for renaming files in bulk")
       = StreamingResponse (Yield STATUS_GENERATING :: rest)
       /\ yielded (Yield STATUS_GENERATING :: rest) = statuses ++ [terminal]
       /\ statuses <> []
       /\ Forall (fun c => is_status c = true /\ is_terminal c = false)
            statuses
       /\ is_terminal terminal = true
       /\ is_status terminal = false.
Proof.
  split; [reflexivity|].
  apply (accepted_request_event_order plain_runtime provider_unreachable
           (lit "A CLI tool for renaming files in bulk")).
  reflexivity.
Defined.

Lemma buffered_failure_retries_once_witness :
  let p := Provider (Fails connection_error) (Responds 200 hello_stream) in
  snd (buffered_attempt p) = Raise connection_error
  /\ exists tail terminal,
       event_stream plain_runtime p (lit "a todo list app")
       = [Yield STATUS_GENERATING; Post false; Yield STATUS_PROCESSING;
          Post true] ++ tail
       /\ tail = [Yield terminal]
       /\ match snd (query_groq_stream p) with
          | Return s => tail = answer plain_runtime (lit "a todo list app")
                                 (JStr s)
          | Raise e' => terminal = error_for e'
          end.
Proof.
  split; [reflexivity|].
  apply (buffered_failure_retries_once plain_runtime
           (Provider (Fails connection_error) (Responds 200 hello_stream))
           (lit "a todo list app") (e := connection_error)).
  reflexivity.
Defined.




Lemma extraction_recovers_and_is_idempotent_witness :
  let obj := JDict [(K_REPOSITORY_NAME, JStr (lit "foo"));
                    (K_DESCRIPTION, JStr (lit "d"));
                    (K_README_CONTENT, JStr (lit "# R"))] in
  extract_json_from_response fenced_foo = Return obj
  /\ (float_free obj = true ->
      extract_json_from_response (json_dumps plain_runtime false obj)
      = Return obj)
  /\ (canonical true obj = true ->
      extract_json_from_response (json_dumps plain_runtime true obj)
      = Return obj).
Proof.
  apply (@extraction_recovers_and_is_idempotent plain_runtime fenced_foo
           [NEWLINE]
           (qlit "'repository_name':'foo','description':'d','readme_content':'# R'")
           [NEWLINE]).
  - reflexivity.
  - intros [H|[]]; discriminate H.
  - intros [H|[]]; discriminate H.
  - reflexivity.
Defined.

Lemma carries_hel : carries delta_hel (lit "Hel").
Proof. do 5 eexists. repeat split. Qed.

Lemma carries_lo : carries delta_lo (lit "lo").
Proof. do 5 eexists. repeat split. Qed.

Lemma contentless_role : contentless delta_role.
Proof.
  do 2 eexists. repeat split. right. right. do 2 eexists.
  split; [reflexivity|]. right. eexists. split; reflexivity.
Qed.

Lemma carried_hello : carried hello_lines (lit "Hello").
Proof.
  apply carried_contentless; [exact contentless_role|].
  apply (carried_delta (c := lit "Hel") (s := lit "lo") carries_hel).
  apply carried_quiet; [now left|].
  apply (carried_delta (c := lit "lo") (s := []) carries_lo).
  apply carried_nil.
Qed.

Lemma stream_returns_carried_deltas_witness :
  query_groq_stream
    (Provider (Fails connection_error)
       (Responds 200 (StreamBody hello_lines None)))
  = ([Post true], Return (lit "Hello")).
Proof.
  apply (@stream_returns_carried_deltas
           (Provider (Fails connection_error)
              (Responds 200 (StreamBody hello_lines None)))
           200%N (StreamBody hello_lines None)
           (lit "Hello"));
    try reflexivity.
  exact carried_hello.
Defined.

Lemma stream_stops_at_terminator_witness :
  query_groq_stream
    (Provider (Fails connection_error)
       (Responds 200
          (StreamBody
             (hello_lines
              ++ bqlit "data: [DONE]" :: [bqlit "data: 42"])
             (Some read_timeout))))
  = ([Post true], Return (lit "Hello")).
Proof.
  apply (@stream_stops_at_terminator
           (Provider (Fails connection_error)
              (Responds 200
                 (StreamBody
                    (hello_lines
                     ++ bqlit "data: [DONE]" :: [bqlit "data: 42"])
                    (Some read_timeout))))
           200%N hello_lines [bqlit "data: 42"]
           (bqlit "data: [DONE]") (Some read_timeout) (lit "Hello"));
    try reflexivity.
  - exact carried_hello.
  - exists (lit "data: [DONE]"). repeat split.
Defined.

Lemma stream_broken_connection_raises_witness :
  let p := Provider (Fails connection_error)
             (Responds 200
                (StreamBody hello_lines (Some read_timeout))) in
  query_groq_stream p = ([Post true], Raise read_timeout)
  /\ yielded (event_stream plain_runtime p (lit "a todo list app"))
     = [STATUS_GENERATING; STATUS_PROCESSING; error_for read_timeout].
Proof.
  apply (@stream_broken_connection_raises plain_runtime
           (Provider (Fails connection_error)
              (Responds 200
                 (StreamBody hello_lines (Some read_timeout))))
           (lit "a todo list app") 200%N hello_lines
           (lit "Hello") connection_error read_timeout);
    try reflexivity.
  exact carried_hello.
Defined.

Lemma provider_error_status_is_api_error_witness :
  event_stream plain_runtime
    (Provider (Responds 429 (lit "Too Many Requests"))
       (Responds 503 (StreamBody [] None)))
    (lit "a todo list app")
  = [Yield STATUS_GENERATING; Post false; Yield STATUS_PROCESSING; Post true;
     Yield ERROR_API].
Proof.
  apply (@provider_error_status_is_api_error plain_runtime
           (Provider (Responds 429 (lit "Too Many Requests"))
              (Responds 503 (StreamBody [] None)))
           (lit "a todo list app") 429%N 503%N
           (lit "Too Many Requests") (StreamBody [] None));
    reflexivity.
Defined.

Lemma invalid_object_answered_with_fallback_witness :
  let p := Provider (completion_of plain_runtime (qlit "{'name': 'foo'}"))
             (Fails read_timeout) in
  let text := qlit "{'name': 'foo'}" in
  exists statuses,
    yielded (event_stream plain_runtime p (lit "a todo list app"))
    = statuses
      ++ [done_event (json_dumps plain_runtime true
                        (fallback_response (lit "a todo list app") text))]
    /\ fallback_response (lit "a todo list app") text
       = JDict [(K_REPOSITORY_NAME, JStr FALLBACK_NAME);
                (K_DESCRIPTION, JStr FALLBACK_DESCRIPTION);
                (K_README_CONTENT,
                 JStr (README_HEAD ++ lit "a todo list app" ++ README_TAIL));
                (K_RAW_RESPONSE, JStr (firstn 500 text));
                (K_NOTE, JStr FALLBACK_NOTE)]
    /\ length (firstn 500 text) <= 500.
Proof.
  apply (@invalid_object_answered_with_fallback plain_runtime
           (Provider (completion_of plain_runtime (qlit "{'name': 'foo'}"))
              (Fails read_timeout))
           (lit "a todo list app") (qlit "{'name': 'foo'}")
           (JDict [(lit "name", JStr (lit "foo"))])).
  - left. reflexivity.
  - reflexivity.
  - right. exists [(lit "name", JStr (lit "foo"))], K_DESCRIPTION.
    repeat split. right. now left.
Defined.

Lemma non_string_content_is_internal_error_witness :
  event_stream plain_runtime
    (Provider (completion_with plain_runtime JNull) (Responds 200 hello_stream))
    (lit "a todo list app")
  = [Yield STATUS_GENERATING; Post false; Yield ERROR_INTERNAL].
Proof.
  apply (@non_string_content_is_internal_error plain_runtime
           (Provider (completion_with plain_runtime JNull)
              (Responds 200 hello_stream))
           (lit "a todo list app") JNull).
  - reflexivity.
  - discriminate.
Defined.

Lemma terminal_event_independent_of_mode_witness :
  exists terminal,
    yielded (event_stream plain_runtime
               (Provider (completion_of plain_runtime (lit "Hello"))
                  (Fails read_timeout))
               (lit "a todo list app"))
    = [STATUS_GENERATING; terminal]
    /\ yielded (event_stream plain_runtime
                  (Provider (Fails connection_error)
                     (Responds 200 hello_stream))
                  (lit "a todo list app"))
       = [STATUS_GENERATING; STATUS_PROCESSING; terminal].
Proof.
  apply (@terminal_event_independent_of_mode plain_runtime
           (Provider (completion_of plain_runtime (lit "Hello"))
              (Fails read_timeout))
           (Provider (Fails connection_error) (Responds 200 hello_stream))
           (lit "a todo list app") (lit "Hello") connection_error);
    reflexivity.
Defined.

Lemma cleaned_payload_reads_back_witness :
  let clean := JDict [(K_REPOSITORY_NAME, JStr (lit "foo"));
                      (K_DESCRIPTION, JStr (lit "d"));
                      (K_README_CONTENT, JStr (lit "# R"))] in
  json_loads (json_dumps plain_runtime false clean) = Return clean
  /\ exists n ds r,
       clean = JDict [(K_REPOSITORY_NAME, JStr n); (K_DESCRIPTION, JStr ds);
                      (K_README_CONTENT, JStr r)].
Proof.
  apply (@cleaned_payload_reads_back plain_runtime
           (JDict [(K_README_CONTENT, JStr (lit "  # R "));
                   (K_REPOSITORY_NAME, JStr (lit "foo"));
                   (K_DESCRIPTION, JStr (lit "d"))])
           (JDict [(K_REPOSITORY_NAME, JStr (lit "foo"));
                   (K_DESCRIPTION, JStr (lit "d"));
                   (K_README_CONTENT, JStr (lit "# R"))])).
  reflexivity.
Defined.

Lemma fallback_payload_reads_back_witness :
  json_loads
    (json_dumps plain_runtime true
       (fallback_response (lit "a todo list app") (ROCKET :: lit " no JSON")))
  = Return (fallback_response (lit "a todo list app")
              (ROCKET :: lit " no JSON")).
Proof.
  apply (@fallback_payload_reads_back plain_runtime
           (lit "a todo list app") (ROCKET :: lit " no JSON"));
    reflexivity.
Defined.

Lemma done_payload_on_one_line_witness :
  Forall (fun c => (32 <= c)%N)
    (json_dumps plain_runtime true
       (fallback_response (lit "a todo list app")
          (lit "line 1" ++ NEWLINE :: lit "line 2"))).
Proof.
  apply (@done_payload_on_one_line plain_runtime true
           (lit "a todo list app") (lit "line 1" ++ NEWLINE :: lit "line 2")
           (fallback_response (lit "a todo list app")
              (lit "line 1" ++ NEWLINE :: lit "line 2"))).
  left. reflexivity.
Defined.

Lemma fallback_payload_is_ascii_witness :
  Forall printable
    (json_dumps plain_runtime true
       (fallback_response (lit "a todo list app") (ROCKET :: lit " no JSON"))).
Proof.
  apply (@fallback_payload_is_ascii plain_runtime
           (lit "a todo list app") (ROCKET :: lit " no JSON"));
    repeat constructor.
Defined.

Lemma frontend_prompt_reaches_orchestrator_witness :
  generate_repo plain_runtime provider_unreachable
    (strip (lit "  a todo list app  "))
  = StreamingResponse
      (event_stream plain_runtime provider_unreachable
         (strip (lit "  a todo list app  ")))
  /\ 5 <= length (strip (lit "  a todo list app  ")) <= 500.
Proof.
  apply (@frontend_prompt_reaches_orchestrator plain_runtime
           provider_unreachable (lit "  a todo list app  ")).
  reflexivity.
Defined.

Lemma orchestrator_prompt_bounded_witness :
  event_stream plain_runtime provider_unreachable (lit "a todo list app")
  = event_stream plain_runtime provider_unreachable
      (strip (lit "  a todo list app  "))
  /\ length (strip (lit "  a todo list app  ")) <= 500
  /\ 5 <= length (lit "  a todo list app  ") <= 500.
Proof.
  apply (@orchestrator_prompt_bounded plain_runtime provider_unreachable
           (lit "  a todo list app  ")
           (event_stream plain_runtime provider_unreachable
              (lit "a todo list app"))).
  reflexivity.
Defined.

Lemma extract_ignores_blank_edges_witness :
  extract_json_from_response
    ([NEWLINE; SPACE] ++ qlit "{'a': 1}" ++ [SPACE; NEWLINE])
  = extract_json_from_response (qlit "{'a': 1}").
Proof.
  apply (@extract_ignores_blank_edges [NEWLINE; SPACE] [SPACE; NEWLINE]
           (qlit "{'a': 1}"));
    reflexivity.
Defined.

Lemma production_requires_the_key_witness :
  exists key,
    production_environ N_API_KEY = Some key /\ key <> []
    /\ validate_api_key
         (Settings (Some (lit "gsk_sample")) (Some (lit "s3cret")) PRODUCTION
            [DEFAULT_ORIGIN])
         (health_request (Some (lit "guess")))
         (fun _ => tt)
       = if match req_api_key (health_request (Some (lit "guess"))) with
            | Some k => str_eqb k key
            | None => false
            end
         then Passed tt
         else Unauthorized.
Proof.
  apply (@production_requires_the_key unit production_environ
           (Settings (Some (lit "gsk_sample")) (Some (lit "s3cret"))
              PRODUCTION [DEFAULT_ORIGIN])
           (health_request (Some (lit "guess"))) (fun _ => tt)).
  - reflexivity.
  - reflexivity.
  - split; discriminate.
Defined.

Lemma no_key_locks_every_request_out_witness :
  exists cfg,
    load_settings staging_environ = Started cfg
    /\ validate_api_key cfg (health_request (Some (lit "guess")))
         (fun _ => tt)
       = Unauthorized.
Proof.
  apply (@no_key_locks_every_request_out unit staging_environ
           (health_request (Some (lit "guess"))) (fun _ => tt));
    try reflexivity; try discriminate.
  split; discriminate.
Defined.

Lemma allowed_origins_are_the_pieces_witness :
  let cfg := Settings (Some (lit "gsk_sample")) None (lit "staging")
               [lit "https://a.example"; lit " https://b.example"] in
  let value := getenv_default staging_environ N_ALLOWED_ORIGINS DEFAULT_ORIGIN in
  join_with COMMA (ALLOWED_ORIGINS cfg) = value
  /\ Forall (fun origin => ~ In COMMA origin) (ALLOWED_ORIGINS cfg)
  /\ 1 <= length (ALLOWED_ORIGINS cfg)
  /\ (staging_environ N_ALLOWED_ORIGINS = None ->
      ALLOWED_ORIGINS cfg = [DEFAULT_ORIGIN]).
Proof.
  apply (@allowed_origins_are_the_pieces staging_environ
           (Settings (Some (lit "gsk_sample")) None (lit "staging")
              [lit "https://a.example"; lit " https://b.example"])).
  reflexivity.
Defined.

Lemma health_check_key_set_after_startup_witness :
  py_getitem
    (health_check
       (Settings (Some (lit "gsk_sample")) (Some (lit "s3cret")) PRODUCTION
          [DEFAULT_ORIGIN])
       (Fails read_timeout))
    K_GROQ_KEY_SET
  = Return (JBool true).
Proof.
  apply (@health_check_key_set_after_startup production_environ
           (Settings (Some (lit "gsk_sample")) (Some (lit "s3cret"))
              PRODUCTION [DEFAULT_ORIGIN])
           (Fails read_timeout)).
  reflexivity.
Defined.

Lemma frontend_returns_cleaned_artifact_witness :
  let p := Provider (completion_of plain_runtime fenced_foo)
             (Fails read_timeout) in
  let backend := fun prompt =>
    relay (serve development plain_runtime p prompt) in
  exists infos,
    stream_response plain_runtime backend (lit "a todo list app")
    = (infos,
       Some (JDict [(K_REPOSITORY_NAME, JStr (lit "foo"));
                    (K_DESCRIPTION, JStr (lit "d"));
                    (K_README_CONTENT, JStr (lit "# R"))]))
    /\ (infos = [INFO_GENERATING]
        \/ infos = [INFO_GENERATING; INFO_PROCESSING]).
Proof.
  apply (@frontend_returns_cleaned_artifact development plain_runtime
           (Provider (completion_of plain_runtime fenced_foo)
              (Fails read_timeout))
           (lit "a todo list app") fenced_foo
           [(K_REPOSITORY_NAME, JStr (lit "foo"));
            (K_DESCRIPTION, JStr (lit "d"));
            (K_README_CONTENT, JStr (lit "# R"))]
           (JDict [(K_REPOSITORY_NAME, JStr (lit "foo"));
                   (K_DESCRIPTION, JStr (lit "d"));
                   (K_README_CONTENT, JStr (lit "# R"))])
           (fun prompt =>
              relay (serve development plain_runtime
                       (Provider (completion_of plain_runtime fenced_foo)
                          (Fails read_timeout))
                       prompt)));
    try reflexivity.
  - left. reflexivity.
  - eexists. split; reflexivity.
Defined.


Lemma backend_error_not_shown_witness :
  let backend := fun prompt =>
    relay (serve development plain_runtime provider_unreachable prompt) in
  exists infos,
    stream_response plain_runtime backend (lit "a todo list app")
    = (infos, None)
    /\ (infos = [INFO_GENERATING]
        \/ infos = [INFO_GENERATING; INFO_PROCESSING]).
Proof.
  apply (@backend_error_not_shown development plain_runtime
           provider_unreachable (lit "a todo list app") read_timeout
           (fun prompt =>
              relay (serve development plain_runtime provider_unreachable
                       prompt)));
    try reflexivity.
  eexists. split; reflexivity.
Defined.

Lemma frontend_refused_shows_connection_error_witness :
  let cfg := Settings (Some (lit "gsk_sample")) (Some (lit "s3cret"))
               PRODUCTION [DEFAULT_ORIGIN] in
  let backend := fun prompt =>
    relay (serve cfg plain_runtime provider_unreachable prompt) in
  (ENVIRONMENT cfg <> DEVELOPMENT ->
   serve cfg plain_runtime provider_unreachable (lit "a todo list app")
   = Unauthorized)
  /\ exists e,
       exn_cls e = HTTPError
       /\ stream_response plain_runtime backend (lit "a todo list app")
          = ([Error CONNECTION_ERROR_HEAD e], None).
Proof.
  apply (@frontend_refused_shows_connection_error
           (Settings (Some (lit "gsk_sample")) (Some (lit "s3cret"))
              PRODUCTION [DEFAULT_ORIGIN])
           plain_runtime provider_unreachable (lit "a todo list app")
           (fun prompt =>
              relay (serve
                       (Settings (Some (lit "gsk_sample"))
                          (Some (lit "s3cret")) PRODUCTION [DEFAULT_ORIGIN])
                       plain_runtime provider_unreachable prompt))).
  - left. discriminate.
  - eexists. reflexivity.
Defined.

Lemma lone_surrogate_cannot_be_sent_witness :
  let text :=
    qlit "{'repository_name':'\ud800','description':'d','readme_content':'r'}" in
  let p := Provider (completion_of plain_runtime text) (Fails read_timeout) in
  encode_utf8
    (concat (yielded (event_stream plain_runtime p
                        (strip (lit "a todo list app"))))) = None
  /\ forall w,
       ~ received
           (Passed (generate_repo plain_runtime p (lit "a todo list app"))) w.
Proof.
  apply (@lone_surrogate_cannot_be_sent plain_runtime
           (Provider
              (completion_of plain_runtime
                 (qlit "{'repository_name':'\ud800','description':'d','readme_content':'r'}"))
              (Fails read_timeout))
           (lit "a todo list app")
           (qlit "{'repository_name':'\ud800','description':'d','readme_content':'r'}")
           [(K_REPOSITORY_NAME, JStr [55296%N]);
            (K_DESCRIPTION, JStr (lit "d"));
            (K_README_CONTENT, JStr (lit "r"))]
           [55296%N] (lit "d") (lit "r") 55296%N);
    try reflexivity.
  - left. reflexivity.
  - left. reflexivity.
Defined.
